(** * CHIP-8 virtual machine: a shallow embedding of package [chip8]

    The Go package keeps the whole machine in one struct, [Chip8], that its
    methods mutate in place.  Here the struct is a record, a method is a
    computation in a state-and-panic monad [M], fixed-size Go arrays are lists
    of the same length (an invariant, [wf]), and an index outside an array
    is the run-time panic Go raises for it: the computation yields [None].
    Unsigned machine integers ([byte], [uint16]) are [Z] with the wrap-around
    written out ([u8], [u16]). *)

From Stdlib Require Import ZArith Lia Bool List.
From stdpp Require Import base option list list_numbers.

Local Open Scope Z_scope.

(** ** Constants *)

Definition DisplayWidth : Z := 64.
Definition DisplayHeight : Z := 32.

Definition MemorySize : Z := 4096.
Definition ProgramStartAddr : Z := 0x200.
Definition FontsetStartAddr : Z := 0x000.
Definition FontEndAddr : Z := 0x050.

Definition RegisterCount : Z := 16.
Definition StackSize : Z := 16.
Definition KeyCount : Z := 16.

Definition FontSpriteHeight : Z := 5.
Definition SpriteWidth : Z := 8.

Definition VFRegister : Z := 0xF.

Definition OpcodeMask : Z := 0xF000.
Definition XRegisterMask : Z := 0x0F00.
Definition YRegisterMask : Z := 0x00F0.
Definition NibbleMask : Z := 0x000F.
Definition AddressMask : Z := 0x0FFF.
Definition ByteMask : Z := 0x00FF.

Definition XRegisterShift : Z := 8.
Definition YRegisterShift : Z := 4.

Definition InstructionSize : Z := 2.

Definition ByteMax : Z := 0xFF.
Definition SpriteLeftBit : Z := 0x80.
Definition AddressMax : Z := 0xFFF.

Definition Hundreds : Z := 100.
Definition Tens : Z := 10.

(** ** Machine integers *)

(** Conversion to [byte] and to [uint16]: the value modulo the type's size. *)
Definition u8 (z : Z) : Z := z mod 256.
Definition u16 (z : Z) : Z := z mod 65536.

(** ** Arrays *)

(** [a[i]] for reading: a panic when [i] is outside the array. *)
Definition index {A : Type} (a : list A) (i : Z) : option A :=
  if 0 <=? i then a !! Z.to_nat i else None.

(** [a[i] = v]: a panic when [i] is outside the array. *)
Definition assign {A : Type} (a : list A) (i : Z) (v : A) : option (list A) :=
  if (0 <=? i) && (i <? Z.of_nat (length a))
  then Some (<[Z.to_nat i := v]> a)
  else None.

(** [copy(dst, src)]: the first [min (len dst) (len src)] elements are
    overwritten. *)
Definition copy {A : Type} (dst src : list A) : list A :=
  take (length dst) src ++ drop (length src) dst.

(** ** The machine state *)

Record Chip8 : Type := mkChip8 {
  V : list Z;                  (* [RegisterCount]byte *)
  I : Z;                       (* uint16 *)
  PC : Z;                      (* uint16 *)
  SP : Z;                      (* byte *)
  DT : Z;                      (* byte *)
  ST : Z;                      (* byte *)
  Memory : list Z;             (* [MemorySize]byte *)
  Stack : list Z;              (* [StackSize]uint16 *)
  Display : list (list bool);  (* [DisplayHeight][DisplayWidth]bool *)
  Keys : list bool;            (* [KeyCount]bool *)
  DrawFlag : bool
}.

Definition with_V (v : list Z) (c : Chip8) : Chip8 :=
  mkChip8 v (I c) (PC c) (SP c) (DT c) (ST c) (Memory c) (Stack c) (Display c) (Keys c) (DrawFlag c).
Definition with_I (i : Z) (c : Chip8) : Chip8 :=
  mkChip8 (V c) i (PC c) (SP c) (DT c) (ST c) (Memory c) (Stack c) (Display c) (Keys c) (DrawFlag c).
Definition with_PC (pc : Z) (c : Chip8) : Chip8 :=
  mkChip8 (V c) (I c) pc (SP c) (DT c) (ST c) (Memory c) (Stack c) (Display c) (Keys c) (DrawFlag c).
Definition with_SP (sp : Z) (c : Chip8) : Chip8 :=
  mkChip8 (V c) (I c) (PC c) sp (DT c) (ST c) (Memory c) (Stack c) (Display c) (Keys c) (DrawFlag c).
Definition with_DT (dt : Z) (c : Chip8) : Chip8 :=
  mkChip8 (V c) (I c) (PC c) (SP c) dt (ST c) (Memory c) (Stack c) (Display c) (Keys c) (DrawFlag c).
Definition with_ST (st : Z) (c : Chip8) : Chip8 :=
  mkChip8 (V c) (I c) (PC c) (SP c) (DT c) st (Memory c) (Stack c) (Display c) (Keys c) (DrawFlag c).
Definition with_Memory (m : list Z) (c : Chip8) : Chip8 :=
  mkChip8 (V c) (I c) (PC c) (SP c) (DT c) (ST c) m (Stack c) (Display c) (Keys c) (DrawFlag c).
Definition with_Stack (s : list Z) (c : Chip8) : Chip8 :=
  mkChip8 (V c) (I c) (PC c) (SP c) (DT c) (ST c) (Memory c) s (Display c) (Keys c) (DrawFlag c).
Definition with_Display (d : list (list bool)) (c : Chip8) : Chip8 :=
  mkChip8 (V c) (I c) (PC c) (SP c) (DT c) (ST c) (Memory c) (Stack c) d (Keys c) (DrawFlag c).
Definition with_Keys (k : list bool) (c : Chip8) : Chip8 :=
  mkChip8 (V c) (I c) (PC c) (SP c) (DT c) (ST c) (Memory c) (Stack c) (Display c) k (DrawFlag c).
Definition with_DrawFlag (f : bool) (c : Chip8) : Chip8 :=
  mkChip8 (V c) (I c) (PC c) (SP c) (DT c) (ST c) (Memory c) (Stack c) (Display c) (Keys c) f.

(** ** Methods on [*Chip8]: state plus panic *)

Definition M (A : Type) : Type := Chip8 → option (A * Chip8).

#[export] Instance M_ret : MRet M := λ A a c, Some (a, c).
#[export] Instance M_bind : MBind M := λ A B k m c,
  match m c with
  | Some (a, c') => k a c'
  | None => None
  end.

(** Lifting an array access that may panic. *)
Definition get {A : Type} (f : Chip8 → option A) : M A :=
  λ c, match f c with Some a => Some (a, c) | None => None end.
Definition put (f : Chip8 → option Chip8) : M unit :=
  λ c, match f c with Some c' => Some (tt, c') | None => None end.

Definition readV (x : Z) : M Z := get (λ c, index (V c) x).
Definition writeV (x v : Z) : M unit :=
  put (λ c, v' ← assign (V c) x v; Some (with_V v' c)).
Definition readMem (a : Z) : M Z := get (λ c, index (Memory c) a).
Definition writeMem (a v : Z) : M unit :=
  put (λ c, m ← assign (Memory c) a v; Some (with_Memory m c)).
Definition readStack (i : Z) : M Z := get (λ c, index (Stack c) i).
Definition writeStack (i v : Z) : M unit :=
  put (λ c, s ← assign (Stack c) i v; Some (with_Stack s c)).
Definition readKey (i : Z) : M bool := get (λ c, index (Keys c) i).
Definition readPixel (y x : Z) : M bool :=
  get (λ c, row ← index (Display c) y; index row x).
Definition writePixel (y x : Z) (b : bool) : M unit :=
  put (λ c, row ← index (Display c) y;
            row' ← assign row x b;
            d ← assign (Display c) y row';
            Some (with_Display d c)).

Definition getI : M Z := λ c, Some (I c, c).
Definition setI (i : Z) : M unit := λ c, Some (tt, with_I i c).
Definition getPC : M Z := λ c, Some (PC c, c).
Definition setPC (pc : Z) : M unit := λ c, Some (tt, with_PC pc c).
Definition getSP : M Z := λ c, Some (SP c, c).
Definition setSP (sp : Z) : M unit := λ c, Some (tt, with_SP sp c).
Definition getDT : M Z := λ c, Some (DT c, c).
Definition setDT (dt : Z) : M unit := λ c, Some (tt, with_DT dt c).
Definition getST : M Z := λ c, Some (ST c, c).
Definition setST (st : Z) : M unit := λ c, Some (tt, with_ST st c).
Definition setDrawFlag (f : bool) : M unit := λ c, Some (tt, with_DrawFlag f c).

(** [for i := lo; ...; i++ { body }] run for at most [n] iterations; the body
    answers [false] for [break]. *)
Fixpoint loop (n : nat) (i : Z) (body : Z → M bool) : M unit :=
  match n with
  | O => mret tt
  | S n' => continue ← body i;
            if continue : bool then loop n' (i + 1) body else mret tt
  end.

(** [for i := lo; i < hi; i++ { body }] *)
Definition for_range (lo hi : Z) (body : Z → M bool) : M unit :=
  loop (Z.to_nat (hi - lo)) lo body.

Definition next : M bool := mret true.
Definition break : M bool := mret false.

(** An access to a Go slice that is not part of the machine. *)
Definition lift {A : Type} (o : option A) : M A :=
  λ c, match o with Some a => Some (a, c) | None => None end.

(** ** [New] *)

Definition fontSet : list Z :=
  [ 0xF0; 0x90; 0x90; 0x90; 0xF0;  (* 0 *)
    0x20; 0x60; 0x20; 0x20; 0x70;  (* 1 *)
    0xF0; 0x10; 0xF0; 0x80; 0xF0;  (* 2 *)
    0xF0; 0x10; 0xF0; 0x10; 0xF0;  (* 3 *)
    0x90; 0x90; 0xF0; 0x10; 0x10;  (* 4 *)
    0xF0; 0x80; 0xF0; 0x10; 0xF0;  (* 5 *)
    0xF0; 0x80; 0xF0; 0x90; 0xF0;  (* 6 *)
    0xF0; 0x10; 0x20; 0x40; 0x40;  (* 7 *)
    0xF0; 0x90; 0xF0; 0x90; 0xF0;  (* 8 *)
    0xF0; 0x90; 0xF0; 0x10; 0xF0;  (* 9 *)
    0xF0; 0x90; 0xF0; 0x90; 0x90;  (* A *)
    0xE0; 0x90; 0xE0; 0x90; 0xE0;  (* B *)
    0xF0; 0x80; 0x80; 0x80; 0xF0;  (* C *)
    0xE0; 0x90; 0x90; 0x90; 0xE0;  (* D *)
    0xF0; 0x80; 0xF0; 0x80; 0xF0;  (* E *)
    0xF0; 0x80; 0xF0; 0x80; 0x80   (* F *) ].

(** [&Chip8{}]: every field at its zero value. *)
Definition zero : Chip8 :=
  {| V := replicate (Z.to_nat RegisterCount) 0;
     I := 0; PC := 0; SP := 0; DT := 0; ST := 0;
     Memory := replicate (Z.to_nat MemorySize) 0;
     Stack := replicate (Z.to_nat StackSize) 0;
     Display := replicate (Z.to_nat DisplayHeight)
                          (replicate (Z.to_nat DisplayWidth) false);
     Keys := replicate (Z.to_nat KeyCount) false;
     DrawFlag := false |}.

Definition New : Chip8 :=
  let c := zero in
  let c := with_Memory (copy (Memory c) fontSet) c in
  let c := with_PC ProgramStartAddr c in
  let c := with_DrawFlag true c in
  c.

(** ** [LoadROMFromBytes] *)

(** The error value; its text is
    [ROM size exceeds available memory (max: <maxRomSize> bytes)]. *)
Inductive error : Type :=
  | ErrROMSize (maxRomSize : Z).

Definition len {A : Type} (s : list A) : Z := Z.of_nat (length s).

Definition LoadROMFromBytes (rom : list Z) : M (option error) :=
  for_range FontEndAddr MemorySize (λ i, writeMem i 0 ;; next) ;;
  let maxRomSize := MemorySize - ProgramStartAddr in
  if maxRomSize <? len rom then
    mret (Some (ErrROMSize maxRomSize))
  else
    for_range 0 (len rom) (λ i,
      b ← lift (index rom i);
      writeMem (ProgramStartAddr + i) b ;; next) ;;
    setPC ProgramStartAddr ;;
    setI 0 ;;
    setSP 0 ;;
    setDT 0 ;;
    setST 0 ;;
    setDrawFlag true ;;
    for_range 0 DisplayHeight (λ y,
      for_range 0 DisplayWidth (λ x, writePixel y x false ;; next) ;;
      next) ;;
    for_range 0 RegisterCount (λ i, writeV i 0 ;; next) ;;
    mret None.

(** ** [UpdateTimers] *)

Definition UpdateTimers : M unit :=
  dt ← getDT;
  (if 0 <? dt then setDT (u8 (dt - 1)) else mret tt) ;;
  st ← getST;
  (if 0 <? st then setST (u8 (st - 1)) else mret tt).

(** ** The instructions of [EmulateCycle] *)

Definition Xreg (opcode : Z) : Z := Z.shiftr (Z.land opcode XRegisterMask) XRegisterShift.
Definition Yreg (opcode : Z) : Z := Z.shiftr (Z.land opcode YRegisterMask) YRegisterShift.

(** [c.PC += InstructionSize] *)
Definition skip : M unit :=
  pc ← getPC; setPC (u16 (pc + InstructionSize)).

(* CLS *)
Definition op_CLS : M unit :=
  for_range 0 DisplayHeight (λ y,
    for_range 0 DisplayWidth (λ x, writePixel y x false ;; next) ;;
    next) ;;
  setDrawFlag true.

(* RET *)
Definition op_RET : M unit :=
  sp ← getSP;
  setSP (u8 (sp - 1)) ;;
  sp ← getSP;
  pc ← readStack sp;
  setPC pc.

(* JP addr *)
Definition op_JP (opcode : Z) : M unit :=
  setPC (Z.land opcode AddressMask).

(* CALL addr *)
Definition op_CALL (opcode : Z) : M unit :=
  sp ← getSP;
  pc ← getPC;
  writeStack sp pc ;;
  setSP (u8 (sp + 1)) ;;
  setPC (Z.land opcode AddressMask).

(* SE Vx, byte *)
Definition op_SE_byte (opcode : Z) : M unit :=
  let x := Xreg opcode in
  vx ← readV x;
  if vx =? u8 (Z.land opcode ByteMask) then skip else mret tt.

(* SNE Vx, byte *)
Definition op_SNE_byte (opcode : Z) : M unit :=
  let x := Xreg opcode in
  vx ← readV x;
  if negb (vx =? u8 (Z.land opcode ByteMask)) then skip else mret tt.

(* SE Vx, Vy *)
Definition op_SE_reg (opcode : Z) : M unit :=
  let x := Xreg opcode in
  let y := Yreg opcode in
  vx ← readV x;
  vy ← readV y;
  if vx =? vy then skip else mret tt.

(* LD Vx, byte *)
Definition op_LD_byte (opcode : Z) : M unit :=
  let x := Xreg opcode in
  writeV x (u8 (Z.land opcode ByteMask)).

(* ADD Vx, byte *)
Definition op_ADD_byte (opcode : Z) : M unit :=
  let x := Xreg opcode in
  vx ← readV x;
  writeV x (u8 (vx + u8 (Z.land opcode ByteMask))).

(* LD Vx, Vy *)
Definition op_LD_reg (x y : Z) : M unit :=
  vy ← readV y;
  writeV x vy.

(* OR Vx, Vy *)
Definition op_OR (x y : Z) : M unit :=
  vx ← readV x;
  vy ← readV y;
  writeV x (Z.lor vx vy).

(* AND Vx, Vy *)
Definition op_AND (x y : Z) : M unit :=
  vx ← readV x;
  vy ← readV y;
  writeV x (Z.land vx vy).

(* XOR Vx, Vy *)
Definition op_XOR (x y : Z) : M unit :=
  vx ← readV x;
  vy ← readV y;
  writeV x (Z.lxor vx vy).

(* ADD Vx, Vy *)
Definition op_ADD_reg (x y : Z) : M unit :=
  vx ← readV x;
  vy ← readV y;
  let sum := u16 (vx + vy) in
  (if ByteMax <? sum then writeV VFRegister 1 else writeV VFRegister 0) ;;
  writeV x (u8 sum).

(* SUB Vx, Vy *)
Definition op_SUB (x y : Z) : M unit :=
  vx ← readV x;
  vy ← readV y;
  (if vy <? vx then writeV VFRegister 1 else writeV VFRegister 0) ;;
  vx ← readV x;
  vy ← readV y;
  writeV x (u8 (vx - vy)).

(* SHR Vx *)
Definition op_SHR (x : Z) : M unit :=
  vx ← readV x;
  writeV VFRegister (Z.land vx 0x1) ;;
  vx ← readV x;
  writeV x (Z.shiftr vx 1).

(* SUBN Vx, Vy *)
Definition op_SUBN (x y : Z) : M unit :=
  vy ← readV y;
  vx ← readV x;
  (if vx <? vy then writeV VFRegister 1 else writeV VFRegister 0) ;;
  vy ← readV y;
  vx ← readV x;
  writeV x (u8 (vy - vx)).

(* SHL Vx *)
Definition op_SHL (x : Z) : M unit :=
  vx ← readV x;
  writeV VFRegister (Z.shiftr vx 7) ;;
  vx ← readV x;
  writeV x (u8 (Z.shiftl vx 1)).

(* SNE Vx, Vy *)
Definition op_SNE_reg (opcode : Z) : M unit :=
  let x := Xreg opcode in
  let y := Yreg opcode in
  vx ← readV x;
  vy ← readV y;
  if negb (vx =? vy) then skip else mret tt.

(* LD I, addr *)
Definition op_LD_I (opcode : Z) : M unit :=
  setI (Z.land opcode AddressMask).

(* JP V0, addr *)
Definition op_JP_V0 (opcode : Z) : M unit :=
  v0 ← readV 0;
  setPC (u16 (Z.land opcode AddressMask + v0)).

(* RND Vx, byte; [rnd] is what [rand.Intn(256)] answers. *)
Definition op_RND (rnd opcode : Z) : M unit :=
  let x := Xreg opcode in
  writeV x (Z.land (u8 rnd) (u8 (Z.land opcode ByteMask))).

(* DRW Vx, Vy, nibble *)
Definition op_DRW (opcode : Z) : M unit :=
  vx ← readV (Xreg opcode);
  let x := vx mod DisplayWidth in
  vy ← readV (Yreg opcode);
  let y := vy mod DisplayHeight in
  let height := Z.land opcode NibbleMask in
  writeV VFRegister 0 ;;
  for_range 0 height (λ row,
    if DisplayHeight <=? u16 (y + row) then break
    else
      i ← getI;
      sprite ← readMem (u16 (i + row));
      for_range 0 SpriteWidth (λ col,
        if DisplayWidth <=? u16 (x + col) then break
        else
          (if negb (Z.land sprite (Z.shiftr SpriteLeftBit col) =? 0) then
             p ← readPixel (u16 (y + row)) (u16 (x + col));
             (if p : bool then writeV VFRegister 1 else mret tt) ;;
             p ← readPixel (u16 (y + row)) (u16 (x + col));
             writePixel (u16 (y + row)) (u16 (x + col)) (negb p)
           else mret tt) ;;
          next) ;;
      next) ;;
  setDrawFlag true.

(* SKP Vx *)
Definition op_SKP (x : Z) : M unit :=
  vx ← readV x;
  k ← readKey vx;
  if k : bool then skip else mret tt.

(* SKNP Vx *)
Definition op_SKNP (x : Z) : M unit :=
  vx ← readV x;
  k ← readKey vx;
  if negb k then skip else mret tt.

(* LD Vx, DT *)
Definition op_LD_Vx_DT (x : Z) : M unit :=
  dt ← getDT;
  writeV x dt.

(** The key scan of LD Vx, K: [n] iterations from key [i]; the answer is the
    value of [keyPressed] when the loop is left. *)
Fixpoint scan_keys (n : nat) (i x : Z) : M bool :=
  match n with
  | O => mret false
  | S n' =>
      k ← readKey i;
      if k : bool then writeV x (u8 i) ;; mret true
      else scan_keys n' (i + 1) x
  end.

(* LD Vx, K *)
Definition op_LD_Vx_K (x : Z) : M unit :=
  keyPressed ← scan_keys (Z.to_nat KeyCount) 0 x;
  if negb keyPressed then
    pc ← getPC; setPC (u16 (pc - InstructionSize))
  else mret tt.

(* LD DT, Vx *)
Definition op_LD_DT_Vx (x : Z) : M unit :=
  vx ← readV x;
  setDT vx.

(* LD ST, Vx *)
Definition op_LD_ST_Vx (x : Z) : M unit :=
  vx ← readV x;
  setST vx.

(* ADD I, Vx *)
Definition op_ADD_I (x : Z) : M unit :=
  i ← getI;
  vx ← readV x;
  (if AddressMax <? u16 (i + vx) then writeV VFRegister 1 else writeV VFRegister 0) ;;
  i ← getI;
  vx ← readV x;
  setI (u16 (i + vx)).

(* LD F, Vx *)
Definition op_LD_F (x : Z) : M unit :=
  vx ← readV x;
  setI (u8 (vx * FontSpriteHeight)).

(* LD B, Vx *)
Definition op_LD_B (x : Z) : M unit :=
  i ← getI;
  vx ← readV x;
  writeMem i (vx / Hundreds) ;;
  i ← getI;
  vx ← readV x;
  writeMem (u16 (i + 1)) ((vx / Tens) mod Tens) ;;
  i ← getI;
  vx ← readV x;
  writeMem (u16 (i + 2)) (vx mod Tens).

(* LD [I], Vx *)
Definition op_LD_mem_Vx (x : Z) : M unit :=
  for_range 0 (x + 1) (λ i,
    a ← getI;
    v ← readV i;
    writeMem (u16 (a + i)) v ;;
    next).

(* LD Vx, [I] *)
Definition op_LD_Vx_mem (x : Z) : M unit :=
  for_range 0 (x + 1) (λ i,
    a ← getI;
    v ← readMem (u16 (a + i));
    writeV i v ;;
    next).

(** ** [EmulateCycle] *)

(** The [switch] on the opcode. *)
Definition execute (rnd opcode : Z) : M unit :=
  let class := Z.land opcode OpcodeMask in
  if class =? 0x0000 then
    let low := Z.land opcode ByteMask in
    if low =? 0x00E0 then op_CLS
    else if low =? 0x00EE then op_RET
    else mret tt
  else if class =? 0x1000 then op_JP opcode
  else if class =? 0x2000 then op_CALL opcode
  else if class =? 0x3000 then op_SE_byte opcode
  else if class =? 0x4000 then op_SNE_byte opcode
  else if class =? 0x5000 then op_SE_reg opcode
  else if class =? 0x6000 then op_LD_byte opcode
  else if class =? 0x7000 then op_ADD_byte opcode
  else if class =? 0x8000 then
    let x := Xreg opcode in
    let y := Yreg opcode in
    let low := Z.land opcode NibbleMask in
    if low =? 0x0000 then op_LD_reg x y
    else if low =? 0x0001 then op_OR x y
    else if low =? 0x0002 then op_AND x y
    else if low =? 0x0003 then op_XOR x y
    else if low =? 0x0004 then op_ADD_reg x y
    else if low =? 0x0005 then op_SUB x y
    else if low =? 0x0006 then op_SHR x
    else if low =? 0x0007 then op_SUBN x y
    else if low =? 0x000E then op_SHL x
    else mret tt
  else if class =? 0x9000 then op_SNE_reg opcode
  else if class =? 0xA000 then op_LD_I opcode
  else if class =? 0xB000 then op_JP_V0 opcode
  else if class =? 0xC000 then op_RND rnd opcode
  else if class =? 0xD000 then op_DRW opcode
  else if class =? 0xE000 then
    let x := Xreg opcode in
    let low := Z.land opcode ByteMask in
    if low =? 0x009E then op_SKP x
    else if low =? 0x00A1 then op_SKNP x
    else mret tt
  else if class =? 0xF000 then
    let x := Xreg opcode in
    let low := Z.land opcode ByteMask in
    if low =? 0x0007 then op_LD_Vx_DT x
    else if low =? 0x000A then op_LD_Vx_K x
    else if low =? 0x0015 then op_LD_DT_Vx x
    else if low =? 0x0018 then op_LD_ST_Vx x
    else if low =? 0x001E then op_ADD_I x
    else if low =? 0x0029 then op_LD_F x
    else if low =? 0x0033 then op_LD_B x
    else if low =? 0x0055 then op_LD_mem_Vx x
    else if low =? 0x0065 then op_LD_Vx_mem x
    else mret tt
  else mret tt.

(** The opcode at the program counter, big-endian. *)
Definition fetch : M Z :=
  pc ← getPC;
  hi ← readMem pc;
  pc ← getPC;
  lo ← readMem (u16 (pc + 1));
  mret (Z.lor (u16 (Z.shiftl hi 8)) lo).

Definition EmulateCycle (rnd : Z) : M unit :=
  opcode ← fetch;
  skip ;;
  execute rnd opcode.

(** The state a method leaves, when it does not panic. *)
Definition run {A : Type} (m : M A) (c : Chip8) : option Chip8 :=
  snd <$> m c.

(** The opcode the next cycle will execute, when the fetch does not panic. *)
Definition opcode_at (c : Chip8) : option Z := fst <$> fetch c.

(** One display cell. *)
Definition pixel (c : Chip8) (y x : Z) : option bool :=
  row ← index (Display c) y; index row x.

(** ** Well-formed states

    The Go types fix the length of every array and the range of every
    integer field; lists and [Z] do not, so the types' content is stated. *)

Definition byte (z : Z) : bool := (0 <=? z) && (z <? 256).
Definition word (z : Z) : bool := (0 <=? z) && (z <? 65536).

Definition wf (c : Chip8) : bool :=
  (len (V c) =? RegisterCount) && forallb byte (V c)
  && word (I c) && word (PC c) && byte (SP c) && byte (DT c) && byte (ST c)
  && (len (Memory c) =? MemorySize) && forallb byte (Memory c)
  && (len (Stack c) =? StackSize) && forallb word (Stack c)
  && (len (Display c) =? DisplayHeight)
  && forallb (λ row, len row =? DisplayWidth) (Display c)
  && (len (Keys c) =? KeyCount).

Record WF (c : Chip8) : Prop := mkWF {
  WF_V : len (V c) = 16;
  WF_Vb : Forall (λ z, 0 ≤ z < 256) (V c);
  WF_I : 0 ≤ I c < 65536;
  WF_PC : 0 ≤ PC c < 65536;
  WF_SP : 0 ≤ SP c < 256;
  WF_DT : 0 ≤ DT c < 256;
  WF_ST : 0 ≤ ST c < 256;
  WF_Mem : len (Memory c) = 4096;
  WF_Memb : Forall (λ z, 0 ≤ z < 256) (Memory c);
  WF_Stack : len (Stack c) = 16;
  WF_Stackw : Forall (λ z, 0 ≤ z < 65536) (Stack c);
  WF_Disp : len (Display c) = 32;
  WF_Disprow : Forall (λ row, len row = 64) (Display c);
  WF_Keys : len (Keys c) = 16
}.

(** ** Machines to run

    A machine as [main] sets it up: [New], a ROM loaded, and some cycles
    executed (with [rand.Intn] answering 0). *)

Fixpoint cycles (n : nat) (c : Chip8) : option Chip8 :=
  match n with
  | O => Some c
  | S n' => c' ← run (EmulateCycle 0) c; cycles n' c'
  end.

Definition started (rom : list Z) (n : nat) : option Chip8 :=
  c ← run (LoadROMFromBytes rom) New; cycles n c.

(** [New] with a ROM in the program region: the closed form of what
    loading the ROM into a new machine gives (lemma [load_New]). *)
Definition machine (rom : list Z) : Chip8 :=
  with_Memory (take 512 (Memory New) ++ rom ++ drop (512 + length rom) (Memory New)) New.

(** ** The instruction patterns

    Every [case] of the [switch] in [EmulateCycle], as the pair
    [(mask, value)] of the test [opcode & mask == value] that selects it:
    the leading nibble alone, or with the low byte (classes 0, E and F) or
    the low nibble (class 8). *)

Definition patterns : list (Z * Z) :=
  [ (0xF0FF, 0x00E0); (0xF0FF, 0x00EE);
    (0xF000, 0x1000); (0xF000, 0x2000); (0xF000, 0x3000); (0xF000, 0x4000);
    (0xF000, 0x5000); (0xF000, 0x6000); (0xF000, 0x7000);
    (0xF00F, 0x8000); (0xF00F, 0x8001); (0xF00F, 0x8002); (0xF00F, 0x8003);
    (0xF00F, 0x8004); (0xF00F, 0x8005); (0xF00F, 0x8006); (0xF00F, 0x8007);
    (0xF00F, 0x800E);
    (0xF000, 0x9000); (0xF000, 0xA000); (0xF000, 0xB000); (0xF000, 0xC000);
    (0xF000, 0xD000);
    (0xF0FF, 0xE09E); (0xF0FF, 0xE0A1);
    (0xF0FF, 0xF007); (0xF0FF, 0xF00A); (0xF0FF, 0xF015); (0xF0FF, 0xF018);
    (0xF0FF, 0xF01E); (0xF0FF, 0xF029); (0xF0FF, 0xF033); (0xF0FF, 0xF055);
    (0xF0FF, 0xF065) ].

(** The opcode matches some instruction pattern. *)
Definition defined (opcode : Z) : bool :=
  existsb (λ p, Z.land opcode p.1 =? p.2) patterns.

(** ** Postconditions

    [ensures m c Q]: run from [c], the method [m] does not panic, and its
    result and final state satisfy [Q]. *)

Definition ensures {A : Type} (m : M A) (c : Chip8) (Q : A → Chip8 → Prop) : Prop :=
  ∃ a c', m c = Some (a, c') ∧ Q a c'.

(** ** What a draw instruction covers

    The sprite of DRW is [height] bytes of memory from the index register
    on, one byte a row, the leftmost pixel in the highest bit; it is laid
    on the display with its top-left corner at column [x0], row [y0]. *)

(** A display cell that is set. *)
Definition lit (c : Chip8) (y x : Z) : bool := default false (pixel c y x).

(** Pixel [col] (0 is leftmost) of row [row] of the sprite. *)
Definition sprite_bit (c : Chip8) (row col : Z) : bool :=
  default false (s ← index (Memory c) (u16 (I c + row)); Some (Z.testbit s (7 - col))).

(** The sprite has a set pixel over display cell (row [y], column [x]). *)
Definition sprite_at (c : Chip8) (x0 y0 height y x : Z) : bool :=
  (y0 <=? y) && (y <? y0 + height) && (x0 <=? x) && (x <? x0 + SpriteWidth)
  && sprite_bit c (y - y0) (x - x0).

(** Some set pixel of the sprite lies, inside the display, over a cell that
    is set. *)
Definition collision (c : Chip8) (x0 y0 height : Z) : bool :=
  existsb (λ y,
    existsb (λ x, sprite_at c x0 y0 height y x && lit c y x)
            (seqZ 0 DisplayWidth))
    (seqZ 0 DisplayHeight).

(** The sprite pixels the loops of DRW have visited when they are in row
    [row] of the sprite at column [col]: the rows above, and the columns
    to the left in this row. *)
Definition drawn (c : Chip8) (x0 y0 row col y x : Z) : bool :=
  sprite_at c x0 y0 row y x
  || (y =? y0 + row) && (x0 <=? x) && (x <? x0 + col) && sprite_bit c row (x - x0).

(** The invariant of the loops of DRW, [D] being the sprite pixels visited:
    only registers and display have changed since [c]; each cell is the
    cell of [c], flipped where [D] has a pixel; register 15 tells whether
    [D] has met a set cell of [c]. *)
Definition draw_inv (c : Chip8) (D : Z → Z → bool) (c0 : Chip8) : Prop :=
  WF c0 ∧
  c0 = with_V (V c0) (with_Display (Display c0) c) ∧
  (∀ y x, 0 ≤ y < 32 → 0 ≤ x < 64 → pixel c0 y x = Some (xorb (lit c y x) (D y x))) ∧
  ∃ fl : bool,
    V c0 = <[15%nat := if fl then 1 else 0]> (V c) ∧
    (fl ↔ ∃ y x, 0 ≤ y < 32 ∧ 0 ≤ x < 64 ∧ D y x ∧ lit c y x).

(** The sprite has a set pixel inside the display. *)
Definition visible (c : Chip8) (x0 y0 height : Z) : bool :=
  existsb (λ y,
    existsb (λ x, sprite_at c x0 y0 height y x) (seqZ 0 DisplayWidth))
    (seqZ 0 DisplayHeight).

(** ** Invariance

    [keeps m R]: from a well-formed state, the method [m] either panics or
    ends in a well-formed state with a result in [R]. *)

Definition keeps {A : Type} (m : M A) (R : A → Prop) : Prop :=
  ∀ c a c', WF c → m c = Some (a, c') → WF c' ∧ R a.

(** ** Reachable states

    What [main] and the renderer do with the machine: it is made by [New];
    ROMs are loaded into it (from a file, a dropped file or the browser),
    with or without success; every frame the renderer writes the keys,
    runs cycles and timer updates, and clears the draw flag when it has
    redrawn. *)

Inductive reachable : Chip8 → Prop :=
  | reach_New : reachable New
  | reach_LoadROM rom c r c' :
      reachable c → forallb byte rom →
      LoadROMFromBytes rom c = Some (r, c') → reachable c'
  | reach_key k b c :
      reachable c → 0 ≤ k < KeyCount →
      reachable (with_Keys (<[Z.to_nat k := b]> (Keys c)) c)
  | reach_redraw c :
      reachable c → reachable (with_DrawFlag false c)
  | reach_EmulateCycle rnd c c' :
      reachable c → 0 ≤ rnd < 256 →
      EmulateCycle rnd c = Some (tt, c') → reachable c'
  | reach_UpdateTimers c c' :
      reachable c → UpdateTimers c = Some (tt, c') → reachable c'.

(** ** Methods that cannot panic

    [total m R]: from every well-formed state, [m] does not panic and
    ends in a well-formed state with a result in [R]. *)

Definition total {A : Type} (m : M A) (R : A → Prop) : Prop :=
  ∀ c, WF c → ensures m c (λ a c', WF c' ∧ R a).

(** ** Indices in bounds

    The instructions whose array index is a stack pointer, a register value
    or the index register, each with what keeps that index inside its array:
    the stack slot of a return and of a call, the key of a key skip, the
    sprite rows a draw reads (those not clipped at the bottom edge), the
    three bytes of a BCD store, and the bytes of a register store or load.
    The remaining indices are opcode fields or loop counters. *)

Definition in_bounds (opcode : Z) (c : Chip8) : Prop :=
  (Z.land opcode 0xF0FF = 0x00EE → 1 ≤ SP c ≤ 16) ∧
  (Z.land opcode 0xF000 = 0x2000 → SP c ≤ 15) ∧
  (Z.land opcode 0xF0FF = 0xE09E ∨ Z.land opcode 0xF0FF = 0xE0A1 →
   ∀ vx, index (V c) (Xreg opcode) = Some vx → vx ≤ 15) ∧
  (Z.land opcode 0xF000 = 0xD000 →
   ∀ vy row, index (V c) (Yreg opcode) = Some vy →
             0 ≤ row < Z.land opcode NibbleMask → vy mod 32 + row < 32 →
             u16 (I c + row) < 4096) ∧
  (Z.land opcode 0xF0FF = 0xF033 → ∀ i, 0 ≤ i ≤ 2 → u16 (I c + i) < 4096) ∧
  (Z.land opcode 0xF0FF = 0xF055 ∨ Z.land opcode 0xF0FF = 0xF065 →
   ∀ i, 0 ≤ i ≤ Xreg opcode → u16 (I c + i) < 4096).

(** ** What a method leaves alone

    [unchanged f m]: when the method [m] does not panic, the part [f] of
    the machine is after it what it was before. *)

Definition unchanged {A B : Type} (f : Chip8 → B) (m : M A) : Prop :=
  ∀ c a c', m c = Some (a, c') → f c' = f c.

(** * The renderer: a shallow embedding of package [renderer]

    The game loop of the ebiten library calls [Update] and [Draw] once a
    frame.  What the library answers is an argument of the method that
    asks: the dropped file, the keys that are down and the random numbers
    of a frame are an [Input], the order in which Go iterates over the key
    map is a list of its entries, and the screen is the image its [Set]
    calls build.  A method run on a [Game] gives [None] for a run-time
    panic, as the methods of the machine do. *)

Module renderer.

Definition Scale : Z := 10.
Definition CyclesPerUpdate : Z := 10.

Definition ColourR : Z := 0.
Definition ColourG : Z := 1.
Definition ColourB : Z := 2.
Definition ColourA : Z := 3.

Definition ColourOn : Z := 0xFF.
Definition ColourOff : Z := 0x00.

Definition BytesPerPixel : Z := 4.

(** The keys of [ebiten.Key] the package names. *)
Inductive Key : Type :=
  | Key1 | Key2 | Key3 | Key4
  | KeyQ | KeyW | KeyE | KeyR
  | KeyA | KeyS | KeyD | KeyF
  | KeyZ | KeyX | KeyC | KeyV
  | KeyEscape.

Record Game : Type := mkGame {
  Chip8 : Chip8;              (* *chip8.Chip8 *)
  PixelBuffer : list Z;       (* []byte *)
  KeyMap : list (Key * Z)     (* map[ebiten.Key]uint8, its entries *)
}.

Definition with_Chip8 c (g : Game) : Game :=
  mkGame c (PixelBuffer g) (KeyMap g).
Definition with_PixelBuffer (b : list Z) (g : Game) : Game :=
  mkGame (Chip8 g) b (KeyMap g).

Definition New c : Game :=
  {| Chip8 := c;
     PixelBuffer :=
       replicate (Z.to_nat (DisplayWidth * DisplayHeight * BytesPerPixel)) 0;
     KeyMap :=
       [ (Key1, 0x1); (Key2, 0x2); (Key3, 0x3); (Key4, 0xC);
         (KeyQ, 0x4); (KeyW, 0x5); (KeyE, 0x6); (KeyR, 0xD);
         (KeyA, 0x7); (KeyS, 0x8); (KeyD, 0x9); (KeyF, 0xE);
         (KeyZ, 0xA); (KeyX, 0x0); (KeyC, 0xB); (KeyV, 0xF) ] |}.

(** [for i := lo; i < hi; i++ { body }], on a state of any type. *)
Fixpoint iterate {S : Type} (n : nat) (i : Z) (body : Z → S → option S) (s : S)
    : option S :=
  match n with
  | O => Some s
  | Datatypes.S n' => s' ← body i s; iterate n' (i + 1) body s'
  end.

Definition for_upto {S : Type} (lo hi : Z) (body : Z → S → option S) (s : S)
    : option S :=
  iterate (Z.to_nat (hi - lo)) lo body s.

(** [for key, value := range entries { body }], in the order given. *)
Fixpoint for_entries {S : Type} (entries : list (Key * Z))
    (body : Key → Z → S → option S) (s : S) : option S :=
  match entries with
  | [] => Some s
  | (key, value) :: rest => s' ← body key value s; for_entries rest body s'
  end.

(** ** What a frame gets from outside *)

Record Input : Type := mkInput {
  (* the file [checkForDroppedFiles] finds and reads, if there is one *)
  DroppedFile : option (list Z);
  (* [ebiten.IsKeyPressed] *)
  IsKeyPressed : Key → bool;
  (* [inpututil.IsKeyJustPressed] *)
  IsKeyJustPressed : Key → bool;
  (* what [rand.Intn(256)] answers in cycle [i] of the frame *)
  Intn : Z → Z
}.

(** The error value of [Update]; its text is [game ended by player]. *)
Inductive error : Type :=
  | ErrGameEnded.

(** ** [checkForDroppedFiles] *)

(** The answer of [LoadROMFromBytes] is logged and dropped. *)
Definition checkForDroppedFiles (e : Input) (g : Game) : option Game :=
  match DroppedFile e with
  | None => Some g
  | Some file =>
      r ← LoadROMFromBytes file (Chip8 g);
      Some (with_Chip8 r.2 g)
  end.

(** ** [Update] *)

Definition Update (order : list (Key * Z)) (e : Input) (g : Game)
    : option (option error * Game) :=
  g ← checkForDroppedFiles e g;
  g ← for_entries order (λ key value g,
         keys ← (if IsKeyPressed e key
                 then assign (Keys (Chip8 g)) value true
                 else assign (Keys (Chip8 g)) value false);
         Some (with_Chip8 (with_Keys keys (Chip8 g)) g)) g;
  if IsKeyJustPressed e KeyEscape then Some (Some ErrGameEnded, g)
  else
    g ← for_upto 0 CyclesPerUpdate (λ i g,
           c ← run (EmulateCycle (Intn e i)) (Chip8 g);
           c ← run UpdateTimers c;
           Some (with_Chip8 c g)) g;
    Some (None, g).

(** ** [updatePixelBuffer] *)

Definition updatePixelBuffer (g : Game) : option Game :=
  for_upto 0 DisplayHeight (λ y,
    for_upto 0 DisplayWidth (λ x g,
      let pixelPos := (y * DisplayWidth + x) * BytesPerPixel in
      cell ← pixel (Chip8 g) y x;
      let colourVal := if cell : bool then ColourOn else ColourOff in
      let colour := u8 colourVal in
      b ← assign (PixelBuffer g) (pixelPos + ColourR) colour;
      b ← assign b (pixelPos + ColourG) colour;
      b ← assign b (pixelPos + ColourB) colour;
      b ← assign b (pixelPos + ColourA) 0xFF;
      Some (with_PixelBuffer b g))) g.

(** ** [Draw] *)

(** [color.RGBA{R, G, B, A}] *)
Definition RGBA : Type := Z * Z * Z * Z.

(** The pixels of an [*ebiten.Image], by column and row. *)
Definition Image : Type := Z → Z → RGBA.

(** [screen.Set(x, y, colour)] *)
Definition Image_Set (x y : Z) (colour : RGBA) (screen : Image) : Image :=
  λ x' y', if decide (x' = x ∧ y' = y) then colour else screen x' y'.

Definition Draw (screen : Image) (g : Game) : option (Image * Game) :=
  g ← (if DrawFlag (Chip8 g) then
         g ← updatePixelBuffer g;
         Some (with_Chip8 (with_DrawFlag false (Chip8 g)) g)
       else Some g);
  screen ← for_upto 0 DisplayHeight (λ y,
    for_upto 0 DisplayWidth (λ x screen,
      let pixelPos := (y * DisplayWidth + x) * BytesPerPixel in
      r ← index (PixelBuffer g) (pixelPos + ColourR);
      green ← index (PixelBuffer g) (pixelPos + ColourG);
      b ← index (PixelBuffer g) (pixelPos + ColourB);
      a ← index (PixelBuffer g) (pixelPos + ColourA);
      let screen :=
        Image_Set (x * Scale + Scale / 2) (y * Scale + Scale / 2)
                  (r, green, b, a) screen in
      for_upto 0 Scale (λ dy,
        for_upto 0 Scale (λ dx screen,
          Some (Image_Set (x * Scale + dx) (y * Scale + dy)
                          (r, green, b, a) screen))) screen)) screen;
  Some (screen, g).

(** ** [Layout] *)

Definition Layout (outsideWidth outsideHeight : Z) : Z * Z :=
  (DisplayWidth * Scale, DisplayHeight * Scale).

(** ** The pixel buffer and the display

    The four bytes of a display cell in the pixel buffer, as
    [updatePixelBuffer] writes them: white where the cell is set, black
    where it is not, opaque. *)

Definition cell_colour (on : bool) : RGBA :=
  if on then (ColourOn, ColourOn, ColourOn, 0xFF)
  else (ColourOff, ColourOff, ColourOff, 0xFF).

Definition buffer_cell (g : Game) (y x : Z) : option RGBA :=
  let pixelPos := (y * DisplayWidth + x) * BytesPerPixel in
  r ← index (PixelBuffer g) (pixelPos + ColourR);
  green ← index (PixelBuffer g) (pixelPos + ColourG);
  b ← index (PixelBuffer g) (pixelPos + ColourB);
  a ← index (PixelBuffer g) (pixelPos + ColourA);
  Some (r, green, b, a).

(** The pixel buffer holds the display. *)
Definition renders (g : Game) : Prop :=
  ∀ y x, 0 ≤ y < DisplayHeight → 0 ≤ x < DisplayWidth →
         buffer_cell g y x = Some (cell_colour (lit (Chip8 g) y x)).

(** The pixel buffer holds the display, or the draw flag asks for it to
    be filled again. *)
Definition fresh (g : Game) : Prop :=
  DrawFlag (Chip8 g) = true ∨ renders g.

(** The invariant of the loops of [updatePixelBuffer]: the machine and
    the key map are those of [g], and the cells before cell number [n],
    counted row by row, hold the display. *)
Definition painted (g : Game) (n : Z) (g0 : Game) : Prop :=
  Chip8 g0 = Chip8 g ∧ KeyMap g0 = KeyMap g ∧
  len (PixelBuffer g0) = 8192 ∧
  ∀ y x, 0 ≤ y < DisplayHeight → 0 ≤ x < DisplayWidth →
         y * DisplayWidth + x < n →
         buffer_cell g0 y x = Some (cell_colour (lit (Chip8 g) y x)).

(** The screen, after the block of every cell before cell number [n] has
    been filled: each of its pixels is given by the cell it falls in. *)
Definition filled (g : Game) (screen : Image) (n : Z) (screen' : Image) : Prop :=
  ∀ px py,
    screen' px py =
      if decide (0 ≤ px < DisplayWidth * Scale ∧ 0 ≤ py < DisplayHeight * Scale
                 ∧ py / Scale * DisplayWidth + px / Scale < n)
      then default (0, 0, 0, 0) (buffer_cell g (py / Scale) (px / Scale))
      else screen px py.

(** What the stages of [Update] keep, from the game [g] they start with:
    the pixel buffer and the key map, the freshness of the buffer, and
    the well-formedness of the machine when the dropped file is bytes. *)
Definition frame_inv (e : Input) (g g0 : Game) : Prop :=
  PixelBuffer g0 = PixelBuffer g ∧
  KeyMap g0 = KeyMap g ∧
  (fresh g → fresh g0) ∧
  (WF (Chip8 g) →
   (∀ file, DroppedFile e = Some file → forallb byte file) →
   WF (Chip8 g0)).

End renderer.

(** * Properties *)

(** ** Basic facts: integers and arrays *)

Lemma byte_spec z : byte z ↔ 0 ≤ z < 256.
Proof. unfold byte. rewrite andb_True, !Is_true_true, Z.leb_le, Z.ltb_lt. done. Qed.

Lemma word_spec z : word z ↔ 0 ≤ z < 65536.
Proof. unfold word. rewrite andb_True, !Is_true_true, Z.leb_le, Z.ltb_lt. done. Qed.

Lemma eqb_True (a b : Z) : (a =? b) ↔ a = b.
Proof. rewrite Is_true_true. apply Z.eqb_eq. Qed.

Lemma wf_WF c : wf c ↔ WF c.
Proof.
  unfold wf. rewrite !andb_True, !forallb_True, !eqb_True, !word_spec, !byte_spec.
  split.
  - intros [[[[[[[[[[[[[? ?] ?] ?] ?] ?] ?] ?] ?] ?] ?] ?] ?] ?].
    constructor; try done.
    + eapply Forall_impl; [eassumption|]. intros z. apply byte_spec.
    + eapply Forall_impl; [eassumption|]. intros z. apply byte_spec.
    + eapply Forall_impl; [eassumption|]. intros z. apply word_spec.
    + eapply Forall_impl; [eassumption|]. intros z. apply eqb_True.
  - intros [].
    split_and!; try (done || lia).
    + eapply Forall_impl; [eassumption|]. intros z. apply byte_spec.
    + eapply Forall_impl; [eassumption|]. intros z. apply byte_spec.
    + eapply Forall_impl; [eassumption|]. intros z. apply word_spec.
    + eapply Forall_impl; [eassumption|]. intros z. apply eqb_True.
Qed.

Lemma u8_range z : 0 ≤ u8 z < 256.
Proof. unfold u8. apply Z.mod_pos_bound. lia. Qed.

Lemma u16_range z : 0 ≤ u16 z < 65536.
Proof. unfold u16. apply Z.mod_pos_bound. lia. Qed.

Lemma u8_small z : 0 ≤ z < 256 → u8 z = z.
Proof. unfold u8. apply Z.mod_small. Qed.

Lemma u16_small z : 0 ≤ z < 65536 → u16 z = z.
Proof. unfold u16. apply Z.mod_small. Qed.

Section arrays.
Context {A : Type}.
Implicit Types (a : list A) (i j : Z) (v : A).

Lemma index_Some a i v : index a i = Some v → 0 ≤ i < len a.
Proof.
  unfold index, len. destruct (Z.leb_spec 0 i); [|done].
  intros H1%lookup_lt_Some. lia.
Qed.

Lemma index_is_Some a i : 0 ≤ i < len a → is_Some (index a i).
Proof.
  unfold index, len. intros [H0 H1].
  destruct (Z.leb_spec 0 i); [|lia].
  apply lookup_lt_is_Some. lia.
Qed.

Lemma index_None a i : ¬ (0 ≤ i < len a) → index a i = None.
Proof.
  intros Hi. destruct (index a i) eqn:E; [|done].
  apply index_Some in E. done.
Qed.

Lemma assign_Some a i v :
  0 ≤ i < len a → assign a i v = Some (<[Z.to_nat i := v]> a).
Proof.
  unfold assign, len. intros [H0 H1].
  destruct (Z.leb_spec 0 i); [|lia].
  destruct (Z.ltb_spec i (Z.of_nat (length a))); [done|lia].
Qed.

Lemma assign_None a i v : ¬ (0 ≤ i < len a) → assign a i v = None.
Proof.
  unfold assign, len. intros Hi.
  destruct (Z.leb_spec 0 i); [|done].
  destruct (Z.ltb_spec i (Z.of_nat (length a))); [lia|done].
Qed.

Lemma len_nonneg a : 0 ≤ len a.
Proof. unfold len. lia. Qed.

Lemma len_insert a (n : nat) v : len (<[n := v]> a) = len a.
Proof. unfold len. by rewrite length_insert. Qed.

Lemma index_insert_eq a i v :
  0 ≤ i < len a → index (<[Z.to_nat i := v]> a) i = Some v.
Proof.
  unfold index, len. intros [H0 H1].
  destruct (Z.leb_spec 0 i); [|lia].
  apply list_lookup_insert_eq. lia.
Qed.

Lemma index_insert_ne a i j v :
  0 ≤ i → i ≠ j → index (<[Z.to_nat i := v]> a) j = index a j.
Proof.
  unfold index. intros H0 Hne.
  destruct (Z.leb_spec 0 j); [|done].
  apply list_lookup_insert_ne. lia.
Qed.

Lemma index_Forall (P : A → Prop) a i v :
  Forall P a → index a i = Some v → P v.
Proof.
  unfold index. destruct (Z.leb_spec 0 i); [|done].
  intros HP Hl. by eapply Forall_lookup_1.
Qed.

Lemma index_replicate (n : nat) v i :
  0 ≤ i < Z.of_nat n → index (replicate n v) i = Some v.
Proof.
  unfold index. intros [H0 H1].
  destruct (Z.leb_spec 0 i); [|lia].
  apply lookup_replicate_2. lia.
Qed.
End arrays.

(** ** Basic facts: operand fields of an opcode *)

Lemma Xreg_range opcode : 0 ≤ Xreg opcode < 16.
Proof.
  unfold Xreg. rewrite Z.shiftr_land.
  change (Z.shiftr XRegisterMask XRegisterShift) with (Z.ones 4).
  rewrite Z.land_ones by lia. apply Z.mod_pos_bound. lia.
Qed.

Lemma Yreg_range opcode : 0 ≤ Yreg opcode < 16.
Proof.
  unfold Yreg. rewrite Z.shiftr_land.
  change (Z.shiftr YRegisterMask YRegisterShift) with (Z.ones 4).
  rewrite Z.land_ones by lia. apply Z.mod_pos_bound. lia.
Qed.

Lemma nibble_range opcode : 0 ≤ Z.land opcode NibbleMask < 16.
Proof.
  change NibbleMask with (Z.ones 4).
  rewrite Z.land_ones by lia. apply Z.mod_pos_bound. lia.
Qed.

Lemma low_byte_range opcode : 0 ≤ Z.land opcode ByteMask < 256.
Proof.
  change ByteMask with (Z.ones 8).
  rewrite Z.land_ones by lia. apply Z.mod_pos_bound. lia.
Qed.

Lemma address_range opcode : 0 ≤ Z.land opcode AddressMask < 4096.
Proof.
  change AddressMask with (Z.ones 12).
  rewrite Z.land_ones by lia. apply Z.mod_pos_bound. lia.
Qed.

(** A pattern [opcode & mask == value] fixes every coarser mask. *)
Lemma land_submask opcode mask value sub :
  Z.land opcode mask = value → Z.land mask sub = sub →
  Z.land opcode sub = Z.land value sub.
Proof. intros <- Hsub. by rewrite <- Z.land_assoc, Hsub. Qed.

(** ** Basic facts: running a method *)

Section monad.
Context {A B : Type}.

Lemma bind_Some (m : M A) (k : A → M B) c a c1 :
  m c = Some (a, c1) → (m ≫= k) c = k a c1.
Proof. unfold mbind, M_bind. by intros ->. Qed.

Lemma bind_None (m : M A) (k : A → M B) c :
  m c = None → (m ≫= k) c = None.
Proof. unfold mbind, M_bind. by intros ->. Qed.

Lemma bind_inv (m : M A) (k : A → M B) c r :
  (m ≫= k) c = Some r → ∃ a c1, m c = Some (a, c1) ∧ k a c1 = Some r.
Proof.
  unfold mbind, M_bind. destruct (m c) as [[a c1]|]; [|done]. eauto.
Qed.
End monad.

Lemma readV_Some c x v : index (V c) x = Some v → readV x c = Some (v, c).
Proof. unfold readV, get. by intros ->. Qed.

Lemma writeV_Some c x v :
  0 ≤ x < len (V c) →
  writeV x v c = Some (tt, with_V (<[Z.to_nat x := v]> (V c)) c).
Proof. intros Hx. unfold writeV, put. by rewrite assign_Some. Qed.

Lemma readMem_Some c a v : index (Memory c) a = Some v → readMem a c = Some (v, c).
Proof. unfold readMem, get. by intros ->. Qed.

Lemma writeMem_Some c a v :
  0 ≤ a < len (Memory c) →
  writeMem a v c = Some (tt, with_Memory (<[Z.to_nat a := v]> (Memory c)) c).
Proof. intros Ha. unfold writeMem, put. by rewrite assign_Some. Qed.

Lemma readStack_Some c i v : index (Stack c) i = Some v → readStack i c = Some (v, c).
Proof. unfold readStack, get. by intros ->. Qed.

Lemma writeStack_Some c i v :
  0 ≤ i < len (Stack c) →
  writeStack i v c = Some (tt, with_Stack (<[Z.to_nat i := v]> (Stack c)) c).
Proof. intros Hi. unfold writeStack, put. by rewrite assign_Some. Qed.

Lemma readKey_Some c i k : index (Keys c) i = Some k → readKey i c = Some (k, c).
Proof. unfold readKey, get. by intros ->. Qed.

Lemma readPixel_Some c y x p : pixel c y x = Some p → readPixel y x c = Some (p, c).
Proof. unfold readPixel, pixel, get. by intros ->. Qed.

(** ** Basic facts: the fetch *)

Lemma fetch_inv c r :
  fetch c = Some r →
  ∃ hi lo, index (Memory c) (PC c) = Some hi ∧
           index (Memory c) (u16 (PC c + 1)) = Some lo ∧
           r = (Z.lor (u16 (Z.shiftl hi 8)) lo, c).
Proof.
  unfold fetch, getPC, readMem, get, mbind, M_bind, mret, M_ret.
  destruct (index (Memory c) (PC c)) as [hi|]; [|done].
  destruct (index (Memory c) (u16 (PC c + 1))) as [lo|]; [|done].
  intros [= <-]. eauto.
Qed.

Lemma fetch_Some c hi lo :
  index (Memory c) (PC c) = Some hi →
  index (Memory c) (u16 (PC c + 1)) = Some lo →
  fetch c = Some (Z.lor (u16 (Z.shiftl hi 8)) lo, c).
Proof.
  intros Hhi Hlo.
  unfold fetch, getPC, readMem, get, mbind, M_bind, mret, M_ret.
  by rewrite Hhi, Hlo.
Qed.

Lemma opcode_at_fetch c opcode :
  opcode_at c = Some opcode → fetch c = Some (opcode, c).
Proof.
  unfold opcode_at. destruct (fetch c) as [r|] eqn:E; [|done].
  destruct (fetch_inv _ _ E) as (hi & lo & _ & _ & ->). by intros [= <-].
Qed.

(** A fetch that does not panic found the program counter at most at 4094. *)
Lemma opcode_at_PC c opcode :
  WF c → opcode_at c = Some opcode → 0 ≤ PC c ≤ 4094.
Proof.
  intros HWF H%opcode_at_fetch.
  destruct (fetch_inv _ _ H) as (hi & lo & Hhi%index_Some & Hlo%index_Some & _).
  rewrite (WF_Mem _ HWF) in *.
  destruct (Z.eq_dec (PC c) 4095) as [E|]; [|lia].
  rewrite E in Hlo. change (u16 (4095 + 1)) with 4096 in Hlo. lia.
Qed.

(** A cycle is the fetched instruction run after the program counter moved. *)
Lemma EmulateCycle_execute rnd c opcode :
  WF c → opcode_at c = Some opcode →
  EmulateCycle rnd c = execute rnd opcode (with_PC (PC c + 2) c).
Proof.
  intros HWF H. pose proof (opcode_at_PC _ _ HWF H) as HPC.
  apply opcode_at_fetch in H.
  unfold EmulateCycle. rewrite (bind_Some _ _ _ _ _ H).
  unfold skip, getPC, setPC, InstructionSize, mbind at 1 2, M_bind.
  by rewrite u16_small by lia.
Qed.


Lemma V_byte c x v : WF c → index (V c) x = Some v → 0 ≤ v < 256.
Proof. intros HWF. apply (index_Forall _ _ _ _ (WF_Vb _ HWF)). Qed.

Lemma Memory_byte c a v : WF c → index (Memory c) a = Some v → 0 ≤ v < 256.
Proof. intros HWF. apply (index_Forall _ _ _ _ (WF_Memb _ HWF)). Qed.

Lemma Stack_word c i v : WF c → index (Stack c) i = Some v → 0 ≤ v < 65536.
Proof. intros HWF. apply (index_Forall _ _ _ _ (WF_Stackw _ HWF)). Qed.

(** ** Well-formedness is kept by every update within the types *)

Lemma WF_with_PC c pc : WF c → 0 ≤ pc < 65536 → WF (with_PC pc c).
Proof. intros []. by constructor. Qed.

Lemma WF_with_I c i : WF c → 0 ≤ i < 65536 → WF (with_I i c).
Proof. intros []. by constructor. Qed.

Lemma WF_with_SP c sp : WF c → 0 ≤ sp < 256 → WF (with_SP sp c).
Proof. intros []. by constructor. Qed.

Lemma WF_with_DT c dt : WF c → 0 ≤ dt < 256 → WF (with_DT dt c).
Proof. intros []. by constructor. Qed.

Lemma WF_with_ST c st : WF c → 0 ≤ st < 256 → WF (with_ST st c).
Proof. intros []. by constructor. Qed.

Lemma WF_with_DrawFlag c f : WF c → WF (with_DrawFlag f c).
Proof. intros []. by constructor. Qed.

Lemma WF_with_V c (n : nat) v :
  WF c → 0 ≤ v < 256 → WF (with_V (<[n := v]> (V c)) c).
Proof.
  intros [] Hv. constructor; simpl; try done.
  - by rewrite len_insert.
  - by apply Forall_insert.
Qed.

Lemma WF_with_Memory c (n : nat) v :
  WF c → 0 ≤ v < 256 → WF (with_Memory (<[n := v]> (Memory c)) c).
Proof.
  intros [] Hv. constructor; simpl; try done.
  - by rewrite len_insert.
  - by apply Forall_insert.
Qed.

Lemma WF_with_Stack c (n : nat) v :
  WF c → 0 ≤ v < 65536 → WF (with_Stack (<[n := v]> (Stack c)) c).
Proof.
  intros [] Hv. constructor; simpl; try done.
  - by rewrite len_insert.
  - by apply Forall_insert.
Qed.

Lemma WF_with_Keys c (n : nat) k :
  WF c → WF (with_Keys (<[n := k]> (Keys c)) c).
Proof.
  intros []. constructor; simpl; try done. by rewrite len_insert.
Qed.

Lemma WF_with_Display c (n m : nat) row b :
  WF c → len row = 64 →
  WF (with_Display (<[n := <[m := b]> row]> (Display c)) c).
Proof.
  intros [] Hrow. constructor; simpl; try done.
  - by rewrite len_insert.
  - apply Forall_insert; [done|]. by rewrite len_insert.
Qed.

Ltac solve_WF :=
  repeat first
    [ assumption | lia
    | apply WF_with_DrawFlag | apply WF_with_ST | apply WF_with_DT
    | apply WF_with_SP | apply WF_with_I | apply WF_with_PC
    | apply WF_with_V | apply WF_with_Memory | apply WF_with_Stack ].

(** ** Rules for postconditions *)

Lemma ensures_ret {A} (a : A) c (Q : A → Chip8 → Prop) :
  Q a c → ensures (mret a) c Q.
Proof. intros HQ. by exists a, c. Qed.

Lemma ensures_bind {A B} (m : M A) (k : A → M B) c (Q : B → Chip8 → Prop) :
  ensures m c (λ a c1, ensures (k a) c1 Q) → ensures (m ≫= k) c Q.
Proof.
  intros (a & c1 & Hm & b & c2 & Hk & HQ). exists b, c2.
  by rewrite (bind_Some _ _ _ _ _ Hm).
Qed.

Lemma ensures_mono {A} (m : M A) c (Q Q' : A → Chip8 → Prop) :
  ensures m c Q → (∀ a c', Q a c' → Q' a c') → ensures m c Q'.
Proof. intros (a & c' & Hm & HQ) Himp. exists a, c'. eauto. Qed.

Lemma ensures_eq {A} (m : M A) c a c' (Q : A → Chip8 → Prop) :
  m c = Some (a, c') → Q a c' → ensures m c Q.
Proof. intros Hm HQ. by exists a, c'. Qed.

Lemma ensures_readV x c v (Q : Z → Chip8 → Prop) :
  index (V c) x = Some v → Q v c → ensures (readV x) c Q.
Proof. intros Hx. apply ensures_eq. by apply readV_Some. Qed.

Lemma ensures_writeV x v c (Q : unit → Chip8 → Prop) :
  0 ≤ x < len (V c) →
  Q tt (with_V (<[Z.to_nat x := v]> (V c)) c) → ensures (writeV x v) c Q.
Proof. intros Hx. apply ensures_eq. by apply writeV_Some. Qed.

Lemma ensures_readMem a c v (Q : Z → Chip8 → Prop) :
  index (Memory c) a = Some v → Q v c → ensures (readMem a) c Q.
Proof. intros Ha. apply ensures_eq. by apply readMem_Some. Qed.

Lemma ensures_writeMem a v c (Q : unit → Chip8 → Prop) :
  0 ≤ a < len (Memory c) →
  Q tt (with_Memory (<[Z.to_nat a := v]> (Memory c)) c) → ensures (writeMem a v) c Q.
Proof. intros Ha. apply ensures_eq. by apply writeMem_Some. Qed.

Lemma ensures_readStack i c v (Q : Z → Chip8 → Prop) :
  index (Stack c) i = Some v → Q v c → ensures (readStack i) c Q.
Proof. intros Hi. apply ensures_eq. by apply readStack_Some. Qed.

Lemma ensures_writeStack i v c (Q : unit → Chip8 → Prop) :
  0 ≤ i < len (Stack c) →
  Q tt (with_Stack (<[Z.to_nat i := v]> (Stack c)) c) → ensures (writeStack i v) c Q.
Proof. intros Hi. apply ensures_eq. by apply writeStack_Some. Qed.

Lemma ensures_readKey i c k (Q : bool → Chip8 → Prop) :
  index (Keys c) i = Some k → Q k c → ensures (readKey i) c Q.
Proof. intros Hi. apply ensures_eq. by apply readKey_Some. Qed.

Lemma ensures_readPixel y x c p (Q : bool → Chip8 → Prop) :
  pixel c y x = Some p → Q p c → ensures (readPixel y x) c Q.
Proof. intros Hp. apply ensures_eq. by apply readPixel_Some. Qed.

Lemma ensures_writePixel y x b c row (Q : unit → Chip8 → Prop) :
  index (Display c) y = Some row → 0 ≤ x < len row →
  Q tt (with_Display (<[Z.to_nat y := <[Z.to_nat x := b]> row]> (Display c)) c) →
  ensures (writePixel y x b) c Q.
Proof.
  intros Hrow Hx. apply ensures_eq.
  unfold writePixel, put. rewrite Hrow. simpl.
  rewrite assign_Some by done. simpl.
  by rewrite assign_Some by (by eapply index_Some).
Qed.

(** A loop: [P j] holds before iteration [j], [Q] after a [break] and after
    the last iteration. *)
Lemma ensures_loop (P : Z → Chip8 → Prop) (Q : Chip8 → Prop) n i body c :
  P i c →
  (∀ j c0, i ≤ j < i + Z.of_nat n → P j c0 →
           ensures (body j) c0 (λ b c1, if b : bool then P (j + 1) c1 else Q c1)) →
  (∀ c0, P (i + Z.of_nat n) c0 → Q c0) →
  ensures (loop n i body) c (λ _, Q).
Proof.
  revert i c. induction n as [|n IH]; intros i c HP Hbody Hend.
  - apply ensures_ret. apply Hend. by replace (i + Z.of_nat 0) with i by lia.
  - simpl. apply ensures_bind.
    eapply ensures_mono; [apply Hbody; [lia|done]|].
    intros [] c1 H1; simpl in H1.
    + apply IH; [done| |].
      * intros j c0 Hj. apply Hbody. lia.
      * intros c0. replace (i + 1 + Z.of_nat n) with (i + Z.of_nat (S n)) by lia.
        apply Hend.
    + by apply ensures_ret.
Qed.

Lemma ensures_for_range (P : Z → Chip8 → Prop) (Q : Chip8 → Prop) lo hi body c :
  lo ≤ hi → P lo c →
  (∀ j c0, lo ≤ j < hi → P j c0 →
           ensures (body j) c0 (λ b c1, if b : bool then P (j + 1) c1 else Q c1)) →
  (∀ c0, P hi c0 → Q c0) →
  ensures (for_range lo hi body) c (λ _, Q).
Proof.
  intros Hle HP Hbody Hend. unfold for_range.
  apply (ensures_loop P Q); [done| |].
  - intros j c0 Hj. apply Hbody. lia.
  - intros c0. replace (lo + Z.of_nat (Z.to_nat (hi - lo))) with hi by lia. apply Hend.
Qed.

Lemma ensures_next c (Q : bool → Chip8 → Prop) : Q true c → ensures next c Q.
Proof. apply ensures_ret. Qed.

Lemma ensures_break c (Q : bool → Chip8 → Prop) : Q false c → ensures break c Q.
Proof. apply ensures_ret. Qed.

(** ** Display cells *)

Lemma Display_row c y :
  WF c → 0 ≤ y < 32 → ∃ row, index (Display c) y = Some row ∧ len row = 64.
Proof.
  intros HWF Hy.
  destruct (index_is_Some (Display c) y) as [row Hrow].
  { by rewrite (WF_Disp _ HWF). }
  exists row. split; [done|].
  by apply (index_Forall _ _ _ _ (WF_Disprow _ HWF) Hrow).
Qed.

Lemma pixel_is_Some c y x :
  WF c → 0 ≤ y < 32 → 0 ≤ x < 64 → is_Some (pixel c y x).
Proof.
  intros HWF Hy Hx. destruct (Display_row c y HWF Hy) as (row & Hrow & Hlen).
  unfold pixel. rewrite Hrow. simpl. apply index_is_Some. lia.
Qed.

(** The display after [Display[y][x] = b]. *)
Lemma pixel_insert c y x b row y' x' :
  index (Display c) y = Some row → 0 ≤ x < len row →
  pixel (with_Display (<[Z.to_nat y := <[Z.to_nat x := b]> row]> (Display c)) c) y' x'
  = if decide (y' = y ∧ x' = x) then Some b else pixel c y' x'.
Proof.
  intros Hrow Hx. pose proof (index_Some _ _ _ Hrow) as Hy.
  unfold pixel. simpl. destruct (Z.eq_dec y' y) as [->|Hne].
  - rewrite index_insert_eq by done. simpl. rewrite Hrow. simpl.
    destruct (Z.eq_dec x' x) as [->|Hnex].
    + rewrite decide_True by done. by apply index_insert_eq.
    + rewrite decide_False by (intros [? ?]; done). apply index_insert_ne; lia.
  - rewrite decide_False by (intros [? ?]; done). rewrite index_insert_ne by lia. done.
Qed.

(** ** Record facts *)

Lemma with_Memory_id c : c = with_Memory (Memory c) c.
Proof. by destruct c. Qed.

Lemma with_Display_id c : c = with_Display (Display c) c.
Proof. by destruct c. Qed.

Lemma with_V_id c : c = with_V (V c) c.
Proof. by destruct c. Qed.

(** ** The loops of [LoadROMFromBytes] and of CLS *)

Lemma clear_memory_spec c :
  WF c →
  ensures (for_range FontEndAddr MemorySize (λ i, writeMem i 0 ;; next)) c
    (λ _ c', WF c' ∧ c' = with_Memory (Memory c') c ∧
             (∀ a, 0 ≤ a < 80 → index (Memory c') a = index (Memory c) a) ∧
             (∀ a, 80 ≤ a < 4096 → index (Memory c') a = Some 0)).
Proof.
  intros HWF.
  apply (ensures_for_range
           (λ j c0, WF c0 ∧ c0 = with_Memory (Memory c0) c ∧
                    (∀ a, 0 ≤ a < 80 → index (Memory c0) a = index (Memory c) a) ∧
                    (∀ a, 80 ≤ a < j → index (Memory c0) a = Some 0))).
  - done.
  - split_and!; [done|apply with_Memory_id|done|]. unfold FontEndAddr. lia.
  - intros j c0 Hj (HWF0 & Heq & Hfont & Hzero).
    unfold FontEndAddr, MemorySize in Hj.
    pose proof (WF_Mem _ HWF0) as Hlen.
    apply ensures_bind, ensures_writeMem; [lia|]. apply ensures_next.
    split_and!.
    + by apply WF_with_Memory.
    + simpl. by rewrite Heq.
    + intros a Ha. simpl. rewrite index_insert_ne by lia. by apply Hfont.
    + intros a Ha. simpl. destruct (Z.eq_dec a j) as [->|Hne].
      * apply index_insert_eq. lia.
      * rewrite index_insert_ne by lia. apply Hzero. lia.
  - intros c0 (? & ? & ? & ?). done.
Qed.

Lemma copy_rom_spec rom c :
  WF c → Forall (λ z, 0 ≤ z < 256) rom → len rom ≤ 3584 →
  ensures (for_range 0 (len rom) (λ i,
             b ← lift (index rom i);
             writeMem (ProgramStartAddr + i) b ;; next)) c
    (λ _ c', WF c' ∧ c' = with_Memory (Memory c') c ∧
             (∀ a, 0 ≤ a < 512 ∨ 512 + len rom ≤ a →
                   index (Memory c') a = index (Memory c) a) ∧
             (∀ i, 0 ≤ i < len rom → index (Memory c') (512 + i) = index rom i)).
Proof.
  intros HWF Hrom Hfit.
  apply (ensures_for_range
           (λ j c0, WF c0 ∧ c0 = with_Memory (Memory c0) c ∧
                    (∀ a, 0 ≤ a < 512 ∨ 512 + j ≤ a →
                          index (Memory c0) a = index (Memory c) a) ∧
                    (∀ i, 0 ≤ i < j → index (Memory c0) (512 + i) = index rom i))).
  - unfold len. lia.
  - split_and!; [done|apply with_Memory_id|done|]. lia.
  - intros j c0 Hj (HWF0 & Heq & Hout & Hin).
    pose proof (WF_Mem _ HWF0) as Hlen.
    destruct (index_is_Some rom j Hj) as [b Hb].
    apply ensures_bind. apply (ensures_eq _ _ b c0); [unfold lift; by rewrite Hb|].
    unfold ProgramStartAddr.
    apply ensures_bind, ensures_writeMem; [lia|]. apply ensures_next.
    split_and!.
    + apply WF_with_Memory; [done|]. by apply (index_Forall _ _ _ _ Hrom Hb).
    + simpl. by rewrite Heq.
    + intros a Ha. simpl. rewrite index_insert_ne by lia. apply Hout. lia.
    + intros i Hi. simpl. destruct (Z.eq_dec i j) as [->|Hne].
      * rewrite Hb. apply index_insert_eq. lia.
      * rewrite index_insert_ne by lia. apply Hin. lia.
  - intros c0 (? & ? & ? & ?). done.
Qed.

Lemma clear_row_spec y c :
  WF c → 0 ≤ y < 32 →
  ensures (for_range 0 DisplayWidth (λ x, writePixel y x false ;; next)) c
    (λ _ c', WF c' ∧ c' = with_Display (Display c') c ∧
             (∀ y' x', y' ≠ y → pixel c' y' x' = pixel c y' x') ∧
             (∀ x', 0 ≤ x' < 64 → pixel c' y x' = Some false)).
Proof.
  intros HWF Hy.
  apply (ensures_for_range
           (λ j c0, WF c0 ∧ c0 = with_Display (Display c0) c ∧
                    (∀ y' x', y' ≠ y → pixel c0 y' x' = pixel c y' x') ∧
                    (∀ x', 0 ≤ x' < j → pixel c0 y x' = Some false))).
  - done.
  - split_and!; [done|apply with_Display_id|done|]. lia.
  - intros j c0 Hj (HWF0 & Heq & Hother & Hrow). unfold DisplayWidth in Hj.
    destruct (Display_row c0 y HWF0 Hy) as (row & Hget & Hlen).
    apply ensures_bind, (ensures_writePixel _ _ _ _ row); [done|lia|].
    apply ensures_next. split_and!.
    + by apply WF_with_Display.
    + simpl. by rewrite Heq.
    + intros y' x' Hne. rewrite pixel_insert by (done || lia).
      rewrite decide_False by (intros [? ?]; done). by apply Hother.
    + intros x' Hx'. rewrite pixel_insert by (done || lia).
      case_decide as Hd; [done|]. apply Hrow.
      destruct (Z.eq_dec x' j) as [->|]; [by destruct Hd|lia].
  - intros c0 (? & ? & ? & ?). done.
Qed.

Lemma clear_display_spec c :
  WF c →
  ensures (for_range 0 DisplayHeight (λ y,
             for_range 0 DisplayWidth (λ x, writePixel y x false ;; next) ;;
             next)) c
    (λ _ c', WF c' ∧ c' = with_Display (Display c') c ∧
             (∀ y x, 0 ≤ y < 32 → 0 ≤ x < 64 → pixel c' y x = Some false)).
Proof.
  intros HWF.
  apply (ensures_for_range
           (λ j c0, WF c0 ∧ c0 = with_Display (Display c0) c ∧
                    (∀ y x, 0 ≤ y < j → 0 ≤ x < 64 → pixel c0 y x = Some false))).
  - done.
  - split_and!; [done|apply with_Display_id|]. lia.
  - intros j c0 Hj (HWF0 & Heq & Hdone). unfold DisplayHeight in Hj.
    apply ensures_bind.
    eapply ensures_mono; [by apply clear_row_spec|].
    intros _ c1 (HWF1 & Heq1 & Hother & Hrow). apply ensures_next.
    split_and!; [done| |].
    + rewrite Heq1, Heq. done.
    + intros y x Hy Hx. destruct (Z.eq_dec y j) as [->|Hne].
      * by apply Hrow.
      * rewrite Hother by done. apply Hdone; lia.
  - intros c0 (? & ? & ?). done.
Qed.

Lemma clear_registers_spec c :
  WF c →
  ensures (for_range 0 RegisterCount (λ i, writeV i 0 ;; next)) c
    (λ _ c', WF c' ∧ c' = with_V (V c') c ∧
             (∀ x, 0 ≤ x < 16 → index (V c') x = Some 0)).
Proof.
  intros HWF.
  apply (ensures_for_range
           (λ j c0, WF c0 ∧ c0 = with_V (V c0) c ∧
                    (∀ x, 0 ≤ x < j → index (V c0) x = Some 0))).
  - done.
  - split_and!; [done|apply with_V_id|]. lia.
  - intros j c0 Hj (HWF0 & Heq & Hdone). unfold RegisterCount in Hj.
    pose proof (WF_V _ HWF0) as Hlen.
    apply ensures_bind, ensures_writeV; [lia|]. apply ensures_next.
    split_and!.
    + by apply WF_with_V.
    + simpl. by rewrite Heq.
    + intros x Hx. simpl. destruct (Z.eq_dec x j) as [->|Hne].
      * apply index_insert_eq. lia.
      * rewrite index_insert_ne by lia. apply Hdone. lia.
  - intros c0 (? & ? & ?). done.
Qed.

(** ** [LoadROMFromBytes] *)

(** A ROM that does not fit: the memory from [FontEndAddr] on has been
    cleared when the size is checked. *)
Lemma load_too_large_spec rom c :
  WF c → 3584 < len rom →
  ensures (LoadROMFromBytes rom) c
    (λ r c', r = Some (ErrROMSize 3584) ∧ WF c' ∧
             c' = with_Memory (Memory c') c ∧
             (∀ a, 0 ≤ a < 80 → index (Memory c') a = index (Memory c) a) ∧
             (∀ a, 80 ≤ a < 4096 → index (Memory c') a = Some 0)).
Proof.
  intros HWF Hbig. unfold LoadROMFromBytes. apply ensures_bind.
  eapply ensures_mono; [by apply clear_memory_spec|].
  intros _ c1 (HWF1 & Heq & Hfont & Hzero). simpl.
  destruct (Z.ltb_spec (MemorySize - ProgramStartAddr) (len rom)) as [_|Hle];
    [|unfold MemorySize, ProgramStartAddr in Hle; lia].
  by apply ensures_ret.
Qed.

Lemma load_fits_spec rom c :
  WF c → Forall (λ z, 0 ≤ z < 256) rom → len rom ≤ 3584 →
  ensures (LoadROMFromBytes rom) c
    (λ r c', r = None ∧ WF c' ∧
             PC c' = 512 ∧ I c' = 0 ∧ SP c' = 0 ∧ DT c' = 0 ∧ ST c' = 0 ∧
             DrawFlag c' = true ∧ Stack c' = Stack c ∧ Keys c' = Keys c ∧
             (∀ x, 0 ≤ x < 16 → index (V c') x = Some 0) ∧
             (∀ y x, 0 ≤ y < 32 → 0 ≤ x < 64 → pixel c' y x = Some false) ∧
             (∀ a, 0 ≤ a < 80 → index (Memory c') a = index (Memory c) a) ∧
             (∀ a, 80 ≤ a < 512 ∨ 512 + len rom ≤ a < 4096 →
                   index (Memory c') a = Some 0) ∧
             (∀ i, 0 ≤ i < len rom → index (Memory c') (512 + i) = index rom i)).
Proof.
  intros HWF Hrom Hfit. unfold LoadROMFromBytes. apply ensures_bind.
  eapply ensures_mono; [by apply clear_memory_spec|].
  intros _ c1 (HWF1 & Heq1 & Hfont & Hzero). simpl.
  destruct (Z.ltb_spec (MemorySize - ProgramStartAddr) (len rom)) as [Hlt|_];
    [unfold MemorySize, ProgramStartAddr in Hlt; lia|].
  apply ensures_bind.
  eapply ensures_mono; [by apply copy_rom_spec|].
  intros _ c2 (HWF2 & Heq2 & Hout & Hin). simpl.
  unfold setPC, setI, setSP, setDT, setST, setDrawFlag, ProgramStartAddr.
  do 6 (apply ensures_bind; eapply ensures_eq; [reflexivity|]).
  set (c3 := with_DrawFlag _ _).
  assert (WF c3) as HWF3.
  { unfold c3. solve_WF. }
  apply ensures_bind.
  eapply ensures_mono; [by apply clear_display_spec|].
  intros _ c4 (HWF4 & Heq4 & Hdisp). simpl.
  apply ensures_bind.
  eapply ensures_mono; [by apply clear_registers_spec|].
  intros _ c5 (HWF5 & Heq5 & Hregs). simpl.
  apply ensures_ret.
  assert (Memory c5 = Memory c2) as HM by (by rewrite Heq5, Heq4).
  split_and!; try done; try (by rewrite Heq5, Heq4).
  - rewrite Heq5, Heq4. simpl. by rewrite Heq2, Heq1.
  - rewrite Heq5, Heq4. simpl. by rewrite Heq2, Heq1.
  - intros a Ha. rewrite HM, Hout by lia. by apply Hfont.
  - intros a Ha. pose proof (len_nonneg rom).
    rewrite HM, Hout by lia. apply Hzero. lia.
Qed.

(** ** Loading into a new machine *)

Lemma WF_New : WF New.
Proof. apply wf_WF. by vm_compute. Qed.

Lemma index_ext {A} (a b : list A) :
  len a = len b → (∀ i, 0 ≤ i < len a → index a i = index b i) → a = b.
Proof.
  unfold len. intros Hlen Hi. apply list_eq. intros n.
  destruct (decide (n < length a)%nat) as [Hn|Hn].
  - specialize (Hi (Z.of_nat n) ltac:(lia)). unfold index in Hi.
    destruct (Z.leb_spec 0 (Z.of_nat n)); [|lia]. by rewrite Nat2Z.id in Hi.
  - rewrite !lookup_ge_None_2; [done|lia..].
Qed.

Lemma index_app_l {A} (a b : list A) i :
  i < len a → index (a ++ b) i = index a i.
Proof.
  unfold index, len. intros Hi. destruct (Z.leb_spec 0 i); [|done].
  apply lookup_app_l. lia.
Qed.

Lemma index_app_r {A} (a b : list A) i :
  len a ≤ i → index (a ++ b) i = index b (i - len a).
Proof.
  unfold index, len. intros Hi.
  destruct (Z.leb_spec 0 i); [|lia]. destruct (Z.leb_spec 0 (i - Z.of_nat (length a))); [|lia].
  rewrite lookup_app_r by lia. f_equal. lia.
Qed.

Lemma index_take {A} (a : list A) (n : nat) i :
  i < Z.of_nat n → index (take n a) i = index a i.
Proof.
  unfold index. intros Hi. destruct (Z.leb_spec 0 i); [|done].
  apply lookup_take_lt. lia.
Qed.

Lemma index_drop {A} (a : list A) (n : nat) i :
  0 ≤ i → index (drop n a) i = index a (Z.of_nat n + i).
Proof.
  unfold index. intros Hi.
  destruct (Z.leb_spec 0 i); [|lia]. destruct (Z.leb_spec 0 (Z.of_nat n + i)); [|lia].
  rewrite lookup_drop. f_equal. lia.
Qed.

Lemma New_memory_zero a : 80 ≤ a < 4096 → index (Memory New) a = Some 0.
Proof.
  intros Ha. change (Memory New) with (fontSet ++ replicate 4016%nat 0).
  rewrite index_app_r by (change (len fontSet) with 80; lia).
  apply index_replicate. change (len fontSet) with 80. lia.
Qed.

Lemma machine_memory rom a :
  len rom ≤ 3584 →
  index (Memory (machine rom)) a =
  if (512 <=? a) && (a <? 512 + len rom) then index rom (a - 512)
  else index (Memory New) a.
Proof.
  intros Hfit. pose proof (len_nonneg rom) as H0.
  change (Memory (machine rom))
    with (take 512 (Memory New) ++ rom ++ drop (512 + length rom) (Memory New)).
  assert (len (take 512 (Memory New)) = 512) as Htake.
  { pose proof (WF_Mem _ WF_New) as Hlen. unfold len in *. rewrite length_take. lia. }
  generalize dependent (Memory New). intros m Htake.
  destruct (Z.leb_spec 512 a) as [H512|H512]; cbn [andb].
  - rewrite index_app_r by lia. rewrite Htake.
    destruct (Z.ltb_spec a (512 + len rom)) as [Hin|Hout].
    + apply index_app_l. lia.
    + rewrite index_app_r by lia.
      rewrite index_drop by lia. f_equal. unfold len. lia.
  - rewrite index_app_l by lia. apply index_take. lia.
Qed.

Lemma WF_set_Memory c m :
  WF c → len m = 4096 → Forall (λ z, 0 ≤ z < 256) m → WF (with_Memory m c).
Proof. intros [] Hlen Hm. by constructor. Qed.

Lemma program_region_len (m rom : list Z) :
  len m = 4096 → len rom ≤ 3584 →
  len (take 512 m ++ rom ++ drop (512 + length rom) m) = 4096.
Proof.
  unfold len. intros Hlen Hfit.
  rewrite !length_app, length_take, length_drop. lia.
Qed.

Lemma program_region_bytes (m rom : list Z) :
  Forall (λ z, 0 ≤ z < 256) m → Forall (λ z, 0 ≤ z < 256) rom →
  Forall (λ z, 0 ≤ z < 256) (take 512 m ++ rom ++ drop (512 + length rom) m).
Proof.
  intros Hm Hrom. rewrite !Forall_app.
  split_and!; [by apply Forall_take|done|by apply Forall_drop].
Qed.

Lemma WF_machine rom :
  Forall (λ z, 0 ≤ z < 256) rom → len rom ≤ 3584 → WF (machine rom).
Proof.
  intros Hrom Hfit.
  exact (WF_set_Memory New _ WF_New
           (program_region_len _ _ (WF_Mem _ WF_New) Hfit)
           (program_region_bytes _ _ (WF_Memb _ WF_New) Hrom)).
Qed.

Lemma Chip8_ext c c' :
  V c = V c' → I c = I c' → PC c = PC c' → SP c = SP c' → DT c = DT c' →
  ST c = ST c' → Memory c = Memory c' → Stack c = Stack c' →
  Display c = Display c' → Keys c = Keys c' → DrawFlag c = DrawFlag c' →
  c = c'.
Proof. destruct c, c'. simpl. by intros -> -> -> -> -> -> -> -> -> -> ->. Qed.

Lemma load_New rom :
  Forall (λ z, 0 ≤ z < 256) rom → len rom ≤ 3584 →
  LoadROMFromBytes rom New = Some (None, machine rom).
Proof.
  intros Hrom Hfit.
  destruct (load_fits_spec rom New WF_New Hrom Hfit)
    as (r & c & Hrun & -> & HWF & HPC & HI & HSP & HDT & HST & HDF & HStack
        & HKeys & HV & Hdisp & Hfont & Hzero & Hprog).
  rewrite Hrun. clear Hrun. do 2 f_equal.
  pose proof (WF_machine rom Hrom Hfit) as HWFm.
  assert (V c = V (machine rom)) as EV.
  { apply index_ext; [by rewrite (WF_V _ HWF)|].
    intros i Hi. rewrite (WF_V _ HWF) in Hi. rewrite HV by done.
    symmetry. apply (index_replicate 16). lia. }
  assert (Memory c = Memory (machine rom)) as EM.
  { apply index_ext; [by rewrite (WF_Mem _ HWF), (WF_Mem _ HWFm)|].
    intros a Ha. rewrite (WF_Mem _ HWF) in Ha. rewrite machine_memory by done.
    pose proof (len_nonneg rom).
    destruct (Z.leb_spec 512 a) as [H512|H512]; simpl.
    - destruct (Z.ltb_spec a (512 + len rom)) as [Hin|Hout].
      + rewrite <- (Hprog (a - 512)) by lia. f_equal. lia.
      + rewrite Hzero, New_memory_zero by lia. done.
    - destruct (Z.lt_ge_cases a 80).
      + apply Hfont. lia.
      + rewrite Hzero, New_memory_zero by lia. done. }
  assert (Display c = Display (machine rom)) as ED.
  { apply index_ext; [by rewrite (WF_Disp _ HWF)|].
    intros y Hy. rewrite (WF_Disp _ HWF) in Hy.
    destruct (Display_row c y HWF Hy) as (row & Hrow & Hlen).
    rewrite Hrow. change (Display (machine rom)) with (Display New).
    change (Display New) with (replicate 32%nat (replicate 64%nat false)).
    rewrite index_replicate by lia. f_equal.
    apply index_ext; [by rewrite Hlen|].
    intros x Hx. rewrite Hlen in Hx. rewrite index_replicate by lia.
    specialize (Hdisp y x Hy Hx). unfold pixel in Hdisp. by rewrite Hrow in Hdisp. }
  by apply Chip8_ext.
Qed.

Lemma started_machine rom n :
  forallb byte rom → len rom ≤ 3584 → started rom n = cycles n (machine rom).
Proof.
  intros Hrom%forallb_True Hfit. unfold started, run.
  rewrite load_New; [done| |done].
  eapply Forall_impl; [exact Hrom|]. intros z. apply byte_spec.
Qed.

(** [boot] runs a started machine: the ROM is put in place by [load_New],
    the cycles are computed. *)
Ltac boot :=
  rewrite started_machine by (vm_compute; done); vm_compute; reflexivity.

(** ** Loading a ROM *)

(** C1 (as amended): a ROM of more than 3584 bytes is refused with an
    error; the font table, memory[0..80), is unchanged, memory[80..4096) has
    been cleared to 0, and nothing but memory is touched: registers, index
    register, program counter, stack and stack pointer, timers, display,
    keys and draw flag are as before. *)
Theorem LoadROMFromBytes_rejects_large b c :
  wf c → 3584 < len b →
  ∃ c', LoadROMFromBytes b c = Some (Some (ErrROMSize 3584), c') ∧
        c' = with_Memory (Memory c') c ∧
        (∀ a, 0 ≤ a < 80 → index (Memory c') a = index (Memory c) a) ∧
        (∀ a, 80 ≤ a < 4096 → index (Memory c') a = Some 0).
Proof.
  intros HWF%wf_WF Hbig.
  destruct (load_too_large_spec b c HWF Hbig) as (r & c' & Hrun & -> & _ & ?).
  by exists c'.
Qed.

Lemma LoadROMFromBytes_rejects_large_witness :
  ∃ c, started [0x00; 0xEE] 0 = Some c ∧
       let b := replicate 3585 0xFF in
       wf c ∧ 3584 < len b ∧
       ∃ c', LoadROMFromBytes b c = Some (Some (ErrROMSize 3584), c') ∧
             c' = with_Memory (Memory c') c ∧
             (∀ a, 0 ≤ a < 80 → index (Memory c') a = index (Memory c) a) ∧
             (∀ a, 80 ≤ a < 4096 → index (Memory c') a = Some 0).
Proof.
  eexists. split; [boot|].
  split_and!; [by vm_compute|by vm_compute|].
  apply LoadROMFromBytes_rejects_large; by vm_compute.
Defined.

(** C1 (as stated) fails: a machine holding the program [00 EE] is given
    3585 bytes; the load is refused, and the program is gone from memory
    (address 513 held 0xEE and holds 0). *)
Lemma LoadROMFromBytes_failure_clears_memory :
  ∃ c c', started [0x00; 0xEE] 0 = Some c ∧
          3584 < len (replicate 3585 0xFF) ∧
          LoadROMFromBytes (replicate 3585 0xFF) c
            = Some (Some (ErrROMSize 3584), c') ∧
          index (Memory c) 513 = Some 0xEE ∧
          index (Memory c') 513 = Some 0 ∧
          c' ≠ c.
Proof.
  assert (WF (machine [0x00; 0xEE])) as HWF by (apply wf_WF; by vm_compute).
  assert (3584 < len (replicate 3585 0xFF)) as Hbig by (by vm_compute).
  assert (index (Memory (machine [0x00; 0xEE])) 513 = Some 0xEE) as Hprog
    by reflexivity.
  destruct (load_too_large_spec _ _ HWF Hbig)
    as (r & c' & Hrun & -> & _ & _ & _ & Hzero).
  specialize (Hzero 513 ltac:(lia)).
  exists (machine [0x00; 0xEE]), c'.
  split; [rewrite started_machine by (vm_compute; done); reflexivity|].
  split; [exact Hbig|]. split; [exact Hrun|]. split; [exact Hprog|].
  split; [exact Hzero|].
  intros E. rewrite E, Hprog in Hzero. discriminate.
Qed.

(** C4: a ROM of at most 3584 bytes is loaded without error; afterwards
    the program counter is 512, the 16 registers, both timers, the stack
    pointer (and the index register) are 0, every display cell is false,
    memory[512 .. 512+len(b)) is [b], and the font table memory[0..80) is
    as before. *)
Theorem LoadROMFromBytes_loads b c :
  wf c → forallb byte b → len b ≤ 3584 →
  ∃ c', LoadROMFromBytes b c = Some (None, c') ∧
        PC c' = 512 ∧
        (∀ x, 0 ≤ x < 16 → index (V c') x = Some 0) ∧
        DT c' = 0 ∧ ST c' = 0 ∧ SP c' = 0 ∧ I c' = 0 ∧
        (∀ y x, 0 ≤ y < 32 → 0 ≤ x < 64 → pixel c' y x = Some false) ∧
        (∀ i, 0 ≤ i < len b → index (Memory c') (512 + i) = index b i) ∧
        (∀ a, 0 ≤ a < 80 → index (Memory c') a = index (Memory c) a).
Proof.
  intros HWF%wf_WF Hb%forallb_True Hfit.
  assert (Forall (λ z, 0 ≤ z < 256) b) as Hb'.
  { eapply Forall_impl; [exact Hb|]. intros z. apply byte_spec. }
  destruct (load_fits_spec b c HWF Hb' Hfit)
    as (r & c' & Hrun & -> & _ & ? & ? & ? & ? & ? & _ & _ & _ & ? & ? & ? & _ & ?).
  exists c'. split_and!; done.
Qed.

Lemma LoadROMFromBytes_loads_witness :
  ∃ c, started [0x6A; 0x07; 0xD0; 0x05] 2 = Some c ∧
       let b := [0x12; 0x00; 0xFF] in
       wf c ∧ forallb byte b ∧ len b ≤ 3584 ∧
       ∃ c', LoadROMFromBytes b c = Some (None, c') ∧
             PC c' = 512 ∧
             (∀ x, 0 ≤ x < 16 → index (V c') x = Some 0) ∧
             DT c' = 0 ∧ ST c' = 0 ∧ SP c' = 0 ∧ I c' = 0 ∧
             (∀ y x, 0 ≤ y < 32 → 0 ≤ x < 64 → pixel c' y x = Some false) ∧
             (∀ i, 0 ≤ i < len b → index (Memory c') (512 + i) = index b i) ∧
             (∀ a, 0 ≤ a < 80 → index (Memory c') a = index (Memory c) a).
Proof.
  eexists. split; [boot|].
  split_and!; [by vm_compute..|].
  apply LoadROMFromBytes_loads; by vm_compute.
Defined.

(** ** The dispatch

    [dispatch H] reads the branch of the [switch] off a pattern
    [H : Z.land opcode mask = value]. *)

Ltac dispatch H :=
  unfold execute;
  repeat match goal with
  | |- context [Z.land ?op ?m] =>
      lazymatch m with
      | OpcodeMask => idtac | NibbleMask => idtac | ByteMask => idtac
      end;
      rewrite (land_submask op _ _ m H eq_refl)
  end;
  reflexivity.

(** ** Register-register addition (8xy4) *)

Lemma execute_ADD_reg rnd opcode :
  Z.land opcode 0xF00F = 0x8004 →
  execute rnd opcode = op_ADD_reg (Xreg opcode) (Yreg opcode).
Proof. intros H. dispatch H. Qed.

(** The flag is written first and the sum second, from the values read
    before either write. *)
Lemma op_ADD_reg_spec c X Y x y :
  WF c → 0 ≤ X < 16 →
  index (V c) X = Some x → index (V c) Y = Some y →
  op_ADD_reg X Y c =
    Some (tt, with_V (<[Z.to_nat X := u8 (u16 (x + y))]>
                       (<[Z.to_nat VFRegister :=
                            if ByteMax <? u16 (x + y) then 1 else 0]> (V c))) c).
Proof.
  intros HWF HX Hx Hy. unfold op_ADD_reg.
  rewrite (bind_Some _ _ _ _ _ (readV_Some _ _ _ Hx)).
  rewrite (bind_Some _ _ _ _ _ (readV_Some _ _ _ Hy)).
  pose proof (WF_V _ HWF) as HV.
  assert (∀ f, writeV VFRegister f c
               = Some (tt, with_V (<[Z.to_nat VFRegister := f]> (V c)) c)) as HF.
  { intros f. apply writeV_Some. rewrite HV. done. }
  destruct (ByteMax <? u16 (x + y));
    rewrite (bind_Some _ _ _ _ _ (HF _));
    rewrite writeV_Some by (simpl; rewrite len_insert; lia); done.
Qed.

(** C6 (as amended): the register-register add leaves [(x + y) mod 256] in
    the destination register, and the carry (1 iff [x + y > 255], else 0) in
    register 15 whenever the destination is not register 15 itself. *)
Theorem ADD_reg_sum_and_carry rnd c opcode x y :
  wf c →
  opcode_at c = Some opcode → Z.land opcode 0xF00F = 0x8004 →
  index (V c) (Xreg opcode) = Some x →
  index (V c) (Yreg opcode) = Some y →
  ∃ c', EmulateCycle rnd c = Some (tt, c') ∧
        index (V c') (Xreg opcode) = Some ((x + y) mod 256) ∧
        (Xreg opcode ≠ VFRegister →
         index (V c') VFRegister = Some (if 255 <? x + y then 1 else 0)).
Proof.
  intros HWF%wf_WF Hop Hpat Hx Hy.
  pose proof (Xreg_range opcode) as HX.
  pose proof (V_byte _ _ _ HWF Hx) as Hxb.
  pose proof (V_byte _ _ _ HWF Hy) as Hyb.
  pose proof (opcode_at_PC _ _ HWF Hop) as HPC.
  rewrite (EmulateCycle_execute _ _ _ HWF Hop), (execute_ADD_reg _ _ Hpat).
  rewrite (op_ADD_reg_spec _ _ _ x y); [|apply WF_with_PC; [done|lia]|done..].
  eexists. split; [done|]. simpl.
  pose proof (WF_V _ HWF) as HV.
  rewrite (u16_small (x + y)) by lia. unfold ByteMax, u8.
  split.
  - apply index_insert_eq. rewrite len_insert, HV. lia.
  - intros Hne. rewrite index_insert_ne by lia.
    apply index_insert_eq. rewrite HV. done.
Qed.

Lemma ADD_reg_sum_and_carry_witness :
  ∃ c, started [0x60; 0xF0; 0x61; 0x20; 0x80; 0x14] 2 = Some c ∧
       wf c ∧ opcode_at c = Some 0x8014 ∧ Z.land 0x8014 0xF00F = 0x8004 ∧
       index (V c) (Xreg 0x8014) = Some 0xF0 ∧
       index (V c) (Yreg 0x8014) = Some 0x20 ∧
       ∃ c', EmulateCycle 0 c = Some (tt, c') ∧
             index (V c') (Xreg 0x8014) = Some ((0xF0 + 0x20) mod 256) ∧
             (Xreg 0x8014 ≠ VFRegister →
              index (V c') VFRegister = Some (if 255 <? 0xF0 + 0x20 then 1 else 0)).
Proof.
  eexists. split; [boot|].
  split_and!; [by vm_compute|reflexivity..|].
  apply (ADD_reg_sum_and_carry 0 _ 0x8014 0xF0 0x20);
    [by vm_compute|reflexivity..].
Defined.

(** C6 (as stated) fails when the destination is register 15: with 200 in
    register 15 and 100 in register 0, [8F04] leaves 44 in register 15, the
    sum, where the claim puts the carry, 1. *)
Lemma ADD_reg_flag_overwritten :
  ∃ c c', started [0x6F; 0xC8; 0x60; 0x64; 0x8F; 0x04] 2 = Some c ∧
          opcode_at c = Some 0x8F04 ∧
          index (V c) (Xreg 0x8F04) = Some 200 ∧
          index (V c) (Yreg 0x8F04) = Some 100 ∧
          EmulateCycle 0 c = Some (tt, c') ∧
          index (V c') VFRegister = Some 44 ∧
          index (V c') VFRegister ≠ Some (if 255 <? 200 + 100 then 1 else 0).
Proof.
  eexists. eexists. split; [boot|].
  split_and!; [reflexivity..|vm_compute; reflexivity|reflexivity|done].
Qed.

(** ** Index to font sprite (Fx29) *)

Lemma execute_LD_F rnd opcode :
  Z.land opcode 0xF0FF = 0xF029 → execute rnd opcode = op_LD_F (Xreg opcode).
Proof. intros H. dispatch H. Qed.

(** The product is formed in [byte] and only then widened. *)
Lemma LD_F_index rnd c opcode v :
  wf c →
  opcode_at c = Some opcode → Z.land opcode 0xF0FF = 0xF029 →
  index (V c) (Xreg opcode) = Some v →
  ∃ c', EmulateCycle rnd c = Some (tt, c') ∧ I c' = (v * 5) mod 256.
Proof.
  intros HWF%wf_WF Hop Hpat Hv.
  rewrite (EmulateCycle_execute _ _ _ HWF Hop), (execute_LD_F _ _ Hpat).
  unfold op_LD_F.
  rewrite (bind_Some _ _ _ _ _ (readV_Some (with_PC _ c) _ _ Hv)).
  eexists. split; [reflexivity|]. reflexivity.
Qed.

(** C3, at the input where the code leaves the claim: with 52 in the
    operand register, [F029] sets the index register to 4, which is
    [52 * 5 mod 256], and not to [52 * 5 = 260]. *)
Theorem LD_F_at_52 :
  ∃ c c', started [0x60; 0x34; 0xF0; 0x29] 1 = Some c ∧
          opcode_at c = Some 0xF029 ∧
          index (V c) (Xreg 0xF029) = Some 52 ∧
          EmulateCycle 0 c = Some (tt, c') ∧
          I c' = 4 ∧ I c' ≠ 52 * 5.
Proof.
  eexists. eexists. split; [boot|].
  split_and!; [reflexivity..|vm_compute; reflexivity|reflexivity|done].
Qed.

(** ** Call and return (2nnn, 00EE) *)

Lemma execute_CALL rnd opcode :
  Z.land opcode 0xF000 = 0x2000 → execute rnd opcode = op_CALL opcode.
Proof. intros H. dispatch H. Qed.

Lemma execute_RET rnd opcode :
  Z.land opcode 0xF0FF = 0x00EE → execute rnd opcode = op_RET.
Proof. intros H. dispatch H. Qed.

Lemma op_CALL_spec c opcode :
  WF c → SP c ≤ 15 →
  op_CALL opcode c =
    Some (tt, with_PC (Z.land opcode AddressMask)
                (with_SP (SP c + 1)
                   (with_Stack (<[Z.to_nat (SP c) := PC c]> (Stack c)) c))).
Proof.
  intros HWF HSP. pose proof (WF_SP _ HWF). pose proof (WF_Stack _ HWF).
  unfold op_CALL, getSP, getPC, setSP, setPC, mbind at 1 2, M_bind.
  assert (0 ≤ SP c < len (Stack c)) as Hin by lia.
  rewrite (bind_Some _ _ _ _ _ (writeStack_Some c _ (PC c) Hin)).
  unfold mbind, M_bind. by rewrite u8_small by lia.
Qed.

Lemma op_RET_spec c pc :
  WF c → 1 ≤ SP c → index (Stack c) (SP c - 1) = Some pc →
  op_RET c = Some (tt, with_PC pc (with_SP (SP c - 1) c)).
Proof.
  intros HWF HSP Hpc. pose proof (WF_SP _ HWF).
  unfold op_RET, getSP, setSP, setPC, mbind at 1 2 3, M_bind. simpl.
  rewrite u8_small by lia.
  by rewrite (bind_Some _ _ _ _ _ (readStack_Some (with_SP _ c) _ _ Hpc)).
Qed.

(** The fetch reads the memory and the program counter only. *)
Lemma opcode_at_ext c c' :
  Memory c = Memory c' → PC c = PC c' → opcode_at c = opcode_at c'.
Proof.
  intros HM HP. unfold opcode_at, fetch, getPC, readMem, get, mbind, M_bind, mret, M_ret.
  rewrite HM, HP.
  destruct (index (Memory c') (PC c')); [|done].
  simpl. rewrite HM, HP.
  by destruct (index (Memory c') (u16 (PC c' + 1))).
Qed.

(** C10: with the stack pointer at most 15, a call at address [p] followed
    by a return puts the program counter at [p + 2], the stack pointer at
    its value before the call, and changes no stack entry below it. *)
Theorem CALL_RET_round_trip rnd rnd' c call ret :
  wf c → SP c ≤ 15 →
  opcode_at c = Some call → Z.land call 0xF000 = 0x2000 →
  opcode_at (with_PC (Z.land call AddressMask) c) = Some ret →
  Z.land ret 0xF0FF = 0x00EE →
  ∃ c1 c2, EmulateCycle rnd c = Some (tt, c1) ∧
           PC c1 = Z.land call AddressMask ∧
           EmulateCycle rnd' c1 = Some (tt, c2) ∧
           PC c2 = PC c + 2 ∧
           SP c2 = SP c ∧
           ∀ i, 0 ≤ i < SP c → index (Stack c2) i = index (Stack c) i.
Proof.
  intros HWF%wf_WF HSP Hcall Hpat Hret Hpat'.
  pose proof (opcode_at_PC _ _ HWF Hcall) as HPC.
  pose proof (WF_SP _ HWF) as HSP0. pose proof (WF_Stack _ HWF) as HSt.
  pose proof (address_range call) as Hnnn.
  assert (WF (with_PC (PC c + 2) c)) as HWF1 by (apply WF_with_PC; [done|lia]).
  rewrite (EmulateCycle_execute _ _ _ HWF Hcall), (execute_CALL _ _ Hpat).
  rewrite op_CALL_spec by done. simpl.
  set (c1 := with_PC _ _).
  assert (WF c1) as HWFc1.
  { apply WF_with_PC; [|lia]. apply WF_with_SP; [|lia].
    apply (WF_with_Stack (with_PC (PC c + 2) c)); [done|simpl; lia]. }
  assert (opcode_at c1 = Some ret) as Hret1.
  { rewrite <- Hret. by apply opcode_at_ext. }
  exists c1. eexists. split; [done|]. split; [done|].
  rewrite (EmulateCycle_execute _ _ _ HWFc1 Hret1), (execute_RET _ _ Hpat').
  rewrite (op_RET_spec _ (PC c + 2)).
  - split; [done|]. simpl. split_and!; [done|lia|].
    intros i Hi. apply index_insert_ne; lia.
  - by apply WF_with_PC; [|simpl; lia].
  - simpl. lia.
  - simpl. replace (SP c + 1 - 1) with (SP c) by lia.
    apply index_insert_eq. lia.
Qed.

Lemma CALL_RET_round_trip_witness :
  ∃ c, started [0x22; 0x04; 0x00; 0x00; 0x00; 0xEE] 0 = Some c ∧
       wf c ∧ SP c ≤ 15 ∧
       opcode_at c = Some 0x2204 ∧ Z.land 0x2204 0xF000 = 0x2000 ∧
       opcode_at (with_PC (Z.land 0x2204 AddressMask) c) = Some 0x00EE ∧
       Z.land 0x00EE 0xF0FF = 0x00EE ∧
       ∃ c1 c2, EmulateCycle 0 c = Some (tt, c1) ∧
                PC c1 = Z.land 0x2204 AddressMask ∧
                EmulateCycle 0 c1 = Some (tt, c2) ∧
                PC c2 = PC c + 2 ∧
                SP c2 = SP c ∧
                ∀ i, 0 ≤ i < SP c → index (Stack c2) i = index (Stack c) i.
Proof.
  eexists. split; [boot|].
  split_and!; [by vm_compute|by vm_compute|reflexivity..|].
  apply (CALL_RET_round_trip 0 0 _ 0x2204 0x00EE);
    [by vm_compute|by vm_compute|reflexivity..].
Defined.

(** ** Wait for a key (Fx0A) *)

Lemma execute_LD_Vx_K rnd opcode :
  Z.land opcode 0xF0FF = 0xF00A → execute rnd opcode = op_LD_Vx_K (Xreg opcode).
Proof. intros H. dispatch H. Qed.

Lemma scan_keys_none n i x c :
  (∀ j, i ≤ j < i + Z.of_nat n → index (Keys c) j = Some false) →
  scan_keys n i x c = Some (false, c).
Proof.
  revert i. induction n as [|n IH]; intros i Hkeys; [done|].
  simpl. rewrite (bind_Some _ _ _ _ _ (readKey_Some c i false ltac:(apply Hkeys; lia))).
  apply IH. intros j Hj. apply Hkeys. lia.
Qed.

Lemma scan_keys_first n i x k c :
  0 ≤ x < len (V c) →
  i ≤ k < i + Z.of_nat n →
  index (Keys c) k = Some true →
  (∀ j, i ≤ j < k → index (Keys c) j = Some false) →
  scan_keys n i x c = Some (true, with_V (<[Z.to_nat x := u8 k]> (V c)) c).
Proof.
  intros Hx. revert i. induction n as [|n IH]; intros i Hk Hpressed Hbelow; [lia|].
  simpl. destruct (Z.eq_dec i k) as [->|Hne].
  - rewrite (bind_Some _ _ _ _ _ (readKey_Some c k true Hpressed)).
    by rewrite (bind_Some _ _ _ _ _ (writeV_Some c x (u8 k) Hx)).
  - rewrite (bind_Some _ _ _ _ _ (readKey_Some c i false ltac:(apply Hbelow; lia))).
    apply IH; [lia|done|]. intros j Hj. apply Hbelow. lia.
Qed.

Lemma with_PC_id c : with_PC (PC c) c = c.
Proof. by destruct c. Qed.

Lemma with_PC_with_PC pc pc' c : with_PC pc (with_PC pc' c) = with_PC pc c.
Proof. done. Qed.

(** C5: on wait-for-key, a cycle with no key pressed leaves the whole state,
    program counter included, as it was; a cycle with a key pressed stores
    the lowest pressed key's index in the operand register, moves the
    program counter on by 2, and changes nothing else. *)
Theorem LD_Vx_K_waits_or_stores rnd c opcode :
  wf c →
  opcode_at c = Some opcode → Z.land opcode 0xF0FF = 0xF00A →
  ((∀ i, 0 ≤ i < 16 → index (Keys c) i = Some false) →
   EmulateCycle rnd c = Some (tt, c)) ∧
  (∀ k, 0 ≤ k < 16 → index (Keys c) k = Some true →
        (∀ i, 0 ≤ i < k → index (Keys c) i = Some false) →
        ∃ c', EmulateCycle rnd c = Some (tt, c') ∧
              index (V c') (Xreg opcode) = Some k ∧
              PC c' = PC c + 2 ∧
              c' = with_V (<[Z.to_nat (Xreg opcode) := k]> (V c))
                     (with_PC (PC c + 2) c)).
Proof.
  intros HWF%wf_WF Hop Hpat.
  pose proof (opcode_at_PC _ _ HWF Hop) as HPC.
  pose proof (Xreg_range opcode) as HX. pose proof (WF_V _ HWF) as HV.
  rewrite (EmulateCycle_execute _ _ _ HWF Hop), (execute_LD_Vx_K _ _ Hpat).
  unfold op_LD_Vx_K. split.
  - intros Hkeys.
    rewrite (bind_Some _ _ _ _ _ (scan_keys_none (Z.to_nat KeyCount) 0 _ (with_PC (PC c + 2) c) Hkeys)).
    simpl. unfold getPC, setPC, mbind, M_bind, InstructionSize. simpl.
    rewrite u16_small by lia.
    replace (PC c + 2 - 2) with (PC c) by lia.
    by rewrite with_PC_with_PC, with_PC_id.
  - intros k Hk Hpressed Hbelow.
    rewrite (bind_Some _ _ _ _ _
               (scan_keys_first (Z.to_nat KeyCount) 0 (Xreg opcode) k
                  (with_PC (PC c + 2) c)
                  ltac:(simpl; lia) ltac:(unfold KeyCount; lia) Hpressed Hbelow)).
    simpl. rewrite u8_small by lia.
    eexists. split; [reflexivity|]. simpl. split_and!; [|done..].
    apply index_insert_eq. lia.
Qed.

Lemma LD_Vx_K_waits_or_stores_witness :
  ∃ c, started [0xF3; 0x0A] 0 = Some c ∧
       let c2 := with_Keys (<[7%nat := true]> (<[4%nat := true]> (Keys c))) c in
       (wf c ∧ opcode_at c = Some 0xF30A ∧ Z.land 0xF30A 0xF0FF = 0xF00A ∧
        (∀ i, 0 ≤ i < 16 → index (Keys c) i = Some false) ∧
        EmulateCycle 0 c = Some (tt, c)) ∧
       (wf c2 ∧ opcode_at c2 = Some 0xF30A ∧
        0 ≤ 4 < 16 ∧ index (Keys c2) 4 = Some true ∧
        (∀ i, 0 ≤ i < 4 → index (Keys c2) i = Some false) ∧
        ∃ c', EmulateCycle 0 c2 = Some (tt, c') ∧
              index (V c') (Xreg 0xF30A) = Some 4 ∧
              PC c' = PC c2 + 2 ∧
              c' = with_V (<[Z.to_nat (Xreg 0xF30A) := 4]> (V c2))
                     (with_PC (PC c2 + 2) c2)).
Proof.
  eexists. split; [boot|].
  set (c := mkChip8 _ _ _ _ _ _ _ _ _ _ _). intros c2.
  assert (∀ i, 0 ≤ i < 16 → index (Keys c) i = Some false) as Hnone.
  { intros i Hi. apply (index_replicate 16). lia. }
  assert (∀ i, 0 ≤ i < 4 → index (Keys c2) i = Some false) as Hbelow.
  { intros i Hi. unfold c2. simpl.
    assert (i = 0 ∨ i = 1 ∨ i = 2 ∨ i = 3) as [->|[->|[->| ->]]] by lia; done. }
  split.
  - split_and!; [by vm_compute|reflexivity..|done|].
    apply (LD_Vx_K_waits_or_stores 0 c 0xF30A); [by vm_compute|reflexivity..|done].
  - split_and!; [by vm_compute|reflexivity|lia|lia|reflexivity|done|].
    apply (LD_Vx_K_waits_or_stores 0 c2 0xF30A);
      [by vm_compute|reflexivity..|lia|reflexivity|done].
Defined.

(** ** Opcodes outside the instruction set *)

Lemma land_join opcode m1 v1 m2 v2 :
  Z.land opcode m1 = v1 → Z.land opcode m2 = v2 →
  Z.land opcode (Z.lor m1 m2) = Z.lor v1 v2.
Proof. intros <- <-. apply Z.land_lor_distr_r. Qed.

Lemma not_defined opcode mask value :
  ¬ defined opcode → In (mask, value) patterns → Z.land opcode mask ≠ value.
Proof.
  unfold defined. intros Hnd Hin Heq. apply Hnd.
  apply Is_true_true, existsb_exists. exists (mask, value).
  split; [done|]. by apply Z.eqb_eq.
Qed.

(** A case of the [switch] that was selected contradicts [¬ defined]. *)
Ltac selected Hnd :=
  exfalso;
  lazymatch goal with
  | H1 : Z.land ?op OpcodeMask = ?v1, H2 : Z.land ?op ?m2 = ?v2 |- _ =>
      let m := eval vm_compute in (Z.lor OpcodeMask m2) in
      let v := eval vm_compute in (Z.lor v1 v2) in
      apply (not_defined op m v Hnd); [simpl; tauto|];
      exact (land_join op _ _ _ _ H1 H2)
  | H1 : Z.land ?op OpcodeMask = ?v1 |- _ =>
      apply (not_defined op OpcodeMask v1 Hnd); [simpl; tauto|]; exact H1
  end.

Ltac switch_case Hnd :=
  lazymatch goal with
  | |- context [Z.land ?op ?m =? ?v] =>
      destruct (Z.eqb_spec (Z.land op m) v); [try selected Hnd|]
  end.

Lemma execute_not_defined rnd opcode :
  ¬ defined opcode → execute rnd opcode = mret tt.
Proof.
  intros Hnd. unfold execute.
  repeat switch_case Hnd; reflexivity.
Qed.

(** C9: an opcode that matches no instruction pattern moves the program
    counter on by 2, the advance of the fetch, and changes nothing else. *)
Theorem unknown_opcode_is_noop rnd c opcode :
  wf c →
  opcode_at c = Some opcode → ¬ defined opcode →
  EmulateCycle rnd c = Some (tt, with_PC (PC c + 2) c).
Proof.
  intros HWF%wf_WF Hop Hnd.
  by rewrite (EmulateCycle_execute _ _ _ HWF Hop), (execute_not_defined _ _ Hnd).
Qed.

Lemma unknown_opcode_is_noop_witness :
  ∃ c, started [0x80; 0x18] 0 = Some c ∧
       wf c ∧ opcode_at c = Some 0x8018 ∧ ¬ defined 0x8018 ∧
       EmulateCycle 0 c = Some (tt, with_PC (PC c + 2) c).
Proof.
  eexists. split; [boot|].
  split_and!; [by vm_compute|reflexivity|by vm_compute|].
  apply (unknown_opcode_is_noop 0 _ 0x8018); [by vm_compute|reflexivity|by vm_compute].
Defined.

(** ** Draw sprite (Dxyn) *)

(** Comparisons of integers, case by case. *)
Ltac cmp :=
  repeat match goal with
  | |- context [?a <=? ?b] => destruct (Z.leb_spec a b)
  | |- context [?a <? ?b] => destruct (Z.ltb_spec a b)
  | |- context [?a =? ?b] => destruct (Z.eqb_spec a b)
  end; simpl; rewrite ?orb_false_r, ?andb_false_r, ?orb_true_r, ?andb_true_r;
  try (done || lia).

Lemma drawn_0 c x0 y0 r y x : drawn c x0 y0 r 0 y x = sprite_at c x0 y0 r y x.
Proof. unfold drawn. destruct (sprite_at c x0 y0 r y x); [done|]. cmp. Qed.

Lemma drawn_fresh c x0 y0 r col : drawn c x0 y0 r col (y0 + r) (x0 + col) = false.
Proof. unfold drawn, sprite_at. cmp. Qed.

Lemma drawn_full c x0 y0 r col y x :
  0 ≤ r → (col = 8 ∨ (x < 64 ∧ 64 ≤ x0 + col ∧ col ≤ 8)) →
  drawn c x0 y0 r col y x = sprite_at c x0 y0 (r + 1) y x.
Proof.
  intros Hr Hcol. unfold drawn, sprite_at, SpriteWidth.
  destruct (Z.eq_dec y (y0 + r)) as [->|Hne].
  - replace (y0 + r - y0) with r by lia. cmp.
  - cmp.
Qed.

Lemma drawn_step c x0 y0 r col y x :
  0 ≤ col →
  drawn c x0 y0 r (col + 1) y x =
  drawn c x0 y0 r col y x || (y =? y0 + r) && (x =? x0 + col) && sprite_bit c r col.
Proof.
  intros Hcol. unfold drawn.
  destruct (sprite_at c x0 y0 r y x); [done|]. simpl.
  destruct (Z.eq_dec x (x0 + col)) as [->|Hne].
  - replace (x0 + col - x0) with col by lia. cmp.
  - cmp.
Qed.

Lemma sprite_at_0 c x0 y0 y x : sprite_at c x0 y0 0 y x = false.
Proof. unfold sprite_at. cmp. Qed.

Lemma sprite_at_clip c x0 y0 r h y x :
  r ≤ h → y < y0 + r → sprite_at c x0 y0 r y x = sprite_at c x0 y0 h y x.
Proof. intros Hr Hy. unfold sprite_at. cmp. Qed.

Lemma land_pow2 s k :
  0 ≤ k → Z.land s (2 ^ k) = if Z.testbit s k then 2 ^ k else 0.
Proof.
  intros Hk. apply Z.bits_inj'. intros n Hn.
  rewrite Z.land_spec, Z.pow2_bits_eqb by done.
  destruct (Z.eqb_spec k n) as [->|Hne].
  - destruct (Z.testbit s n); [by rewrite Z.pow2_bits_true|by rewrite Z.bits_0].
  - rewrite andb_false_r. destruct (Z.testbit s k); [|by rewrite Z.bits_0].
    by rewrite Z.pow2_bits_false.
Qed.

Lemma sprite_bit_test s col :
  0 ≤ col < 8 →
  negb (Z.land s (Z.shiftr SpriteLeftBit col) =? 0) = Z.testbit s (7 - col).
Proof.
  intros Hcol.
  unfold SpriteLeftBit. replace (Z.shiftr 0x80 col) with (2 ^ (7 - col)).
  - rewrite land_pow2 by lia. destruct (Z.testbit s (7 - col)); [|done].
    assert (0 < 2 ^ (7 - col)) by (apply Z.pow_pos_nonneg; lia).
    destruct (Z.eqb_spec (2 ^ (7 - col)) 0); [lia|done].
  - assert (col = 0 ∨ col = 1 ∨ col = 2 ∨ col = 3 ∨ col = 4 ∨ col = 5 ∨ col = 6 ∨ col = 7)
      as [->|[->|[->|[->|[->|[->|[->| ->]]]]]]] by lia; reflexivity.
Qed.

Lemma draw_inv_ext c D D' c0 :
  draw_inv c D c0 →
  (∀ y x, 0 ≤ y < 32 → 0 ≤ x < 64 → D y x = D' y x) →
  draw_inv c D' c0.
Proof.
  intros (HWF & Hframe & Hpix & fl & HV & Hfl) Hext.
  split_and!; [done..| |].
  - intros y x Hy Hx. rewrite <- Hext by done. by apply Hpix.
  - exists fl. split; [done|]. rewrite Hfl. split.
    + intros (y & x & Hy & Hx & HD & Hlit). exists y, x. by rewrite <- Hext.
    + intros (y & x & Hy & Hx & HD & Hlit). exists y, x. by rewrite Hext.
Qed.

Lemma pixel_lit c c0 D y x :
  draw_inv c D c0 → 0 ≤ y < 32 → 0 ≤ x < 64 → D y x = false →
  pixel c0 y x = Some (lit c y x).
Proof.
  intros (_ & _ & Hpix & _) Hy Hx HD. rewrite Hpix by done.
  by rewrite HD, xorb_false_r.
Qed.

Lemma draw_cell_spec c x0 y0 r col s c1 :
  WF c → 0 ≤ x0 → 0 ≤ y0 → 0 ≤ r → y0 + r < 32 → 0 ≤ col < 8 → x0 + col < 64 →
  index (Memory c) (u16 (I c + r)) = Some s →
  draw_inv c (drawn c x0 y0 r col) c1 →
  ensures
    ((if negb (Z.land s (Z.shiftr SpriteLeftBit col) =? 0) then
        p ← readPixel (u16 (y0 + r)) (u16 (x0 + col));
        (if p : bool then writeV VFRegister 1 else mret tt) ;;
        p ← readPixel (u16 (y0 + r)) (u16 (x0 + col));
        writePixel (u16 (y0 + r)) (u16 (x0 + col)) (negb p)
      else mret tt) ;;
     next) c1
    (λ b c2, if b : bool then draw_inv c (drawn c x0 y0 r (col + 1)) c2
             else draw_inv c (sprite_at c x0 y0 (r + 1)) c2).
Proof.
  intros HWF Hx0 Hy0 Hr Hrow Hcol Hfit Hs Hinv.
  assert (sprite_bit c r col = Z.testbit s (7 - col)) as Hbit.
  { unfold sprite_bit. by rewrite Hs. }
  rewrite sprite_bit_test, <- Hbit by done.
  rewrite !u16_small by lia.
  apply ensures_bind.
  destruct (sprite_bit c r col) eqn:Hset.
  - pose proof (pixel_lit _ _ _ (y0 + r) (x0 + col) Hinv ltac:(lia) ltac:(lia)
                  (drawn_fresh _ _ _ _ _)) as Hp.
    destruct Hinv as (HWF1 & Hframe & Hpix & fl & HV & Hfl).
    set (p := lit c (y0 + r) (x0 + col)) in *.
    apply ensures_bind, (ensures_readPixel _ _ _ p); [done|].
    apply ensures_bind.
    apply (ensures_mono _ _
             (λ _ c2, WF c2 ∧ c2 = with_V (V c2) c1 ∧
                      V c2 = <[15%nat := if fl || p then 1 else 0]> (V c))).
    { destruct p.
      - apply ensures_writeV; [rewrite (WF_V _ HWF1); done|].
        split_and!; [by apply WF_with_V|done|]. simpl.
        rewrite HV, orb_true_r. apply list_insert_insert_eq.
      - apply ensures_ret. split_and!; [done|apply with_V_id|].
        by rewrite orb_false_r. }
    intros _ c2 (HWF2 & Hc2 & HV2).
    assert (∀ y x, pixel c2 y x = pixel c1 y x) as Hpix2.
    { intros y x. by rewrite Hc2. }
    apply ensures_bind, (ensures_readPixel _ _ _ p); [by rewrite Hpix2|].
    destruct (Display_row c2 (y0 + r) HWF2 ltac:(lia)) as (row & Hget & Hlen).
    apply (ensures_writePixel _ _ _ _ row); [done|lia|].
    apply ensures_next.
    split_and!.
    + by apply WF_with_Display.
    + simpl. rewrite Hc2. simpl. rewrite Hframe. reflexivity.
    + intros y x Hy Hx. rewrite pixel_insert by (done || lia).
      rewrite drawn_step, Hset, andb_true_r by lia.
      case_decide as Hd.
      * destruct Hd as [-> ->]. rewrite !Z.eqb_refl, orb_true_r.
        fold p. by destruct p.
      * rewrite Hpix2, Hpix by done. f_equal. f_equal.
        destruct (Z.eqb_spec y (y0 + r)), (Z.eqb_spec x (x0 + col));
          simpl; rewrite ?orb_false_r; try done.
        by destruct Hd.
    + exists (fl || p). split; [done|].
      rewrite orb_True, Hfl. split.
      * intros [(y & x & Hy & Hx & HD & Hlit)|Hp'].
        -- exists y, x. split; [done|]. split; [done|]. split; [|done].
           rewrite drawn_step by lia. apply orb_True. by left.
        -- exists (y0 + r), (x0 + col).
           split; [lia|]. split; [lia|]. split; [|done].
           rewrite drawn_step, Hset, !Z.eqb_refl by lia. by rewrite orb_true_r.
      * intros (y & x & Hy & Hx & HD & Hlit).
        rewrite drawn_step, Hset, andb_true_r in HD by lia.
        apply orb_True in HD as [HD|HD].
        -- left. by exists y, x.
        -- right. apply andb_True in HD as [->%eqb_True ->%eqb_True]. done.
  - apply ensures_ret, ensures_next.
    eapply draw_inv_ext; [done|].
    intros y x _ _. by rewrite drawn_step, Hset, andb_false_r, orb_false_r by lia.
Qed.

Lemma draw_row_spec c x0 y0 r s c1 :
  WF c → 0 ≤ x0 < 64 → 0 ≤ y0 → 0 ≤ r → y0 + r < 32 →
  index (Memory c) (u16 (I c + r)) = Some s →
  draw_inv c (sprite_at c x0 y0 r) c1 →
  ensures
    (for_range 0 SpriteWidth (λ col,
       if DisplayWidth <=? u16 (x0 + col) then break
       else
         (if negb (Z.land s (Z.shiftr SpriteLeftBit col) =? 0) then
            p ← readPixel (u16 (y0 + r)) (u16 (x0 + col));
            (if p : bool then writeV VFRegister 1 else mret tt) ;;
            p ← readPixel (u16 (y0 + r)) (u16 (x0 + col));
            writePixel (u16 (y0 + r)) (u16 (x0 + col)) (negb p)
          else mret tt) ;;
         next)) c1
    (λ _ c2, draw_inv c (sprite_at c x0 y0 (r + 1)) c2).
Proof.
  intros HWF Hx0 Hy0 Hr Hrow Hs Hinv.
  apply (ensures_for_range (λ col, draw_inv c (drawn c x0 y0 r col))
                           (draw_inv c (sprite_at c x0 y0 (r + 1)))).
  - done.
  - eapply draw_inv_ext; [done|]. intros y x _ _. by rewrite drawn_0.
  - intros col c0 Hcol Hinv0. unfold SpriteWidth in Hcol.
    rewrite (u16_small (x0 + col)) by lia. unfold DisplayWidth.
    destruct (Z.leb_spec 64 (x0 + col)) as [Hclip|Hfit].
    + apply ensures_break. eapply draw_inv_ext; [done|].
      intros y x _ Hx. apply drawn_full; [done|]. right. lia.
    + rewrite <- (u16_small (x0 + col)) by lia.
      apply draw_cell_spec; (done || lia).
  - intros c0 Hinv0. eapply draw_inv_ext; [done|].
    intros y x _ _. apply drawn_full; [done|]. by left.
Qed.

Lemma collision_spec c x0 y0 h :
  collision c x0 y0 h ↔
  ∃ y x, 0 ≤ y < 32 ∧ 0 ≤ x < 64 ∧ sprite_at c x0 y0 h y x ∧ lit c y x.
Proof.
  unfold collision. rewrite existb_True, Exists_exists. split.
  - intros (y & Hy%elem_of_seqZ & (x & Hx%elem_of_seqZ & H%andb_True)%existb_True%Exists_exists).
    exists y, x. unfold DisplayHeight, DisplayWidth in *.
    split; [lia|]. split; [lia|]. done.
  - intros (y & x & Hy & Hx & Hs & Hl). exists y. split.
    + apply elem_of_seqZ. unfold DisplayHeight. lia.
    + apply existb_True, Exists_exists. exists x. split.
      * apply elem_of_seqZ. unfold DisplayWidth. lia.
      * by apply andb_True.
Qed.

Lemma draw_inv_init c x0 y0 :
  WF c → draw_inv c (sprite_at c x0 y0 0) (with_V (<[15%nat := 0]> (V c)) c).
Proof.
  intros HWF. split_and!.
  - by apply WF_with_V.
  - simpl. apply with_Display_id.
  - intros y x Hy Hx. rewrite sprite_at_0, xorb_false_r.
    destruct (pixel_is_Some c y x HWF Hy Hx) as [p Hp].
    unfold lit.
    change (pixel (with_V (<[15%nat := 0]> (V c)) c) y x) with (pixel c y x).
    by rewrite Hp.
  - exists false. split; [done|]. split; [done|].
    intros (y & x & _ & _ & HD & _). by rewrite sprite_at_0 in HD.
Qed.

Lemma op_DRW_spec opcode c vx vy :
  WF c →
  index (V c) (Xreg opcode) = Some vx →
  index (V c) (Yreg opcode) = Some vy →
  let x0 := vx mod 64 in
  let y0 := vy mod 32 in
  let height := Z.land opcode NibbleMask in
  (∀ row, 0 ≤ row < height → y0 + row < 32 → u16 (I c + row) < 4096) →
  ensures (op_DRW opcode) c
    (λ _ c', WF c' ∧
             c' = with_DrawFlag true (with_V (V c') (with_Display (Display c') c)) ∧
             V c' = <[15%nat := if collision c x0 y0 height then 1 else 0]> (V c) ∧
             ∀ y x, 0 ≤ y < 32 → 0 ≤ x < 64 →
                    pixel c' y x = Some (xorb (lit c y x) (sprite_at c x0 y0 height y x))).
Proof.
  intros HWF Hvx Hvy x0 y0 height Hmem.
  assert (0 ≤ x0 < 64) as Hx0 by (apply Z.mod_pos_bound; lia).
  assert (0 ≤ y0 < 32) as Hy0 by (apply Z.mod_pos_bound; lia).
  pose proof (nibble_range opcode) as Hh. fold height in Hh.
  unfold op_DRW. cbv zeta.
  apply ensures_bind, (ensures_readV _ _ vx); [done|].
  apply ensures_bind, (ensures_readV _ _ vy); [done|].
  apply ensures_bind, ensures_writeV; [by rewrite (WF_V _ HWF)|].
  change (vx mod DisplayWidth) with x0. change (vy mod DisplayHeight) with y0.
  fold height. change (Z.to_nat VFRegister) with 15%nat.
  set (c0 := with_V _ c).
  pose proof (draw_inv_init c x0 y0 HWF) as Hinit. fold c0 in Hinit.
  apply ensures_bind.
  apply (ensures_mono _ _ (λ _, draw_inv c (sprite_at c x0 y0 height))).
  - apply (ensures_for_range (λ r, draw_inv c (sprite_at c x0 y0 r))); [lia|done| |done].
    intros r c1 Hr Hinv. rewrite (u16_small (y0 + r)) by lia.
    unfold DisplayHeight.
    destruct (Z.leb_spec 32 (y0 + r)) as [Hclip|Hfit].
    + apply ensures_break. eapply draw_inv_ext; [done|].
      intros y x Hy _. apply sprite_at_clip; lia.
    + pose proof Hinv as (HWF1 & Hframe & _).
      assert (I c1 = I c) as HI by (by rewrite Hframe).
      assert (Memory c1 = Memory c) as HM by (by rewrite Hframe).
      destruct (index_is_Some (Memory c) (u16 (I c + r))) as [s Hs].
      { rewrite (WF_Mem _ HWF). split; [apply u16_range|]. apply Hmem; lia. }
      apply ensures_bind, (ensures_eq _ _ (I c) c1); [unfold getI; by rewrite HI|].
      apply ensures_bind, (ensures_readMem _ _ s); [by rewrite HM|].
      apply ensures_bind.
      eapply ensures_mono.
      * rewrite <- (u16_small (y0 + r)) by lia.
        apply (draw_row_spec c x0 y0 r s); (done || lia).
      * intros ? c2 Hinv2. by apply ensures_next.
  - intros _ c1 (HWF1 & Hframe & Hpix & fl & HV & Hfl).
    apply (ensures_eq _ _ tt (with_DrawFlag true c1)); [done|].
    split_and!.
    + by apply WF_with_DrawFlag.
    + simpl. by rewrite Hframe.
    + simpl. rewrite HV. rewrite <- collision_spec in Hfl.
      destruct fl, (collision c x0 y0 height); try done;
        [destruct Hfl as [H _]|destruct Hfl as [_ H]]; exfalso; by apply H.
    + intros y x Hy Hx. by apply Hpix.
Qed.

Lemma execute_DRW rnd opcode :
  Z.land opcode 0xF000 = 0xD000 → execute rnd opcode = op_DRW opcode.
Proof. intros H. dispatch H. Qed.

(** One cycle on a draw instruction. *)
Lemma DRW_cycle rnd c opcode vx vy :
  WF c →
  opcode_at c = Some opcode → Z.land opcode 0xF000 = 0xD000 →
  index (V c) (Xreg opcode) = Some vx →
  index (V c) (Yreg opcode) = Some vy →
  let x0 := vx mod 64 in
  let y0 := vy mod 32 in
  let height := Z.land opcode NibbleMask in
  (∀ row, 0 ≤ row < height → y0 + row < 32 → u16 (I c + row) < 4096) →
  ∃ c', EmulateCycle rnd c = Some (tt, c') ∧ WF c' ∧
        c' = with_DrawFlag true
               (with_V (V c') (with_Display (Display c') (with_PC (PC c + 2) c))) ∧
        V c' = <[15%nat := if collision c x0 y0 height then 1 else 0]> (V c) ∧
        ∀ y x, 0 ≤ y < 32 → 0 ≤ x < 64 →
               pixel c' y x = Some (xorb (lit c y x) (sprite_at c x0 y0 height y x)).
Proof.
  intros HWF Hop Hpat Hvx Hvy x0 y0 height Hmem.
  pose proof (opcode_at_PC _ _ HWF Hop) as HPC.
  rewrite (EmulateCycle_execute _ _ _ HWF Hop), (execute_DRW _ _ Hpat).
  destruct (op_DRW_spec opcode (with_PC (PC c + 2) c) vx vy) as ([] & c' & Hrun & H);
    [solve_WF|done..|].
  by exists c'.
Qed.

(** C7 (as amended): when every sprite row that is not clipped at the
    bottom edge is read from inside the memory, the draw instruction lays
    the sprite of [height] rows, read from memory at the index register,
    with its top-left corner at (register-x mod 64, register-y mod 32).
    Every display cell under a set sprite pixel is flipped and every other
    cell is kept, so that what falls beyond the right or the bottom edge is
    dropped and nothing reappears at the opposite edge; register 15 is 1 if
    a set cell was flipped, else 0; the draw flag is set. *)
Theorem DRW_draws_clipped_sprite rnd c opcode vx vy :
  wf c →
  opcode_at c = Some opcode → Z.land opcode 0xF000 = 0xD000 →
  index (V c) (Xreg opcode) = Some vx →
  index (V c) (Yreg opcode) = Some vy →
  let x0 := vx mod 64 in
  let y0 := vy mod 32 in
  let height := Z.land opcode NibbleMask in
  (∀ row, 0 ≤ row < height → y0 + row < 32 → u16 (I c + row) < 4096) →
  ∃ c', EmulateCycle rnd c = Some (tt, c') ∧
        (∀ y x, 0 ≤ y < 32 → 0 ≤ x < 64 →
                pixel c' y x = Some (xorb (lit c y x) (sprite_at c x0 y0 height y x))) ∧
        (∀ y x, 0 ≤ y < 32 → 0 ≤ x < 64 → y < y0 ∨ x < x0 →
                pixel c' y x = pixel c y x) ∧
        index (V c') VFRegister = Some (if collision c x0 y0 height then 1 else 0) ∧
        DrawFlag c' = true.
Proof.
  intros HWF%wf_WF Hop Hpat Hvx Hvy x0 y0 height Hmem.
  destruct (DRW_cycle rnd c opcode vx vy HWF Hop Hpat Hvx Hvy Hmem)
    as (c' & Hrun & HWF' & Hframe & HV & Hpix).
  exists c'. split; [done|]. split; [done|]. split; [|split].
  - intros y x Hy Hx Hout. rewrite Hpix by done.
    destruct (pixel_is_Some c y x HWF Hy Hx) as [p Hp].
    assert (sprite_at c x0 y0 height y x = false) as Hs.
    { unfold sprite_at. destruct Hout; cmp. }
    subst x0 y0 height. rewrite Hs. unfold lit. rewrite Hp. by destruct p.
  - rewrite HV. apply (index_insert_eq (V c) 15). by rewrite (WF_V _ HWF).
  - by rewrite Hframe.
Qed.

Lemma DRW_draws_clipped_sprite_witness :
  ∃ c, started [0x60; 0x3C; 0x61; 0x1E; 0xD0; 0x15] 2 = Some c ∧
       let x0 := 60 mod 64 in
       let y0 := 30 mod 32 in
       let height := Z.land 0xD015 NibbleMask in
       wf c ∧ opcode_at c = Some 0xD015 ∧ Z.land 0xD015 0xF000 = 0xD000 ∧
       index (V c) (Xreg 0xD015) = Some 60 ∧
       index (V c) (Yreg 0xD015) = Some 30 ∧
       (∀ row, 0 ≤ row < height → y0 + row < 32 → u16 (I c + row) < 4096) ∧
       ∃ c', EmulateCycle 0 c = Some (tt, c') ∧
             (∀ y x, 0 ≤ y < 32 → 0 ≤ x < 64 →
                     pixel c' y x
                     = Some (xorb (lit c y x) (sprite_at c x0 y0 height y x))) ∧
             (∀ y x, 0 ≤ y < 32 → 0 ≤ x < 64 → y < y0 ∨ x < x0 →
                     pixel c' y x = pixel c y x) ∧
             index (V c') VFRegister
             = Some (if collision c x0 y0 height then 1 else 0) ∧
             DrawFlag c' = true.
Proof.
  eexists. split; [boot|].
  set (c := mkChip8 _ _ _ _ _ _ _ _ _ _ _). intros x0 y0 height.
  assert (∀ row, 0 ≤ row < height → y0 + row < 32 → u16 (I c + row) < 4096) as Hmem.
  { intros row Hrow _. change height with 5 in Hrow. change (I c) with 0.
    rewrite u16_small; lia. }
  split_and!; [by vm_compute|reflexivity..|exact Hmem|].
  apply (DRW_draws_clipped_sprite 0 c 0xD015 60 30);
    [by vm_compute|reflexivity..|exact Hmem].
Defined.

(** C7 (as stated) fails when a sprite row that is not clipped lies beyond
    the memory: the index register is 4095 and [D012] draws two rows at
    (0, 0).  The second row is inside the display and is read from memory
    cell 4096, which does not exist: the cycle aborts, whatever the random
    source, so that no state results in which the sprite is drawn and the
    draw flag set. *)
Lemma DRW_sprite_beyond_memory :
  ∃ c,
    started [0xAF; 0xFF; 0xD0; 0x12] 1 = Some c ∧
    wf c ∧
    opcode_at c = Some 0xD012 ∧
    Z.land 0xD012 0xF000 = 0xD000 ∧
    Z.land 0xD012 NibbleMask = 2 ∧
    index (V c) (Xreg 0xD012) = Some 0 ∧
    index (V c) (Yreg 0xD012) = Some 0 ∧
    I c = 4095 ∧
    0 mod 32 + 1 < DisplayHeight ∧
    index (Memory c) (u16 (I c + 1)) = None ∧
    (∀ rnd, EmulateCycle rnd c = None) ∧
    ¬ ∃ rnd c', EmulateCycle rnd c = Some (tt, c') ∧ DrawFlag c' = true.
Proof.
  eexists. split; [boot|].
  set (c := mkChip8 _ _ _ _ _ _ _ _ _ _ _).
  assert (∀ rnd, EmulateCycle rnd c = None) as Habort.
  { intros rnd. vm_compute. reflexivity. }
  split; [by vm_compute|]. split; [reflexivity|]. split; [reflexivity|].
  split; [reflexivity|]. split; [reflexivity|]. split; [reflexivity|].
  split; [reflexivity|]. split; [done|]. split; [reflexivity|].
  split; [exact Habort|].
  intros (rnd & c' & Hrun & _). by rewrite Habort in Hrun.
Qed.

(** ** The same sprite drawn twice *)

Lemma bool_ext (b1 b2 : bool) : (b1 ↔ b2) → b1 = b2.
Proof. destruct b1, b2; intros [H1 H2]; try done; exfalso; by (apply H1 || apply H2). Qed.

Lemma visible_spec c x0 y0 h :
  visible c x0 y0 h ↔ ∃ y x, 0 ≤ y < 32 ∧ 0 ≤ x < 64 ∧ sprite_at c x0 y0 h y x.
Proof.
  unfold visible. rewrite existb_True, Exists_exists. split.
  - intros (y & Hy%elem_of_seqZ & (x & Hx%elem_of_seqZ & H)%existb_True%Exists_exists).
    exists y, x. unfold DisplayHeight, DisplayWidth in *.
    split; [lia|]. split; [lia|]. done.
  - intros (y & x & Hy & Hx & Hs). exists y. split.
    + apply elem_of_seqZ. unfold DisplayHeight. lia.
    + apply existb_True, Exists_exists. exists x. split; [|done].
      apply elem_of_seqZ. unfold DisplayWidth. lia.
Qed.

(** The sprite is read from the memory at the index register. *)
Lemma sprite_at_ext c c' x0 y0 h y x :
  Memory c' = Memory c → I c' = I c →
  sprite_at c' x0 y0 h y x = sprite_at c x0 y0 h y x.
Proof. intros HM HI. unfold sprite_at, sprite_bit. by rewrite HM, HI. Qed.

(** Nothing collides on a cleared display. *)
Lemma collision_cleared c x0 y0 h :
  (∀ y x, 0 ≤ y < 32 → 0 ≤ x < 64 → pixel c y x = Some false) →
  collision c x0 y0 h = false.
Proof.
  intros Hclear. apply bool_ext. rewrite collision_spec. split; [|done].
  intros (y & x & Hy & Hx & _ & Hlit). unfold lit in Hlit.
  by rewrite Hclear in Hlit.
Qed.

(** C8 (as amended): on a cleared display, a single-row draw executed
    twice at the same coordinates leaves register 15 at 0 after the first
    draw; after the second, register 15 is 1 if the sprite row has a set
    pixel inside the display and 0 if it has none, and every display cell
    is unset again. *)
Theorem DRW_twice_restores rnd rnd' c opcode vx vy :
  wf c →
  (∀ y x, 0 ≤ y < 32 → 0 ≤ x < 64 → pixel c y x = Some false) →
  opcode_at c = Some opcode →
  opcode_at (with_PC (PC c + 2) c) = Some opcode →
  Z.land opcode 0xF00F = 0xD001 →
  index (V c) (Xreg opcode) = Some vx →
  index (V c) (Yreg opcode) = Some vy →
  (Xreg opcode = VFRegister → vx mod 64 = 0) →
  (Yreg opcode = VFRegister → vy mod 32 = 0) →
  I c < 4096 →
  ∃ c1 c2,
    EmulateCycle rnd c = Some (tt, c1) ∧
    index (V c1) VFRegister = Some 0 ∧
    EmulateCycle rnd' c1 = Some (tt, c2) ∧
    index (V c2) VFRegister
    = Some (if visible c (vx mod 64) (vy mod 32) 1 then 1 else 0) ∧
    (∀ y x, 0 ≤ y < 32 → 0 ≤ x < 64 → pixel c2 y x = Some false).
Proof.
  intros HWF%wf_WF Hclear Hop Hop2 Hpat Hvx Hvy Hsamex Hsamey HI.
  pose proof (land_submask _ _ _ OpcodeMask Hpat eq_refl) as Hclass.
  pose proof (land_submask _ _ _ NibbleMask Hpat eq_refl) as Hheight.
  change (Z.land 0xD001 OpcodeMask) with 0xD000 in Hclass.
  change (Z.land 0xD001 NibbleMask) with 1 in Hheight.
  pose proof (WF_I _ HWF) as HI0. pose proof (WF_V _ HWF) as HV0.
  pose proof (Xreg_range opcode) as HX. pose proof (Yreg_range opcode) as HY.
  assert (∀ i row, i = I c → 0 ≤ row < Z.land opcode NibbleMask →
                   u16 (i + row) < 4096) as Hmem.
  { intros i row -> Hrow. rewrite Hheight in Hrow.
    replace row with 0 by lia. rewrite u16_small; lia. }
  destruct (DRW_cycle rnd c opcode vx vy HWF Hop Hclass Hvx Hvy)
    as (c1 & Hrun1 & HWF1 & Hframe1 & HV1 & Hpix1).
  { intros row Hrow _. by apply Hmem. }
  rewrite collision_cleared in HV1 by done.
  rewrite Hheight in Hpix1.
  assert (Memory c1 = Memory c) as HM1 by (by rewrite Hframe1).
  assert (I c1 = I c) as HI1 by (by rewrite Hframe1).
  assert (opcode_at c1 = Some opcode) as Hop1.
  { rewrite <- Hop2. apply opcode_at_ext; by rewrite Hframe1. }
  assert (∃ vx', index (V c1) (Xreg opcode) = Some vx' ∧ vx' mod 64 = vx mod 64)
    as (vx' & Hvx' & Hx0).
  { rewrite HV1. destruct (Z.eq_dec (Xreg opcode) 15) as [E|Hne].
    - exists 0. rewrite E. split; [apply (index_insert_eq (V c) 15); lia|].
      by rewrite Hsamex.
    - exists vx. split; [|done]. by rewrite (index_insert_ne (V c) 15) by lia. }
  assert (∃ vy', index (V c1) (Yreg opcode) = Some vy' ∧ vy' mod 32 = vy mod 32)
    as (vy' & Hvy' & Hy0).
  { rewrite HV1. destruct (Z.eq_dec (Yreg opcode) 15) as [E|Hne].
    - exists 0. rewrite E. split; [apply (index_insert_eq (V c) 15); lia|].
      by rewrite Hsamey.
    - exists vy. split; [|done]. by rewrite (index_insert_ne (V c) 15) by lia. }
  destruct (DRW_cycle rnd' c1 opcode vx' vy' HWF1 Hop1 Hclass Hvx' Hvy')
    as (c2 & Hrun2 & HWF2 & Hframe2 & HV2 & Hpix2).
  { intros row Hrow _. apply Hmem; done. }
  rewrite Hheight, Hx0, Hy0 in HV2, Hpix2.
  assert (∀ y x, 0 ≤ y < 32 → 0 ≤ x < 64 →
                 lit c1 y x = sprite_at c (vx mod 64) (vy mod 32) 1 y x) as Hlit1.
  { intros y x Hy Hx. unfold lit at 1. rewrite Hpix1 by done. simpl.
    unfold lit. by rewrite Hclear. }
  exists c1, c2. split; [done|]. split.
  { rewrite HV1. apply (index_insert_eq (V c) 15). lia. }
  split; [done|]. split.
  - rewrite HV2. rewrite (index_insert_eq (V c1) 15) by (rewrite (WF_V _ HWF1); lia).
    assert (collision c1 (vx mod 64) (vy mod 32) 1
            = visible c (vx mod 64) (vy mod 32) 1) as ->; [|done].
    apply bool_ext. rewrite collision_spec, visible_spec.
    split.
    + intros (y & x & Hy & Hx & Hs & _). exists y, x.
      by rewrite <- (sprite_at_ext c c1).
    + intros (y & x & Hy & Hx & Hs). exists y, x.
      rewrite (sprite_at_ext c c1), Hlit1 by done. done.
  - intros y x Hy Hx.
    rewrite Hpix2, (sprite_at_ext c c1), Hlit1 by done.
    by rewrite xorb_nilpotent.
Qed.

Lemma pixel_cleared c :
  Display c = replicate 32%nat (replicate 64%nat false) →
  ∀ y x, 0 ≤ y < 32 → 0 ≤ x < 64 → pixel c y x = Some false.
Proof.
  intros HD y x Hy Hx. unfold pixel. rewrite HD.
  rewrite index_replicate by lia.
  change (index (replicate 64%nat false) x = Some false).
  apply index_replicate. lia.
Qed.

Lemma DRW_twice_restores_witness :
  ∃ c, started [0xD0; 0x11; 0xD0; 0x11] 0 = Some c ∧
       wf c ∧
       (∀ y x, 0 ≤ y < 32 → 0 ≤ x < 64 → pixel c y x = Some false) ∧
       opcode_at c = Some 0xD011 ∧
       opcode_at (with_PC (PC c + 2) c) = Some 0xD011 ∧
       Z.land 0xD011 0xF00F = 0xD001 ∧
       index (V c) (Xreg 0xD011) = Some 0 ∧
       index (V c) (Yreg 0xD011) = Some 0 ∧
       (Xreg 0xD011 = VFRegister → 0 mod 64 = 0) ∧
       (Yreg 0xD011 = VFRegister → 0 mod 32 = 0) ∧
       I c < 4096 ∧
       ∃ c1 c2,
         EmulateCycle 0 c = Some (tt, c1) ∧
         index (V c1) VFRegister = Some 0 ∧
         EmulateCycle 0 c1 = Some (tt, c2) ∧
         index (V c2) VFRegister
         = Some (if visible c (0 mod 64) (0 mod 32) 1 then 1 else 0) ∧
         (∀ y x, 0 ≤ y < 32 → 0 ≤ x < 64 → pixel c2 y x = Some false).
Proof.
  eexists. split; [boot|].
  set (c := mkChip8 _ _ _ _ _ _ _ _ _ _ _).
  assert (∀ y x, 0 ≤ y < 32 → 0 ≤ x < 64 → pixel c y x = Some false) as Hclear.
  { by apply pixel_cleared. }
  split; [by vm_compute|]. split; [exact Hclear|].
  split; [reflexivity|]. split; [reflexivity|]. split; [reflexivity|].
  split; [reflexivity|]. split; [reflexivity|].
  split; [done|]. split; [done|]. split; [by vm_compute|].
  apply (DRW_twice_restores 0 0 c 0xD011 0 0);
    [by vm_compute|exact Hclear|reflexivity..|done|done|by vm_compute].
Defined.

(** C8 (as stated) fails for a sprite row with no set pixel: the index
    register points at a zero byte, [D011] is executed twice on a cleared
    display, and register 15 is 0 after the second draw, where the claim
    puts 1. *)
Lemma DRW_twice_empty_sprite :
  ∃ c c1 c2,
    started [0xA3; 0x00; 0xD0; 0x11; 0xD0; 0x11] 1 = Some c ∧
    Display c = replicate 32%nat (replicate 64%nat false) ∧
    opcode_at c = Some 0xD011 ∧
    EmulateCycle 0 c = Some (tt, c1) ∧
    index (V c1) VFRegister = Some 0 ∧
    opcode_at c1 = Some 0xD011 ∧
    index (V c1) (Xreg 0xD011) = index (V c) (Xreg 0xD011) ∧
    index (V c1) (Yreg 0xD011) = index (V c) (Yreg 0xD011) ∧
    EmulateCycle 0 c1 = Some (tt, c2) ∧
    index (V c2) VFRegister = Some 0 ∧
    index (V c2) VFRegister ≠ Some 1.
Proof.
  eexists. eexists. eexists. split; [boot|].
  split; [reflexivity|]. split; [reflexivity|].
  split; [vm_compute; reflexivity|]. split; [reflexivity|].
  split; [reflexivity|]. split; [reflexivity|]. split; [reflexivity|].
  split; [vm_compute; reflexivity|]. split; [reflexivity|]. done.
Qed.

(** ** Rules for invariance *)

Lemma keeps_ret {A} (a : A) (R : A → Prop) : R a → keeps (mret a) R.
Proof. intros HR c a' c' HWF [= <- <-]. done. Qed.

Lemma keeps_unit : keeps (mret tt) (λ _, True).
Proof. by apply keeps_ret. Qed.

Lemma keeps_next : keeps next (λ _, True).
Proof. by apply keeps_ret. Qed.

Lemma keeps_break : keeps break (λ _, True).
Proof. by apply keeps_ret. Qed.

Lemma keeps_bind {A B} (m : M A) (k : A → M B) R R' :
  keeps m R → (∀ a, R a → keeps (k a) R') → keeps (m ≫= k) R'.
Proof.
  intros Hm Hk c b c' HWF (a & c1 & H1 & H2)%bind_inv.
  destruct (Hm _ _ _ HWF H1) as [HWF1 HR]. by eapply Hk.
Qed.

Lemma keeps_get {A} (f : Chip8 → option A) (R : A → Prop) :
  (∀ c a, WF c → f c = Some a → R a) → keeps (get f) R.
Proof.
  intros Hf c a c' HWF. unfold get. destruct (f c) eqn:E; [|done].
  intros [= <- <-]. eauto.
Qed.

Lemma keeps_put (f : Chip8 → option Chip8) :
  (∀ c c', WF c → f c = Some c' → WF c') → keeps (put f) (λ _, True).
Proof.
  intros Hf c a c' HWF. unfold put. destruct (f c) eqn:E; [|done].
  intros [= <- <-]. eauto.
Qed.

Lemma assign_inv {A} (a : list A) i v a' :
  assign a i v = Some a' → a' = <[Z.to_nat i := v]> a.
Proof. unfold assign. case_match; [|done]. by intros [= <-]. Qed.

Lemma keeps_readV x : keeps (readV x) (λ v, 0 ≤ v < 256).
Proof. apply keeps_get. intros c v HWF. by apply V_byte. Qed.

Lemma keeps_writeV x v : 0 ≤ v < 256 → keeps (writeV x v) (λ _, True).
Proof.
  intros Hv. apply keeps_put. intros c c' HWF.
  destruct (assign (V c) x v) eqn:E; [|done]. intros [= <-].
  rewrite (assign_inv _ _ _ _ E). by apply WF_with_V.
Qed.

Lemma keeps_readMem a : keeps (readMem a) (λ v, 0 ≤ v < 256).
Proof. apply keeps_get. intros c v HWF. by apply Memory_byte. Qed.

Lemma keeps_writeMem a v : 0 ≤ v < 256 → keeps (writeMem a v) (λ _, True).
Proof.
  intros Hv. apply keeps_put. intros c c' HWF.
  destruct (assign (Memory c) a v) eqn:E; [|done]. intros [= <-].
  rewrite (assign_inv _ _ _ _ E). by apply WF_with_Memory.
Qed.

Lemma keeps_readStack i : keeps (readStack i) (λ v, 0 ≤ v < 65536).
Proof. apply keeps_get. intros c v HWF. by apply Stack_word. Qed.

Lemma keeps_writeStack i v : 0 ≤ v < 65536 → keeps (writeStack i v) (λ _, True).
Proof.
  intros Hv. apply keeps_put. intros c c' HWF.
  destruct (assign (Stack c) i v) eqn:E; [|done]. intros [= <-].
  rewrite (assign_inv _ _ _ _ E). by apply WF_with_Stack.
Qed.

Lemma keeps_readKey i : keeps (readKey i) (λ _, True).
Proof. by apply keeps_get. Qed.

Lemma keeps_readPixel y x : keeps (readPixel y x) (λ _, True).
Proof. by apply keeps_get. Qed.

Lemma keeps_writePixel y x b : keeps (writePixel y x b) (λ _, True).
Proof.
  apply keeps_put. intros c c' HWF.
  destruct (index (Display c) y) as [row|] eqn:Hrow; [|done]. simpl.
  destruct (assign row x b) as [row'|] eqn:E; [|done]. simpl.
  destruct (assign (Display c) y row') as [d|] eqn:E'; [|done]. intros [= <-].
  rewrite (assign_inv _ _ _ _ E'), (assign_inv _ _ _ _ E).
  apply WF_with_Display; [done|].
  by apply (index_Forall _ _ _ _ (WF_Disprow _ HWF) Hrow).
Qed.

Lemma keeps_getI : keeps getI (λ v, 0 ≤ v < 65536).
Proof. intros c a c' HWF [= <- <-]. split; [done|]. apply (WF_I _ HWF). Qed.

Lemma keeps_getPC : keeps getPC (λ v, 0 ≤ v < 65536).
Proof. intros c a c' HWF [= <- <-]. split; [done|]. apply (WF_PC _ HWF). Qed.

Lemma keeps_getSP : keeps getSP (λ v, 0 ≤ v < 256).
Proof. intros c a c' HWF [= <- <-]. split; [done|]. apply (WF_SP _ HWF). Qed.

Lemma keeps_getDT : keeps getDT (λ v, 0 ≤ v < 256).
Proof. intros c a c' HWF [= <- <-]. split; [done|]. apply (WF_DT _ HWF). Qed.

Lemma keeps_getST : keeps getST (λ v, 0 ≤ v < 256).
Proof. intros c a c' HWF [= <- <-]. split; [done|]. apply (WF_ST _ HWF). Qed.

Lemma keeps_setI v : 0 ≤ v < 65536 → keeps (setI v) (λ _, True).
Proof. intros Hv c a c' HWF [= <- <-]. split; [|done]. by apply WF_with_I. Qed.

Lemma keeps_setPC v : 0 ≤ v < 65536 → keeps (setPC v) (λ _, True).
Proof. intros Hv c a c' HWF [= <- <-]. split; [|done]. by apply WF_with_PC. Qed.

Lemma keeps_setSP v : 0 ≤ v < 256 → keeps (setSP v) (λ _, True).
Proof. intros Hv c a c' HWF [= <- <-]. split; [|done]. by apply WF_with_SP. Qed.

Lemma keeps_setDT v : 0 ≤ v < 256 → keeps (setDT v) (λ _, True).
Proof. intros Hv c a c' HWF [= <- <-]. split; [|done]. by apply WF_with_DT. Qed.

Lemma keeps_setST v : 0 ≤ v < 256 → keeps (setST v) (λ _, True).
Proof. intros Hv c a c' HWF [= <- <-]. split; [|done]. by apply WF_with_ST. Qed.

Lemma keeps_setDrawFlag f : keeps (setDrawFlag f) (λ _, True).
Proof. intros c a c' HWF [= <- <-]. split; [|done]. by apply WF_with_DrawFlag. Qed.

Lemma keeps_loop n i body :
  (∀ j, keeps (body j) (λ _, True)) → keeps (loop n i body) (λ _, True).
Proof.
  intros Hbody. revert i. induction n as [|n IH]; intros i; [apply keeps_unit|].
  simpl. eapply keeps_bind; [apply Hbody|].
  intros [] _; [apply IH|apply keeps_unit].
Qed.

Lemma keeps_for_range lo hi body :
  (∀ j, keeps (body j) (λ _, True)) → keeps (for_range lo hi body) (λ _, True).
Proof. apply keeps_loop. Qed.

(** ** Bytes stay bytes *)

Lemma byte_land_ones a : 0 ≤ a < 256 ↔ Z.land a (Z.ones 8) = a.
Proof.
  rewrite Z.land_ones by lia. split; [apply Z.mod_small|].
  intros <-. apply Z.mod_pos_bound. lia.
Qed.

Lemma byte_ops a b :
  0 ≤ a < 256 → 0 ≤ b < 256 →
  0 ≤ Z.lor a b < 256 ∧ 0 ≤ Z.land a b < 256 ∧ 0 ≤ Z.lxor a b < 256.
Proof.
  rewrite !byte_land_ones. intros Ha Hb. split_and!.
  - by rewrite Z.land_lor_distr_l, Ha, Hb.
  - by rewrite <- Z.land_assoc, Hb.
  - apply Z.bits_inj'. intros n Hn.
    pose proof (f_equal (λ z, Z.testbit z n) Ha) as Ha'.
    pose proof (f_equal (λ z, Z.testbit z n) Hb) as Hb'.
    cbv beta in Ha', Hb'. rewrite Z.land_spec in Ha', Hb'.
    rewrite Z.land_spec, !Z.lxor_spec.
    by destruct (Z.testbit a n), (Z.testbit b n), (Z.testbit (Z.ones 8) n).
Qed.

Lemma byte_shiftr a n : 0 ≤ a < 256 → 0 ≤ n → 0 ≤ Z.shiftr a n < 256.
Proof.
  intros Ha Hn. rewrite Z.shiftr_div_pow2 by done.
  assert (0 < 2 ^ n) by (by apply Z.pow_pos_nonneg).
  split; [apply Z.div_pos; lia|].
  apply Z.div_lt_upper_bound; [done|]. nia.
Qed.

Lemma byte_div a d : 0 ≤ a < 256 → 0 < d → 0 ≤ a / d < 256.
Proof.
  intros Ha Hd. split; [apply Z.div_pos; lia|].
  apply Z.div_lt_upper_bound; [done|]. nia.
Qed.

Lemma byte_mod a d : 0 < d ≤ 256 → 0 ≤ a mod d < 256.
Proof. intros Hd. pose proof (Z.mod_pos_bound a d). lia. Qed.

Ltac range :=
  lazymatch goal with
  | |- _ ≤ u8 ?z < _ => pose proof (u8_range z); lia
  | |- _ ≤ u16 ?z < _ => pose proof (u16_range z); lia
  | |- _ ≤ Z.lor _ _ < _ => by apply byte_ops
  | |- _ ≤ Z.lxor _ _ < _ => by apply byte_ops
  | |- _ ≤ Z.land _ AddressMask < _ =>
      match goal with |- _ ≤ Z.land ?op _ < _ => pose proof (address_range op); lia end
  | |- _ ≤ Z.land (u8 _) (u8 _) < _ => apply byte_ops; apply u8_range
  | |- _ ≤ Z.land _ _ < _ => by apply byte_ops
  | |- _ ≤ Z.shiftr _ _ < _ => by apply byte_shiftr
  | |- _ ≤ _ mod _ < _ => by apply byte_mod
  | |- _ ≤ _ / _ < _ => by apply byte_div
  | |- _ => (done || lia)
  end.

(** [invariance] walks through a method, one rule a step. *)
Ltac invariance :=
  lazymatch goal with
  | |- keeps (if ?b then _ else _) _ => destruct b; invariance
  | |- keeps (mbind _ _) _ => eapply keeps_bind; [invariance | intros; invariance]
  | |- keeps (mret tt) _ => apply keeps_unit
  | |- keeps next _ => apply keeps_next
  | |- keeps break _ => apply keeps_break
  | |- keeps (readV _) _ => apply keeps_readV
  | |- keeps (writeV _ _) _ => apply keeps_writeV; range
  | |- keeps (readMem _) _ => apply keeps_readMem
  | |- keeps (writeMem _ _) _ => apply keeps_writeMem; range
  | |- keeps (readStack _) _ => apply keeps_readStack
  | |- keeps (writeStack _ _) _ => apply keeps_writeStack; range
  | |- keeps (readKey _) _ => apply keeps_readKey
  | |- keeps (readPixel _ _) _ => apply keeps_readPixel
  | |- keeps (writePixel _ _ _) _ => apply keeps_writePixel
  | |- keeps getI _ => apply keeps_getI
  | |- keeps getPC _ => apply keeps_getPC
  | |- keeps getSP _ => apply keeps_getSP
  | |- keeps getDT _ => apply keeps_getDT
  | |- keeps getST _ => apply keeps_getST
  | |- keeps (setI _) _ => apply keeps_setI; range
  | |- keeps (setPC _) _ => apply keeps_setPC; range
  | |- keeps (setSP _) _ => apply keeps_setSP; range
  | |- keeps (setDT _) _ => apply keeps_setDT; range
  | |- keeps (setST _) _ => apply keeps_setST; range
  | |- keeps (setDrawFlag _) _ => apply keeps_setDrawFlag
  | |- keeps (for_range _ _ _) _ => apply keeps_for_range; intros; invariance
  | |- keeps skip _ => unfold skip; invariance
  end.

Lemma keeps_scan_keys n i x : keeps (scan_keys n i x) (λ _, True).
Proof.
  revert i. induction n as [|n IH]; intros i; simpl; [by apply keeps_ret|].
  eapply keeps_bind; [apply keeps_readKey|]. intros [] _; [|apply IH].
  eapply keeps_bind; [apply keeps_writeV, u8_range|]. intros. by apply keeps_ret.
Qed.

Lemma keeps_execute rnd opcode : keeps (execute rnd opcode) (λ _, True).
Proof.
  unfold execute.
  repeat lazymatch goal with
  | |- keeps (if ?b then _ else _) _ => destruct b
  end.
  all: try apply keeps_unit.
  all: unfold op_CLS, op_RET, op_JP, op_CALL, op_SE_byte, op_SNE_byte,
    op_SE_reg, op_LD_byte, op_ADD_byte, op_LD_reg, op_OR, op_AND, op_XOR,
    op_ADD_reg, op_SUB, op_SHR, op_SUBN, op_SHL, op_SNE_reg, op_LD_I,
    op_JP_V0, op_RND, op_DRW, op_SKP, op_SKNP, op_LD_Vx_DT, op_LD_DT_Vx,
    op_LD_ST_Vx, op_ADD_I, op_LD_F, op_LD_B, op_LD_mem_Vx, op_LD_Vx_mem;
    cbv zeta.
  all: try invariance.
  all: unfold op_LD_Vx_K.
  all: eapply keeps_bind; [apply keeps_scan_keys|intros; invariance].
Qed.

(** ** Every reachable state is well-formed *)

Lemma keeps_fetch : keeps fetch (λ _, True).
Proof.
  unfold fetch.
  eapply keeps_bind; [apply keeps_getPC|]. intros pc _.
  eapply keeps_bind; [apply keeps_readMem|]. intros hi _.
  eapply keeps_bind; [apply keeps_getPC|]. intros pc' _.
  eapply keeps_bind; [apply keeps_readMem|]. intros lo _.
  by apply keeps_ret.
Qed.

Lemma keeps_EmulateCycle rnd : keeps (EmulateCycle rnd) (λ _, True).
Proof.
  unfold EmulateCycle.
  eapply keeps_bind; [apply keeps_fetch|]. intros opcode _.
  eapply keeps_bind; [invariance|]. intros _ _. apply keeps_execute.
Qed.

Lemma keeps_UpdateTimers : keeps UpdateTimers (λ _, True).
Proof. unfold UpdateTimers. invariance. Qed.

Lemma WF_LoadROMFromBytes rom c r c' :
  WF c → forallb byte rom → LoadROMFromBytes rom c = Some (r, c') → WF c'.
Proof.
  intros HWF Hrom%forallb_True Hrun.
  assert (Forall (λ z, 0 ≤ z < 256) rom) as Hrom'.
  { eapply Forall_impl; [exact Hrom|]. intros z. apply byte_spec. }
  destruct (Z.le_gt_cases (len rom) 3584) as [Hfit|Hbig].
  - destruct (load_fits_spec rom c HWF Hrom' Hfit) as (r' & c'' & Hrun' & _ & HWF' & _).
    rewrite Hrun in Hrun'. by injection Hrun' as -> ->.
  - destruct (load_too_large_spec rom c HWF ltac:(lia))
      as (r' & c'' & Hrun' & _ & HWF' & _).
    rewrite Hrun in Hrun'. by injection Hrun' as -> ->.
Qed.

Lemma reachable_WF c : reachable c → WF c.
Proof.
  induction 1 as [|rom c r c' _ IH Hrom Hrun|k b c _ IH Hk|c _ IH
                  |rnd c c' _ IH _ Hrun|c c' _ IH Hrun].
  - apply WF_New.
  - by eapply WF_LoadROMFromBytes.
  - by apply WF_with_Keys.
  - by apply WF_with_DrawFlag.
  - by destruct (keeps_EmulateCycle rnd c tt c' IH Hrun).
  - by destruct (keeps_UpdateTimers c tt c' IH Hrun).
Qed.

(** ** Rules for methods that cannot panic *)

Lemma total_ret {A} (a : A) (R : A → Prop) : R a → total (mret a) R.
Proof. intros HR c HWF. by apply ensures_ret. Qed.

Lemma total_unit : total (mret tt) (λ _, True).
Proof. by apply total_ret. Qed.

Lemma total_next : total next (λ _, True).
Proof. by apply total_ret. Qed.

Lemma total_bind {A B} (m : M A) (k : A → M B) R R' :
  total m R → (∀ a, R a → total (k a) R') → total (m ≫= k) R'.
Proof.
  intros Hm Hk c HWF. apply ensures_bind.
  eapply ensures_mono; [by apply Hm|].
  intros a c1 [HWF1 HR]. by apply Hk.
Qed.

Lemma total_readV x : 0 ≤ x < 16 → total (readV x) (λ v, 0 ≤ v < 256).
Proof.
  intros Hx c HWF. destruct (index_is_Some (V c) x) as [v Hv].
  { by rewrite (WF_V _ HWF). }
  apply (ensures_readV _ _ v); [done|]. split; [done|]. by eapply V_byte.
Qed.

Lemma total_writeV x v :
  0 ≤ x < 16 → 0 ≤ v < 256 → total (writeV x v) (λ _, True).
Proof.
  intros Hx Hv c HWF. apply ensures_writeV; [by rewrite (WF_V _ HWF)|].
  split; [|done]. by apply WF_with_V.
Qed.

Lemma total_writePixel y x b :
  0 ≤ y < 32 → 0 ≤ x < 64 → total (writePixel y x b) (λ _, True).
Proof.
  intros Hy Hx c HWF. destruct (Display_row c y HWF Hy) as (row & Hrow & Hlen).
  apply (ensures_writePixel _ _ _ _ row); [done|lia|].
  split; [|done]. by apply WF_with_Display.
Qed.

Lemma total_readKey i : 0 ≤ i < 16 → total (readKey i) (λ _, True).
Proof.
  intros Hi c HWF. destruct (index_is_Some (Keys c) i) as [k Hk].
  { by rewrite (WF_Keys _ HWF). }
  by apply (ensures_readKey _ _ k).
Qed.

Lemma total_of_keeps {A} (m : M A) (R : A → Prop) :
  keeps m R → (∀ c, WF c → is_Some (m c)) → total m R.
Proof.
  intros Hk Hs c HWF. destruct (Hs c HWF) as [[a c'] Hrun].
  exists a, c'. split; [done|]. by eapply Hk.
Qed.

Lemma total_getI : total getI (λ v, 0 ≤ v < 65536).
Proof. apply total_of_keeps; [apply keeps_getI|]. by eexists. Qed.

Lemma total_getPC : total getPC (λ v, 0 ≤ v < 65536).
Proof. apply total_of_keeps; [apply keeps_getPC|]. by eexists. Qed.

Lemma total_getDT : total getDT (λ v, 0 ≤ v < 256).
Proof. apply total_of_keeps; [apply keeps_getDT|]. by eexists. Qed.

Lemma total_setI v : 0 ≤ v < 65536 → total (setI v) (λ _, True).
Proof. intros Hv. apply total_of_keeps; [by apply keeps_setI|]. by eexists. Qed.

Lemma total_setPC v : 0 ≤ v < 65536 → total (setPC v) (λ _, True).
Proof. intros Hv. apply total_of_keeps; [by apply keeps_setPC|]. by eexists. Qed.

Lemma total_setDT v : 0 ≤ v < 256 → total (setDT v) (λ _, True).
Proof. intros Hv. apply total_of_keeps; [by apply keeps_setDT|]. by eexists. Qed.

Lemma total_setST v : 0 ≤ v < 256 → total (setST v) (λ _, True).
Proof. intros Hv. apply total_of_keeps; [by apply keeps_setST|]. by eexists. Qed.

Lemma total_setDrawFlag f : total (setDrawFlag f) (λ _, True).
Proof. apply total_of_keeps; [by apply keeps_setDrawFlag|]. by eexists. Qed.

Lemma total_loop n i body :
  (∀ j, i ≤ j < i + Z.of_nat n → total (body j) (λ _, True)) →
  total (loop n i body) (λ _, True).
Proof.
  revert i. induction n as [|n IH]; intros i Hbody; [apply total_unit|].
  simpl. eapply total_bind; [apply Hbody; lia|].
  intros [] _; [|apply total_unit].
  apply IH. intros j Hj. apply Hbody. lia.
Qed.

Lemma total_for_range lo hi body :
  (∀ j, lo ≤ j < hi → total (body j) (λ _, True)) →
  total (for_range lo hi body) (λ _, True).
Proof. intros Hbody. apply total_loop. intros j Hj. apply Hbody. lia. Qed.

Lemma total_scan_keys n i x :
  0 ≤ i → i + Z.of_nat n ≤ 16 → 0 ≤ x < 16 →
  total (scan_keys n i x) (λ _, True).
Proof.
  intros Hi Hn Hx. revert i Hi Hn.
  induction n as [|n IH]; intros i Hi Hn; simpl; [by apply total_ret|].
  eapply total_bind; [apply total_readKey; lia|]. intros [] _.
  - eapply total_bind; [apply total_writeV; [done|apply u8_range]|].
    intros. by apply total_ret.
  - apply IH; lia.
Qed.

Ltac reg :=
  lazymatch goal with
  | |- _ ≤ Xreg ?op < _ => apply Xreg_range
  | |- _ ≤ Yreg ?op < _ => apply Yreg_range
  | |- _ => (done || lia)
  end.

(** [totality] walks through a method that indexes with opcode fields and
    loop counters only. *)
Ltac totality :=
  lazymatch goal with
  | |- total (if ?b then _ else _) _ => destruct b; totality
  | |- total (mbind _ _) _ => eapply total_bind; [totality | intros; totality]
  | |- total (mret tt) _ => apply total_unit
  | |- total next _ => apply total_next
  | |- total (readV _) _ => apply total_readV; reg
  | |- total (writeV _ _) _ => apply total_writeV; [reg|range]
  | |- total (writePixel _ _ _) _ => apply total_writePixel; reg
  | |- total getI _ => apply total_getI
  | |- total getPC _ => apply total_getPC
  | |- total getDT _ => apply total_getDT
  | |- total (setI _) _ => apply total_setI; range
  | |- total (setPC _) _ => apply total_setPC; range
  | |- total (setDT _) _ => apply total_setDT; range
  | |- total (setST _) _ => apply total_setST; range
  | |- total (setDrawFlag _) _ => apply total_setDrawFlag
  | |- total (for_range _ _ _) _ =>
      apply total_for_range; intros;
      unfold DisplayHeight, DisplayWidth in *; totality
  | |- total skip _ => unfold skip; totality
  end.

Lemma total_CLS : total op_CLS (λ _, True).
Proof. unfold op_CLS. totality. Qed.
Lemma total_JP opcode : total (op_JP opcode) (λ _, True).
Proof. unfold op_JP. totality. Qed.
Lemma total_SE_byte opcode : total (op_SE_byte opcode) (λ _, True).
Proof. unfold op_SE_byte. cbv zeta. totality. Qed.
Lemma total_SNE_byte opcode : total (op_SNE_byte opcode) (λ _, True).
Proof. unfold op_SNE_byte. cbv zeta. totality. Qed.
Lemma total_SE_reg opcode : total (op_SE_reg opcode) (λ _, True).
Proof. unfold op_SE_reg. cbv zeta. totality. Qed.
Lemma total_LD_byte opcode : total (op_LD_byte opcode) (λ _, True).
Proof. unfold op_LD_byte. cbv zeta. totality. Qed.
Lemma total_ADD_byte opcode : total (op_ADD_byte opcode) (λ _, True).
Proof. unfold op_ADD_byte. cbv zeta. totality. Qed.
Lemma total_LD_reg opcode : total (op_LD_reg (Xreg opcode) (Yreg opcode)) (λ _, True).
Proof. unfold op_LD_reg. totality. Qed.
Lemma total_OR opcode : total (op_OR (Xreg opcode) (Yreg opcode)) (λ _, True).
Proof. unfold op_OR. totality. Qed.
Lemma total_AND opcode : total (op_AND (Xreg opcode) (Yreg opcode)) (λ _, True).
Proof. unfold op_AND. totality. Qed.
Lemma total_XOR opcode : total (op_XOR (Xreg opcode) (Yreg opcode)) (λ _, True).
Proof. unfold op_XOR. totality. Qed.
Lemma total_ADD_reg opcode : total (op_ADD_reg (Xreg opcode) (Yreg opcode)) (λ _, True).
Proof. unfold op_ADD_reg. cbv zeta. totality. Qed.
Lemma total_SUB opcode : total (op_SUB (Xreg opcode) (Yreg opcode)) (λ _, True).
Proof. unfold op_SUB. totality. Qed.
Lemma total_SHR opcode : total (op_SHR (Xreg opcode)) (λ _, True).
Proof. unfold op_SHR. totality. Qed.
Lemma total_SUBN opcode : total (op_SUBN (Xreg opcode) (Yreg opcode)) (λ _, True).
Proof. unfold op_SUBN. totality. Qed.
Lemma total_SHL opcode : total (op_SHL (Xreg opcode)) (λ _, True).
Proof. unfold op_SHL. totality. Qed.
Lemma total_SNE_reg opcode : total (op_SNE_reg opcode) (λ _, True).
Proof. unfold op_SNE_reg. cbv zeta. totality. Qed.
Lemma total_LD_I opcode : total (op_LD_I opcode) (λ _, True).
Proof. unfold op_LD_I. totality. Qed.
Lemma total_JP_V0 opcode : total (op_JP_V0 opcode) (λ _, True).
Proof. unfold op_JP_V0. totality. Qed.
Lemma total_RND rnd opcode : total (op_RND rnd opcode) (λ _, True).
Proof. unfold op_RND. cbv zeta. totality. Qed.
Lemma total_LD_Vx_DT opcode : total (op_LD_Vx_DT (Xreg opcode)) (λ _, True).
Proof. unfold op_LD_Vx_DT. totality. Qed.
Lemma total_LD_Vx_K opcode : total (op_LD_Vx_K (Xreg opcode)) (λ _, True).
Proof.
  unfold op_LD_Vx_K.
  eapply total_bind; [apply total_scan_keys; [done..|apply Xreg_range]|].
  intros. totality.
Qed.
Lemma total_LD_DT_Vx opcode : total (op_LD_DT_Vx (Xreg opcode)) (λ _, True).
Proof. unfold op_LD_DT_Vx. totality. Qed.
Lemma total_LD_ST_Vx opcode : total (op_LD_ST_Vx (Xreg opcode)) (λ _, True).
Proof. unfold op_LD_ST_Vx. totality. Qed.
Lemma total_ADD_I opcode : total (op_ADD_I (Xreg opcode)) (λ _, True).
Proof. unfold op_ADD_I. totality. Qed.
Lemma total_LD_F opcode : total (op_LD_F (Xreg opcode)) (λ _, True).
Proof. unfold op_LD_F. totality. Qed.

(** ** Instructions that index with the machine's data *)

Lemma safe_RET c :
  WF c → 1 ≤ SP c ≤ 16 → ensures op_RET c (λ _ c', WF c').
Proof.
  intros HWF HSP. destruct (index_is_Some (Stack c) (SP c - 1)) as [pc Hpc].
  { rewrite (WF_Stack _ HWF). lia. }
  eapply ensures_eq; [apply (op_RET_spec c pc); [done|lia|done]|].
  pose proof (Stack_word _ _ _ HWF Hpc). pose proof (WF_SP _ HWF). solve_WF.
Qed.

Lemma safe_CALL opcode c :
  WF c → SP c ≤ 15 → ensures (op_CALL opcode) c (λ _ c', WF c').
Proof.
  intros HWF HSP. eapply ensures_eq; [by apply op_CALL_spec|].
  pose proof (address_range opcode). pose proof (WF_SP _ HWF).
  pose proof (WF_PC _ HWF). solve_WF.
Qed.

Lemma safe_SKP x c :
  WF c → 0 ≤ x < 16 → (∀ vx, index (V c) x = Some vx → vx ≤ 15) →
  ensures (op_SKP x) c (λ _ c', WF c').
Proof.
  intros HWF Hx Hkey. destruct (index_is_Some (V c) x) as [vx Hvx].
  { by rewrite (WF_V _ HWF). }
  pose proof (V_byte _ _ _ HWF Hvx). pose proof (Hkey _ Hvx).
  destruct (index_is_Some (Keys c) vx) as [k Hk].
  { rewrite (WF_Keys _ HWF). lia. }
  unfold op_SKP.
  apply ensures_bind, (ensures_readV _ _ vx); [done|].
  apply ensures_bind, (ensures_readKey _ _ k); [done|].
  assert (total (if k then skip else mret tt) (λ _, True)) as Ht by totality.
  eapply ensures_mono; [by apply Ht|]. by intros ? ? [? _].
Qed.

Lemma safe_SKNP x c :
  WF c → 0 ≤ x < 16 → (∀ vx, index (V c) x = Some vx → vx ≤ 15) →
  ensures (op_SKNP x) c (λ _ c', WF c').
Proof.
  intros HWF Hx Hkey. destruct (index_is_Some (V c) x) as [vx Hvx].
  { by rewrite (WF_V _ HWF). }
  pose proof (V_byte _ _ _ HWF Hvx). pose proof (Hkey _ Hvx).
  destruct (index_is_Some (Keys c) vx) as [k Hk].
  { rewrite (WF_Keys _ HWF). lia. }
  unfold op_SKNP.
  apply ensures_bind, (ensures_readV _ _ vx); [done|].
  apply ensures_bind, (ensures_readKey _ _ k); [done|].
  assert (total (if negb k then skip else mret tt) (λ _, True)) as Ht by totality.
  eapply ensures_mono; [by apply Ht|]. by intros ? ? [? _].
Qed.

Lemma safe_DRW opcode c :
  WF c →
  (∀ vy row, index (V c) (Yreg opcode) = Some vy →
             0 ≤ row < Z.land opcode NibbleMask → vy mod 32 + row < 32 →
             u16 (I c + row) < 4096) →
  ensures (op_DRW opcode) c (λ _ c', WF c').
Proof.
  intros HWF Hmem.
  destruct (index_is_Some (V c) (Xreg opcode)) as [vx Hvx].
  { rewrite (WF_V _ HWF). apply Xreg_range. }
  destruct (index_is_Some (V c) (Yreg opcode)) as [vy Hvy].
  { rewrite (WF_V _ HWF). apply Yreg_range. }
  eapply ensures_mono; [apply (op_DRW_spec opcode c vx vy); [done..|]|].
  - intros row Hrow Hfit. by apply (Hmem vy).
  - by intros ? c' (? & _).
Qed.

Lemma safe_LD_B x c :
  WF c → 0 ≤ x < 16 → (∀ i, 0 ≤ i ≤ 2 → u16 (I c + i) < 4096) →
  ensures (op_LD_B x) c (λ _ c', WF c').
Proof.
  intros HWF Hx Hmem. destruct (index_is_Some (V c) x) as [vx Hvx].
  { by rewrite (WF_V _ HWF). }
  pose proof (V_byte _ _ _ HWF Hvx) as Hb. pose proof (WF_I _ HWF) as HI.
  pose proof (WF_Mem _ HWF) as HM.
  pose proof (Hmem 0 ltac:(lia)) as H0. rewrite Z.add_0_r, u16_small in H0 by done.
  pose proof (Hmem 1 ltac:(lia)) as H1. pose proof (Hmem 2 ltac:(lia)) as H2.
  pose proof (u16_range (I c + 1)). pose proof (u16_range (I c + 2)).
  unfold op_LD_B, getI.
  apply ensures_bind; eapply ensures_eq; [reflexivity|].
  apply ensures_bind, (ensures_readV _ _ vx); [done|].
  apply ensures_bind, ensures_writeMem; [lia|].
  apply ensures_bind; eapply ensures_eq; [reflexivity|].
  apply ensures_bind, (ensures_readV _ _ vx); [done|].
  apply ensures_bind, ensures_writeMem; [simpl; rewrite len_insert; lia|].
  apply ensures_bind; eapply ensures_eq; [reflexivity|].
  apply ensures_bind, (ensures_readV _ _ vx); [done|].
  apply ensures_writeMem; [simpl; rewrite !len_insert; lia|].
  unfold Hundreds, Tens.
  repeat (apply WF_with_Memory; [|range]). done.
Qed.

Lemma safe_LD_mem_Vx x c :
  WF c → 0 ≤ x < 16 → (∀ i, 0 ≤ i ≤ x → u16 (I c + i) < 4096) →
  ensures (op_LD_mem_Vx x) c (λ _ c', WF c').
Proof.
  intros HWF Hx Hmem. unfold op_LD_mem_Vx.
  apply (ensures_for_range (λ _ c0, WF c0 ∧ I c0 = I c) (λ c0, WF c0));
    [lia|done| |by intros ? [? _]].
  intros j c0 Hj [HWF0 HI].
  destruct (index_is_Some (V c0) j) as [v Hv].
  { rewrite (WF_V _ HWF0). lia. }
  pose proof (V_byte _ _ _ HWF0 Hv).
  apply ensures_bind; eapply ensures_eq; [reflexivity|].
  apply ensures_bind, (ensures_readV _ _ v); [done|].
  apply ensures_bind, ensures_writeMem.
  { rewrite (WF_Mem _ HWF0), HI. split; [apply u16_range|]. apply Hmem. lia. }
  apply ensures_next. split; [by apply WF_with_Memory|done].
Qed.

Lemma safe_LD_Vx_mem x c :
  WF c → 0 ≤ x < 16 → (∀ i, 0 ≤ i ≤ x → u16 (I c + i) < 4096) →
  ensures (op_LD_Vx_mem x) c (λ _ c', WF c').
Proof.
  intros HWF Hx Hmem. unfold op_LD_Vx_mem.
  apply (ensures_for_range (λ _ c0, WF c0 ∧ I c0 = I c) (λ c0, WF c0));
    [lia|done| |by intros ? [? _]].
  intros j c0 Hj [HWF0 HI].
  destruct (index_is_Some (Memory c0) (u16 (I c0 + j))) as [v Hv].
  { rewrite (WF_Mem _ HWF0), HI. split; [apply u16_range|]. apply Hmem. lia. }
  pose proof (Memory_byte _ _ _ HWF0 Hv).
  apply ensures_bind; eapply ensures_eq; [reflexivity|].
  apply ensures_bind, (ensures_readMem _ _ v); [done|].
  apply ensures_bind, ensures_writeV; [rewrite (WF_V _ HWF0); lia|].
  apply ensures_next. split; [by apply WF_with_V|done].
Qed.

(** ** A cycle whose indices are in bounds *)

Ltac by_total lem :=
  eapply ensures_mono; [by apply lem|by intros ? ? [? _]].

(** The pattern that selected the current case of the [switch]. *)
Ltac selected_pattern :=
  lazymatch goal with
  | H1 : Z.land ?op OpcodeMask = _, H2 : Z.land ?op ByteMask = _ |- _ =>
      exact (land_join op _ _ _ _ H1 H2)
  | H1 : Z.land ?op OpcodeMask = _ |- _ => exact H1
  end.

Lemma execute_safe rnd opcode c :
  WF c → in_bounds opcode c →
  ensures (execute rnd opcode) c (λ _ c', WF c').
Proof.
  intros HWF (Hret & Hcall & Hkey & Hdraw & Hbcd & Hmem).
  pose proof (Xreg_range opcode) as HX.
  unfold execute.
  repeat lazymatch goal with
  | |- context [Z.land ?op ?m =? ?v] => destruct (Z.eqb_spec (Z.land op m) v)
  end.
  all: lazymatch goal with
  | |- ensures (mret tt) _ _ => by apply ensures_ret
  | |- ensures op_CLS _ _ => by_total total_CLS
  | |- ensures op_RET _ _ => apply safe_RET; [done|apply Hret; selected_pattern]
  | |- ensures (op_JP _) _ _ => by_total total_JP
  | |- ensures (op_CALL _) _ _ => apply safe_CALL; [done|apply Hcall; selected_pattern]
  | |- ensures (op_SE_byte _) _ _ => by_total total_SE_byte
  | |- ensures (op_SNE_byte _) _ _ => by_total total_SNE_byte
  | |- ensures (op_SE_reg _) _ _ => by_total total_SE_reg
  | |- ensures (op_LD_byte _) _ _ => by_total total_LD_byte
  | |- ensures (op_ADD_byte _) _ _ => by_total total_ADD_byte
  | |- ensures (op_LD_reg _ _) _ _ => by_total total_LD_reg
  | |- ensures (op_OR _ _) _ _ => by_total total_OR
  | |- ensures (op_AND _ _) _ _ => by_total total_AND
  | |- ensures (op_XOR _ _) _ _ => by_total total_XOR
  | |- ensures (op_ADD_reg _ _) _ _ => by_total total_ADD_reg
  | |- ensures (op_SUB _ _) _ _ => by_total total_SUB
  | |- ensures (op_SHR _) _ _ => by_total total_SHR
  | |- ensures (op_SUBN _ _) _ _ => by_total total_SUBN
  | |- ensures (op_SHL _) _ _ => by_total total_SHL
  | |- ensures (op_SNE_reg _) _ _ => by_total total_SNE_reg
  | |- ensures (op_LD_I _) _ _ => by_total total_LD_I
  | |- ensures (op_JP_V0 _) _ _ => by_total total_JP_V0
  | |- ensures (op_RND _ _) _ _ => by_total total_RND
  | |- ensures (op_DRW _) _ _ => apply safe_DRW; [done|apply Hdraw; selected_pattern]
  | |- ensures (op_SKP _) _ _ =>
      apply safe_SKP; [done..|apply Hkey; left; selected_pattern]
  | |- ensures (op_SKNP _) _ _ =>
      apply safe_SKNP; [done..|apply Hkey; right; selected_pattern]
  | |- ensures (op_LD_Vx_DT _) _ _ => by_total total_LD_Vx_DT
  | |- ensures (op_LD_Vx_K _) _ _ => by_total total_LD_Vx_K
  | |- ensures (op_LD_DT_Vx _) _ _ => by_total total_LD_DT_Vx
  | |- ensures (op_LD_ST_Vx _) _ _ => by_total total_LD_ST_Vx
  | |- ensures (op_ADD_I _) _ _ => by_total total_ADD_I
  | |- ensures (op_LD_F _) _ _ => by_total total_LD_F
  | |- ensures (op_LD_B _) _ _ =>
      apply safe_LD_B; [done..|apply Hbcd; selected_pattern]
  | |- ensures (op_LD_mem_Vx _) _ _ =>
      apply safe_LD_mem_Vx; [done..|apply Hmem; left; selected_pattern]
  | |- ensures (op_LD_Vx_mem _) _ _ =>
      apply safe_LD_Vx_mem; [done..|apply Hmem; right; selected_pattern]
  end.
Qed.

Lemma fetch_total c :
  WF c → PC c ≤ 4094 → is_Some (opcode_at c).
Proof.
  intros HWF HPC. pose proof (WF_PC _ HWF) as HPC0. pose proof (WF_Mem _ HWF) as HM.
  destruct (index_is_Some (Memory c) (PC c)) as [hi Hhi]; [lia|].
  destruct (index_is_Some (Memory c) (u16 (PC c + 1))) as [lo Hlo].
  { rewrite u16_small; lia. }
  unfold opcode_at. rewrite (fetch_Some _ _ _ Hhi Hlo). by eexists.
Qed.

Lemma cycles_reachable n c c' :
  reachable c → cycles n c = Some c' → reachable c'.
Proof.
  revert c. induction n as [|n IH]; intros c Hc; simpl; [by intros [= <-]|].
  unfold run. destruct (EmulateCycle 0 c) as [[[] c1]|] eqn:E; [|done]. simpl.
  apply IH. by apply (reach_EmulateCycle 0 c c1).
Qed.

Lemma started_reachable rom n c :
  forallb byte rom → started rom n = Some c → reachable c.
Proof.
  intros Hrom. unfold started, run.
  destruct (LoadROMFromBytes rom New) as [[r c0]|] eqn:E; [|done]. simpl.
  apply cycles_reachable. by apply (reach_LoadROM rom New r c0); [constructor|..].
Qed.

(** C2 (as amended): from a reachable state with the program counter at
    most 4094, one cycle does not abort, and leaves a well-formed state,
    whenever the instruction at the program counter has its indices in
    bounds: a return finds the stack pointer from 1 to 16, a call at most
    15, a key skip a register value at most 15, a draw its unclipped sprite
    rows inside memory, a BCD store its three bytes inside memory, a
    register store or load its bytes inside memory.  Every other index is an
    opcode field or a loop counter and is always in bounds. *)
Theorem EmulateCycle_in_bounds rnd c :
  reachable c → PC c ≤ 4094 →
  (∀ opcode, opcode_at c = Some opcode → in_bounds opcode c) →
  ∃ c', EmulateCycle rnd c = Some (tt, c') ∧ wf c'.
Proof.
  intros HWF%reachable_WF HPC Hin.
  destruct (fetch_total c HWF HPC) as [opcode Hop].
  specialize (Hin opcode Hop).
  rewrite (EmulateCycle_execute _ _ _ HWF Hop).
  pose proof (WF_PC _ HWF) as HPC0.
  destruct (execute_safe rnd opcode (with_PC (PC c + 2) c)) as ([] & c' & Hrun & HWF');
    [solve_WF|exact Hin|].
  exists c'. split; [done|]. by apply wf_WF.
Qed.

Lemma EmulateCycle_in_bounds_witness :
  ∃ c, started [0x22; 0x04; 0x00; 0x00; 0x00; 0xEE] 1 = Some c ∧
       reachable c ∧ PC c ≤ 4094 ∧
       (∀ opcode, opcode_at c = Some opcode → in_bounds opcode c) ∧
       ∃ c', EmulateCycle 0 c = Some (tt, c') ∧ wf c'.
Proof.
  eexists. split; [boot|].
  set (c := mkChip8 _ _ _ _ _ _ _ _ _ _ _).
  assert (reachable c) as Hreach.
  { apply (started_reachable [0x22; 0x04; 0x00; 0x00; 0x00; 0xEE] 1); [done|boot]. }
  assert (∀ opcode, opcode_at c = Some opcode → in_bounds opcode c) as Hin.
  { intros opcode [= <-]. unfold in_bounds.
    split_and!; try (intros [=]); try (intros [[=]|[=]]).
    simpl. lia. }
  split; [exact Hreach|]. split; [by vm_compute|]. split; [exact Hin|].
  apply (EmulateCycle_in_bounds 0 c); [exact Hreach|by vm_compute|exact Hin].
Defined.

(** C2 (as stated) fails: the machine made by [New] with the ROM [00 EE]
    loaded is reachable; its first cycle is a return with the stack pointer
    at 0, which takes the stack pointer to 255 and indexes the 16-entry
    stack there: the cycle aborts. *)
Lemma RET_on_empty_stack_aborts :
  ∃ c, started [0x00; 0xEE] 0 = Some c ∧
       reachable c ∧
       opcode_at c = Some 0x00EE ∧ SP c = 0 ∧
       EmulateCycle 0 c = None.
Proof.
  eexists. split; [boot|].
  split; [|split; [reflexivity|split; [reflexivity|vm_compute; reflexivity]]].
  apply (started_reachable [0x00; 0xEE] 0); [done|boot].
Qed.

(** ** A cycle that ran had its indices in bounds *)

Lemma ensures_Some {A} (m : M A) c (Q : A → Chip8 → Prop) a c' :
  ensures m c Q → m c = Some (a, c') → Q a c'.
Proof. intros (a0 & c0 & Hrun & HQ) Hrun'. rewrite Hrun in Hrun'. by injection Hrun' as <- <-. Qed.

Lemma readV_inv x c v c' :
  readV x c = Some (v, c') → c' = c ∧ index (V c) x = Some v.
Proof. unfold readV, get. destruct (index (V c) x); [|done]. by intros [= <- <-]. Qed.

Lemma readMem_inv a c v c' :
  readMem a c = Some (v, c') → c' = c ∧ index (Memory c) a = Some v.
Proof. unfold readMem, get. destruct (index (Memory c) a); [|done]. by intros [= <- <-]. Qed.

Lemma readStack_inv i c v c' :
  readStack i c = Some (v, c') → c' = c ∧ index (Stack c) i = Some v.
Proof. unfold readStack, get. destruct (index (Stack c) i); [|done]. by intros [= <- <-]. Qed.

Lemma readKey_inv i c k c' :
  readKey i c = Some (k, c') → c' = c ∧ index (Keys c) i = Some k.
Proof. unfold readKey, get. destruct (index (Keys c) i); [|done]. by intros [= <- <-]. Qed.

Lemma assign_Some_inv {A} (a : list A) i v a' :
  assign a i v = Some a' → 0 ≤ i < len a.
Proof.
  intros H. destruct (decide (0 ≤ i < len a)) as [|Hout]; [done|].
  by rewrite assign_None in H.
Qed.

Lemma writeMem_inv a v c r c' :
  writeMem a v c = Some (r, c') →
  0 ≤ a < len (Memory c) ∧ c' = with_Memory (<[Z.to_nat a := v]> (Memory c)) c.
Proof.
  unfold writeMem, put. destruct (assign (Memory c) a v) as [m|] eqn:E; [|done].
  simpl. intros [= <- <-]. split; [by eapply assign_Some_inv|].
  by rewrite (assign_inv _ _ _ _ E).
Qed.

Lemma writeV_inv x v c r c' :
  writeV x v c = Some (r, c') →
  0 ≤ x < len (V c) ∧ c' = with_V (<[Z.to_nat x := v]> (V c)) c.
Proof.
  unfold writeV, put. destruct (assign (V c) x v) as [m|] eqn:E; [|done].
  simpl. intros [= <- <-]. split; [by eapply assign_Some_inv|].
  by rewrite (assign_inv _ _ _ _ E).
Qed.

Lemma writeStack_inv i v c r c' :
  writeStack i v c = Some (r, c') →
  0 ≤ i < len (Stack c) ∧ c' = with_Stack (<[Z.to_nat i := v]> (Stack c)) c.
Proof.
  unfold writeStack, put. destruct (assign (Stack c) i v) as [m|] eqn:E; [|done].
  simpl. intros [= <- <-]. split; [by eapply assign_Some_inv|].
  by rewrite (assign_inv _ _ _ _ E).
Qed.

(** A loop that ran: [G j] is what iteration [j] needed to run; after a
    [break] nothing more is needed. *)
Lemma loop_Some_inv (P : Z → Chip8 → Prop) (G : Z → Prop) n i body c r :
  P i c →
  (∀ j c0 b c1, i ≤ j < i + Z.of_nat n → P j c0 → body j c0 = Some (b, c1) →
                G j ∧ if b : bool then P (j + 1) c1 else ∀ j', j < j' → G j') →
  loop n i body c = Some r →
  ∀ j, i ≤ j < i + Z.of_nat n → G j.
Proof.
  revert i c. induction n as [|n IH]; intros i c HP Hbody Hrun j Hj; [lia|].
  simpl in Hrun. apply bind_inv in Hrun as (b & c1 & Hb & Hrest).
  destruct (Hbody i c b c1 ltac:(lia) HP Hb) as [HG Hnext].
  destruct (Z.eq_dec j i) as [->|Hne]; [done|].
  destruct b.
  - apply (IH (i + 1) c1 Hnext); [|done|lia].
    intros j0 c0 b0 c2 Hj0. apply Hbody. lia.
  - apply Hnext. lia.
Qed.

Lemma for_range_Some_inv (P : Z → Chip8 → Prop) (G : Z → Prop) lo hi body c r :
  P lo c →
  (∀ j c0 b c1, lo ≤ j < hi → P j c0 → body j c0 = Some (b, c1) →
                G j ∧ if b : bool then P (j + 1) c1 else ∀ j', j < j' → G j') →
  for_range lo hi body c = Some r →
  ∀ j, lo ≤ j < hi → G j.
Proof.
  intros HP Hbody Hrun j Hj. unfold for_range in Hrun.
  apply (loop_Some_inv P G _ _ _ _ _ HP) with (j := j) in Hrun; [done| |lia].
  intros j0 c0 b c1 Hj0. apply Hbody. lia.
Qed.

Lemma RET_ran c r : WF c → op_RET c = Some r → 1 ≤ SP c ≤ 16.
Proof.
  intros HWF Hrun. pose proof (WF_SP _ HWF) as HSP.
  unfold op_RET, getSP, setSP, mbind at 1 2 3, M_bind in Hrun.
  apply bind_inv in Hrun as (pc & c1 & [_ Hpc%index_Some]%readStack_inv & _).
  simpl in Hpc. rewrite (WF_Stack _ HWF) in Hpc.
  destruct (Z.eq_dec (SP c) 0) as [E|Hne].
  - rewrite E in Hpc. change (u8 (0 - 1)) with 255 in Hpc. lia.
  - rewrite u8_small in Hpc; lia.
Qed.

Lemma CALL_ran opcode c r : WF c → op_CALL opcode c = Some r → SP c ≤ 15.
Proof.
  intros HWF Hrun.
  unfold op_CALL, getSP, getPC, mbind at 1 2, M_bind in Hrun.
  apply bind_inv in Hrun as ([] & c1 & [Hsp _]%writeStack_inv & _).
  rewrite (WF_Stack _ HWF) in Hsp. lia.
Qed.

Lemma SKP_ran x c r vx :
  WF c → op_SKP x c = Some r → index (V c) x = Some vx → vx ≤ 15.
Proof.
  intros HWF Hrun Hvx. unfold op_SKP in Hrun.
  rewrite (bind_Some _ _ _ _ _ (readV_Some _ _ _ Hvx)) in Hrun.
  apply bind_inv in Hrun as (k & c1 & [_ Hk%index_Some]%readKey_inv & _).
  rewrite (WF_Keys _ HWF) in Hk. lia.
Qed.

Lemma SKNP_ran x c r vx :
  WF c → op_SKNP x c = Some r → index (V c) x = Some vx → vx ≤ 15.
Proof.
  intros HWF Hrun Hvx. unfold op_SKNP in Hrun.
  rewrite (bind_Some _ _ _ _ _ (readV_Some _ _ _ Hvx)) in Hrun.
  apply bind_inv in Hrun as (k & c1 & [_ Hk%index_Some]%readKey_inv & _).
  rewrite (WF_Keys _ HWF) in Hk. lia.
Qed.

Lemma LD_B_ran x c r :
  WF c → op_LD_B x c = Some r → ∀ i, 0 ≤ i ≤ 2 → u16 (I c + i) < 4096.
Proof.
  intros HWF Hrun. pose proof (WF_I _ HWF) as HI. pose proof (WF_Mem _ HWF) as HM.
  unfold op_LD_B, getI in Hrun.
  unfold mbind at 1, M_bind in Hrun.
  apply bind_inv in Hrun as (vx & c1 & [-> Hvx]%readV_inv & Hrun).
  apply bind_inv in Hrun as ([] & c1 & [H0 ->]%writeMem_inv & Hrun).
  unfold mbind at 1, M_bind in Hrun.
  apply bind_inv in Hrun as (vx1 & c2 & [-> _]%readV_inv & Hrun).
  apply bind_inv in Hrun as ([] & c2 & [H1 ->]%writeMem_inv & Hrun).
  unfold mbind at 1, M_bind in Hrun.
  apply bind_inv in Hrun as (vx2 & c3 & [-> _]%readV_inv & Hrun).
  destruct r as [[] c3]. apply writeMem_inv in Hrun as [H2 _].
  simpl in H1, H2. rewrite ?len_insert, HM in *.
  intros i Hi.
  assert (i = 0 ∨ i = 1 ∨ i = 2) as [->|[->| ->]] by lia; [|lia..].
  rewrite Z.add_0_r, u16_small; lia.
Qed.

Lemma LD_mem_Vx_ran x c r :
  WF c → op_LD_mem_Vx x c = Some r → ∀ i, 0 ≤ i ≤ x → u16 (I c + i) < 4096.
Proof.
  intros HWF Hrun i Hi. unfold op_LD_mem_Vx in Hrun.
  apply (for_range_Some_inv
           (λ _ c0, len (Memory c0) = 4096 ∧ I c0 = I c)
           (λ j, u16 (I c + j) < 4096)) with (j := i) in Hrun; [done| | |lia].
  - split; [apply (WF_Mem _ HWF)|done].
  - intros j c0 b c1 Hj [HM HI] Hbody.
    unfold getI, mbind at 1, M_bind in Hbody.
    apply bind_inv in Hbody as (v & c2 & [-> _]%readV_inv & Hbody).
    apply bind_inv in Hbody as ([] & c2 & [Ha ->]%writeMem_inv & [= <- <-]).
    rewrite HM, HI in Ha. split; [lia|].
    simpl. by rewrite len_insert.
Qed.

Lemma LD_Vx_mem_ran x c r :
  WF c → op_LD_Vx_mem x c = Some r → ∀ i, 0 ≤ i ≤ x → u16 (I c + i) < 4096.
Proof.
  intros HWF Hrun i Hi. unfold op_LD_Vx_mem in Hrun.
  apply (for_range_Some_inv
           (λ _ c0, len (Memory c0) = 4096 ∧ I c0 = I c)
           (λ j, u16 (I c + j) < 4096)) with (j := i) in Hrun; [done| | |lia].
  - split; [apply (WF_Mem _ HWF)|done].
  - intros j c0 b c1 Hj [HM HI] Hbody.
    unfold getI, mbind at 1, M_bind in Hbody.
    apply bind_inv in Hbody as (v & c2 & [-> Hv%index_Some]%readMem_inv & Hbody).
    apply bind_inv in Hbody as ([] & c2 & [_ ->]%writeV_inv & [= <- <-]).
    rewrite HM, HI in Hv. split; [lia|done].
Qed.

Lemma DRW_ran opcode c r vy :
  WF c → op_DRW opcode c = Some r →
  index (V c) (Yreg opcode) = Some vy →
  ∀ row, 0 ≤ row < Z.land opcode NibbleMask → vy mod 32 + row < 32 →
         u16 (I c + row) < 4096.
Proof.
  intros HWF Hrun Hvy row Hrow Hfit.
  pose proof (nibble_range opcode) as Hh.
  unfold op_DRW in Hrun. cbv zeta in Hrun.
  apply bind_inv in Hrun as (vx & c0 & [-> Hvx]%readV_inv & Hrun).
  rewrite (bind_Some _ _ _ _ _ (readV_Some _ _ _ Hvy)) in Hrun.
  apply bind_inv in Hrun as ([] & c0 & [_ ->]%writeV_inv & Hrun).
  apply bind_inv in Hrun as ([] & c1 & Hloop & _).
  change (Z.to_nat VFRegister) with 15%nat in Hloop.
  set (x0 := vx mod DisplayWidth) in *. set (y0 := vy mod DisplayHeight) in *.
  assert (0 ≤ x0 < 64) as Hx0 by (apply Z.mod_pos_bound; lia).
  assert (0 ≤ y0 < 32) as Hy0 by (apply Z.mod_pos_bound; lia).
  refine (for_range_Some_inv
            (λ j c0, draw_inv c (sprite_at c x0 y0 j) c0)
            (λ j, y0 + j < 32 → u16 (I c + j) < 4096)
            _ _ _ _ _ (draw_inv_init c x0 y0 HWF) _ Hloop row Hrow Hfit).
  clear row Hrow Hfit.
  intros j c0 b c2 Hj Hinv Hbody.
  rewrite (u16_small (y0 + j)) in Hbody by lia. unfold DisplayHeight in Hbody.
  destruct (Z.leb_spec 32 (y0 + j)) as [Hclip|Hin].
  - injection Hbody as <- <-. split; [lia|]. intros j' Hj'. lia.
  - pose proof Hinv as (HWF0 & Hframe & _).
    assert (I c0 = I c) as HI by (by rewrite Hframe).
    assert (Memory c0 = Memory c) as HM by (by rewrite Hframe).
    unfold getI, mbind at 1, M_bind in Hbody.
    apply bind_inv in Hbody as (s & c3 & [-> Hs]%readMem_inv & Hbody).
    rewrite HI, HM in Hs. pose proof (index_Some _ _ _ Hs) as Hs'.
    rewrite (WF_Mem _ HWF) in Hs'. split; [lia|].
    apply bind_inv in Hbody as ([] & c3 & Hinner & [= <- <-]).
    eapply (ensures_Some _ _ _ _ _ (draw_row_spec c x0 y0 j s c0 HWF Hx0
              ltac:(lia) ltac:(lia) Hin Hs Hinv)).
    rewrite (u16_small (y0 + j)) by lia. exact Hinner.
Qed.

(** The instruction's case of the [switch], from its pattern. *)
Lemma execute_SKP rnd opcode :
  Z.land opcode 0xF0FF = 0xE09E → execute rnd opcode = op_SKP (Xreg opcode).
Proof. intros H. dispatch H. Qed.

Lemma execute_SKNP rnd opcode :
  Z.land opcode 0xF0FF = 0xE0A1 → execute rnd opcode = op_SKNP (Xreg opcode).
Proof. intros H. dispatch H. Qed.

Lemma execute_LD_B rnd opcode :
  Z.land opcode 0xF0FF = 0xF033 → execute rnd opcode = op_LD_B (Xreg opcode).
Proof. intros H. dispatch H. Qed.

Lemma execute_LD_mem_Vx rnd opcode :
  Z.land opcode 0xF0FF = 0xF055 → execute rnd opcode = op_LD_mem_Vx (Xreg opcode).
Proof. intros H. dispatch H. Qed.

Lemma execute_LD_Vx_mem rnd opcode :
  Z.land opcode 0xF0FF = 0xF065 → execute rnd opcode = op_LD_Vx_mem (Xreg opcode).
Proof. intros H. dispatch H. Qed.

(** The conditions of [in_bounds] are needed: a cycle that did not abort
    found the program counter at most at 4094 and the indices of its
    instruction in bounds. *)
Lemma EmulateCycle_ran_in_bounds rnd c r :
  WF c → EmulateCycle rnd c = Some r →
  PC c ≤ 4094 ∧ ∃ opcode, opcode_at c = Some opcode ∧ in_bounds opcode c.
Proof.
  intros HWF Hrun.
  destruct (opcode_at c) as [opcode|] eqn:Hop.
  2: { unfold opcode_at in Hop. unfold EmulateCycle in Hrun.
       destruct (fetch c) eqn:E; [done|]. by rewrite (bind_None _ _ _ E) in Hrun. }
  pose proof (opcode_at_PC _ _ HWF Hop) as HPC. split; [lia|].
  exists opcode. split; [done|].
  rewrite (EmulateCycle_execute _ _ _ HWF Hop) in Hrun.
  assert (WF (with_PC (PC c + 2) c)) as HWF1 by solve_WF.
  unfold in_bounds. split_and!.
  - intros Hpat. rewrite (execute_RET _ _ Hpat) in Hrun.
    by apply (RET_ran _ _ HWF1 Hrun).
  - intros Hpat. rewrite (execute_CALL _ _ Hpat) in Hrun.
    by apply (CALL_ran _ _ _ HWF1 Hrun).
  - intros [Hpat|Hpat] vx Hvx.
    + rewrite (execute_SKP _ _ Hpat) in Hrun.
      by apply (SKP_ran _ _ _ _ HWF1 Hrun).
    + rewrite (execute_SKNP _ _ Hpat) in Hrun.
      by apply (SKNP_ran _ _ _ _ HWF1 Hrun).
  - intros Hpat vy row Hvy. rewrite (execute_DRW _ _ Hpat) in Hrun.
    by apply (DRW_ran _ _ _ _ HWF1 Hrun).
  - intros Hpat. rewrite (execute_LD_B _ _ Hpat) in Hrun.
    by apply (LD_B_ran _ _ _ HWF1 Hrun).
  - intros [Hpat|Hpat].
    + rewrite (execute_LD_mem_Vx _ _ Hpat) in Hrun.
      by apply (LD_mem_Vx_ran _ _ _ HWF1 Hrun).
    + rewrite (execute_LD_Vx_mem _ _ Hpat) in Hrun.
      by apply (LD_Vx_mem_ran _ _ _ HWF1 Hrun).
Qed.

(** ** One cycle, instruction by instruction

    The lemmas below run single instructions symbolically: [exec] walks
    through a straight-line method, reading each register from the state
    the writes before it have left. *)

Lemma index_insert_Some {A} (a : list A) i j v w :
  0 ≤ i < len a → index a j = Some w →
  index (<[Z.to_nat i := v]> a) j = Some (if decide (j = i) then v else w).
Proof.
  intros Hi Hj. case_decide as E.
  - subst j. by apply index_insert_eq.
  - rewrite index_insert_ne by lia. done.
Qed.

Lemma cycle_ensures rnd c opcode (Q : unit → Chip8 → Prop) :
  WF c → opcode_at c = Some opcode →
  ensures (execute rnd opcode) (with_PC (PC c + 2) c) Q →
  ∃ c', EmulateCycle rnd c = Some (tt, c') ∧ Q tt c'.
Proof.
  intros HWF Hop ([] & c' & Hrun & HQ).
  exists c'. by rewrite (EmulateCycle_execute _ _ _ HWF Hop).
Qed.

Lemma cycle_eq rnd c opcode c' :
  WF c → opcode_at c = Some opcode →
  ensures (execute rnd opcode) (with_PC (PC c + 2) c) (λ _ c1, c1 = c') →
  EmulateCycle rnd c = Some (tt, c').
Proof.
  intros HWF Hop H.
  by destruct (cycle_ensures _ _ _ _ HWF Hop H) as (c1 & -> & ->).
Qed.

Lemma writeV_if (b : bool) x v1 v2 :
  (if b then writeV x v1 else writeV x v2) = writeV x (if b then v1 else v2).
Proof. by destruct b. Qed.

(** The value of a register after some writes. *)
Ltac regval :=
  first [ eassumption
        | simpl; eapply index_insert_Some; [rewrite ?len_insert; lia | regval] ].

Ltac exec :=
  repeat lazymatch goal with
  | |- ensures (mbind _ _) _ _ => apply ensures_bind
  | |- ensures (readV _) _ _ => eapply ensures_readV; [regval|]
  | |- ensures (writeV _ _) _ _ =>
      apply ensures_writeV; [simpl; rewrite ?len_insert; lia|]
  | |- ensures (if _ then writeV _ _ else writeV _ _) _ _ => rewrite writeV_if
  | |- ensures getI _ _ => eapply ensures_eq; [reflexivity|]
  | |- ensures getPC _ _ => eapply ensures_eq; [reflexivity|]
  | |- ensures getDT _ _ => eapply ensures_eq; [reflexivity|]
  | |- ensures getST _ _ => eapply ensures_eq; [reflexivity|]
  | |- ensures getSP _ _ => eapply ensures_eq; [reflexivity|]
  | |- ensures (setI _) _ _ => eapply ensures_eq; [reflexivity|]
  | |- ensures (setPC _) _ _ => eapply ensures_eq; [reflexivity|]
  | |- ensures (setDT _) _ _ => eapply ensures_eq; [reflexivity|]
  | |- ensures (setST _) _ _ => eapply ensures_eq; [reflexivity|]
  | |- ensures (setSP _) _ _ => eapply ensures_eq; [reflexivity|]
  | |- ensures (setDrawFlag _) _ _ => eapply ensures_eq; [reflexivity|]
  | |- ensures (mret _) _ _ => apply ensures_ret
  end.

(** The cases of the [switch], from their patterns. *)
Lemma execute_SE_byte rnd opcode :
  Z.land opcode 0xF000 = 0x3000 → execute rnd opcode = op_SE_byte opcode.
Proof. intros H. dispatch H. Qed.

Lemma execute_SNE_byte rnd opcode :
  Z.land opcode 0xF000 = 0x4000 → execute rnd opcode = op_SNE_byte opcode.
Proof. intros H. dispatch H. Qed.

Lemma execute_SE_reg rnd opcode :
  Z.land opcode 0xF000 = 0x5000 → execute rnd opcode = op_SE_reg opcode.
Proof. intros H. dispatch H. Qed.

Lemma execute_SNE_reg rnd opcode :
  Z.land opcode 0xF000 = 0x9000 → execute rnd opcode = op_SNE_reg opcode.
Proof. intros H. dispatch H. Qed.

Lemma execute_ADD_byte rnd opcode :
  Z.land opcode 0xF000 = 0x7000 → execute rnd opcode = op_ADD_byte opcode.
Proof. intros H. dispatch H. Qed.

Lemma execute_OR rnd opcode :
  Z.land opcode 0xF00F = 0x8001 →
  execute rnd opcode = op_OR (Xreg opcode) (Yreg opcode).
Proof. intros H. dispatch H. Qed.

Lemma execute_AND rnd opcode :
  Z.land opcode 0xF00F = 0x8002 →
  execute rnd opcode = op_AND (Xreg opcode) (Yreg opcode).
Proof. intros H. dispatch H. Qed.

Lemma execute_XOR rnd opcode :
  Z.land opcode 0xF00F = 0x8003 →
  execute rnd opcode = op_XOR (Xreg opcode) (Yreg opcode).
Proof. intros H. dispatch H. Qed.

Lemma execute_SUB rnd opcode :
  Z.land opcode 0xF00F = 0x8005 →
  execute rnd opcode = op_SUB (Xreg opcode) (Yreg opcode).
Proof. intros H. dispatch H. Qed.

Lemma execute_SHR rnd opcode :
  Z.land opcode 0xF00F = 0x8006 → execute rnd opcode = op_SHR (Xreg opcode).
Proof. intros H. dispatch H. Qed.

Lemma execute_SUBN rnd opcode :
  Z.land opcode 0xF00F = 0x8007 →
  execute rnd opcode = op_SUBN (Xreg opcode) (Yreg opcode).
Proof. intros H. dispatch H. Qed.

Lemma execute_SHL rnd opcode :
  Z.land opcode 0xF00F = 0x800E → execute rnd opcode = op_SHL (Xreg opcode).
Proof. intros H. dispatch H. Qed.

Lemma execute_JP rnd opcode :
  Z.land opcode 0xF000 = 0x1000 → execute rnd opcode = op_JP opcode.
Proof. intros H. dispatch H. Qed.

Lemma execute_JP_V0 rnd opcode :
  Z.land opcode 0xF000 = 0xB000 → execute rnd opcode = op_JP_V0 opcode.
Proof. intros H. dispatch H. Qed.

Lemma execute_LD_I rnd opcode :
  Z.land opcode 0xF000 = 0xA000 → execute rnd opcode = op_LD_I opcode.
Proof. intros H. dispatch H. Qed.

Lemma execute_CLS rnd opcode :
  Z.land opcode 0xF0FF = 0x00E0 → execute rnd opcode = op_CLS.
Proof. intros H. dispatch H. Qed.

Lemma execute_LD_Vx_DT rnd opcode :
  Z.land opcode 0xF0FF = 0xF007 → execute rnd opcode = op_LD_Vx_DT (Xreg opcode).
Proof. intros H. dispatch H. Qed.

Lemma execute_LD_DT_Vx rnd opcode :
  Z.land opcode 0xF0FF = 0xF015 → execute rnd opcode = op_LD_DT_Vx (Xreg opcode).
Proof. intros H. dispatch H. Qed.

Lemma execute_LD_ST_Vx rnd opcode :
  Z.land opcode 0xF0FF = 0xF018 → execute rnd opcode = op_LD_ST_Vx (Xreg opcode).
Proof. intros H. dispatch H. Qed.

Lemma execute_ADD_I rnd opcode :
  Z.land opcode 0xF0FF = 0xF01E → execute rnd opcode = op_ADD_I (Xreg opcode).
Proof. intros H. dispatch H. Qed.

(** What the instruction's operands give: the state to run it in. *)
Ltac operands HWF Hop :=
  pose proof (opcode_at_PC _ _ HWF Hop) as HPC;
  pose proof (WF_V _ HWF) as HV;
  lazymatch type of Hop with
  | opcode_at _ = Some ?op =>
      pose proof (Xreg_range op) as HX; pose proof (Yreg_range op) as HY
  end.

Lemma op_SUB_spec c X Y x y :
  len (V c) = 16 → 0 ≤ X < 16 →
  index (V c) X = Some x → index (V c) Y = Some y →
  let flag := if y <? x then 1 else 0 in
  let x' := if decide (X = VFRegister) then flag else x in
  let y' := if decide (Y = VFRegister) then flag else y in
  ensures (op_SUB X Y) c (λ _ c',
    c' = with_V (<[Z.to_nat X := (x' - y') mod 256]>
                   (<[Z.to_nat VFRegister := flag]> (V c))) c).
Proof.
  intros HV HX Hx Hy flag x' y'. unfold op_SUB, VFRegister in *.
  exec. reflexivity.
Qed.

Lemma op_SUBN_spec c X Y x y :
  len (V c) = 16 → 0 ≤ X < 16 →
  index (V c) X = Some x → index (V c) Y = Some y →
  let flag := if x <? y then 1 else 0 in
  let x' := if decide (X = VFRegister) then flag else x in
  let y' := if decide (Y = VFRegister) then flag else y in
  ensures (op_SUBN X Y) c (λ _ c',
    c' = with_V (<[Z.to_nat X := (y' - x') mod 256]>
                   (<[Z.to_nat VFRegister := flag]> (V c))) c).
Proof.
  intros HV HX Hx Hy flag x' y'. unfold op_SUBN, VFRegister in *.
  exec. reflexivity.
Qed.

(** X1: one cycle on 8xy5 writes to register 15 the flag 1 when Vx is
    greater than Vy and 0 otherwise (0 also when they are equal), then to
    register x the difference Vx - Vy modulo 256 of the registers as they
    are after the flag was written: when x or y is 15 the flag stands in
    for that operand.  The program counter moves on by 2 and nothing else
    changes. *)
Theorem SUB_difference_and_flag rnd c opcode x y :
  wf c →
  opcode_at c = Some opcode → Z.land opcode 0xF00F = 0x8005 →
  index (V c) (Xreg opcode) = Some x →
  index (V c) (Yreg opcode) = Some y →
  let flag := if y <? x then 1 else 0 in
  let x' := if decide (Xreg opcode = VFRegister) then flag else x in
  let y' := if decide (Yreg opcode = VFRegister) then flag else y in
  EmulateCycle rnd c =
    Some (tt, with_V (<[Z.to_nat (Xreg opcode) := (x' - y') mod 256]>
                        (<[Z.to_nat VFRegister := flag]> (V c)))
                (with_PC (PC c + 2) c)).
Proof.
  intros HWF%wf_WF Hop Hpat Hx Hy flag x' y'. operands HWF Hop.
  apply (cycle_eq _ _ opcode); [done..|].
  rewrite (execute_SUB _ _ Hpat). by apply (op_SUB_spec (with_PC (PC c + 2) c)).
Qed.

Lemma SUB_difference_and_flag_witness :
  ∃ c, started [0x6A; 0x05; 0x6F; 0x07; 0x8A; 0xF5] 2 = Some c ∧
       let flag := if 7 <? 5 then 1 else 0 in
       let x' := if decide (Xreg 0x8AF5 = VFRegister) then flag else 5 in
       let y' := if decide (Yreg 0x8AF5 = VFRegister) then flag else 7 in
       wf c ∧ opcode_at c = Some 0x8AF5 ∧ Z.land 0x8AF5 0xF00F = 0x8005 ∧
       index (V c) (Xreg 0x8AF5) = Some 5 ∧
       index (V c) (Yreg 0x8AF5) = Some 7 ∧
       EmulateCycle 0 c =
         Some (tt, with_V (<[Z.to_nat (Xreg 0x8AF5) := (x' - y') mod 256]>
                             (<[Z.to_nat VFRegister := flag]> (V c)))
                     (with_PC (PC c + 2) c)).
Proof.
  eexists. split; [boot|]. intros flag x' y'.
  split_and!; [by vm_compute|reflexivity..|].
  apply (SUB_difference_and_flag 0 _ 0x8AF5 5 7); [by vm_compute|reflexivity..].
Defined.

(** X2: one cycle on 8xy7 writes to register 15 the flag 1 when Vy is
    greater than Vx and 0 otherwise, then to register x the difference
    Vy - Vx modulo 256 of the registers as they are after the flag was
    written.  The program counter moves on by 2 and nothing else changes. *)
Theorem SUBN_difference_and_flag rnd c opcode x y :
  wf c →
  opcode_at c = Some opcode → Z.land opcode 0xF00F = 0x8007 →
  index (V c) (Xreg opcode) = Some x →
  index (V c) (Yreg opcode) = Some y →
  let flag := if x <? y then 1 else 0 in
  let x' := if decide (Xreg opcode = VFRegister) then flag else x in
  let y' := if decide (Yreg opcode = VFRegister) then flag else y in
  EmulateCycle rnd c =
    Some (tt, with_V (<[Z.to_nat (Xreg opcode) := (y' - x') mod 256]>
                        (<[Z.to_nat VFRegister := flag]> (V c)))
                (with_PC (PC c + 2) c)).
Proof.
  intros HWF%wf_WF Hop Hpat Hx Hy flag x' y'. operands HWF Hop.
  apply (cycle_eq _ _ opcode); [done..|].
  rewrite (execute_SUBN _ _ Hpat). by apply (op_SUBN_spec (with_PC (PC c + 2) c)).
Qed.

Lemma SUBN_difference_and_flag_witness :
  ∃ c, started [0x6A; 0x05; 0x6B; 0x07; 0x8A; 0xB7] 2 = Some c ∧
       let flag := if 5 <? 7 then 1 else 0 in
       let x' := if decide (Xreg 0x8AB7 = VFRegister) then flag else 5 in
       let y' := if decide (Yreg 0x8AB7 = VFRegister) then flag else 7 in
       wf c ∧ opcode_at c = Some 0x8AB7 ∧ Z.land 0x8AB7 0xF00F = 0x8007 ∧
       index (V c) (Xreg 0x8AB7) = Some 5 ∧
       index (V c) (Yreg 0x8AB7) = Some 7 ∧
       EmulateCycle 0 c =
         Some (tt, with_V (<[Z.to_nat (Xreg 0x8AB7) := (y' - x') mod 256]>
                             (<[Z.to_nat VFRegister := flag]> (V c)))
                     (with_PC (PC c + 2) c)).
Proof.
  eexists. split; [boot|]. intros flag x' y'.
  split_and!; [by vm_compute|reflexivity..|].
  apply (SUBN_difference_and_flag 0 _ 0x8AB7 5 7); [by vm_compute|reflexivity..].
Defined.

Lemma byte_low_bit x : 0 ≤ x → Z.land x 1 = x mod 2.
Proof. intros Hx. change 1 with (Z.ones 1). by rewrite Z.land_ones. Qed.

Lemma op_SHR_spec c X x :
  len (V c) = 16 → 0 ≤ X < 16 → 0 ≤ x →
  index (V c) X = Some x →
  let flag := x mod 2 in
  let x' := if decide (X = VFRegister) then flag else x in
  ensures (op_SHR X) c (λ _ c',
    c' = with_V (<[Z.to_nat X := x' / 2]>
                   (<[Z.to_nat VFRegister := flag]> (V c))) c).
Proof.
  intros HV HX Hx0 Hx flag x'. unfold op_SHR, VFRegister in *.
  exec. rewrite Z.shiftr_div_pow2 by lia. rewrite byte_low_bit by done.
  reflexivity.
Qed.

(** X3: one cycle on 8xy6 writes to register 15 the lowest bit of Vx, then
    to register x the half (rounded down) of register x as it is after
    that write; Vy is not read.  The program counter moves on by 2 and
    nothing else changes. *)
Theorem SHR_half_and_low_bit rnd c opcode x :
  wf c →
  opcode_at c = Some opcode → Z.land opcode 0xF00F = 0x8006 →
  index (V c) (Xreg opcode) = Some x →
  let flag := x mod 2 in
  let x' := if decide (Xreg opcode = VFRegister) then flag else x in
  EmulateCycle rnd c =
    Some (tt, with_V (<[Z.to_nat (Xreg opcode) := x' / 2]>
                        (<[Z.to_nat VFRegister := flag]> (V c)))
                (with_PC (PC c + 2) c)).
Proof.
  intros HWF%wf_WF Hop Hpat Hx flag x'. operands HWF Hop.
  pose proof (V_byte _ _ _ HWF Hx) as Hb.
  apply (cycle_eq _ _ opcode); [done..|].
  rewrite (execute_SHR _ _ Hpat).
  apply (op_SHR_spec (with_PC (PC c + 2) c)); (done || lia).
Qed.

Lemma SHR_half_and_low_bit_witness :
  ∃ c, started [0x63; 0x07; 0x83; 0x46] 1 = Some c ∧
       let flag := 7 mod 2 in
       let x' := if decide (Xreg 0x8346 = VFRegister) then flag else 7 in
       wf c ∧ opcode_at c = Some 0x8346 ∧ Z.land 0x8346 0xF00F = 0x8006 ∧
       index (V c) (Xreg 0x8346) = Some 7 ∧
       EmulateCycle 0 c =
         Some (tt, with_V (<[Z.to_nat (Xreg 0x8346) := x' / 2]>
                             (<[Z.to_nat VFRegister := flag]> (V c)))
                     (with_PC (PC c + 2) c)).
Proof.
  eexists. split; [boot|]. intros flag x'.
  split_and!; [by vm_compute|reflexivity..|].
  apply (SHR_half_and_low_bit 0 _ 0x8346 7); [by vm_compute|reflexivity..].
Defined.

Lemma op_SHL_spec c X x :
  len (V c) = 16 → 0 ≤ X < 16 → 0 ≤ x →
  index (V c) X = Some x →
  let flag := x / 128 in
  let x' := if decide (X = VFRegister) then flag else x in
  ensures (op_SHL X) c (λ _ c',
    c' = with_V (<[Z.to_nat X := (2 * x') mod 256]>
                   (<[Z.to_nat VFRegister := flag]> (V c))) c).
Proof.
  intros HV HX Hx0 Hx flag x'. unfold op_SHL, VFRegister in *.
  exec. rewrite Z.shiftr_div_pow2, Z.shiftl_mul_pow2 by lia.
  rewrite (Z.mul_comm _ (2 ^ 1)). reflexivity.
Qed.

(** X4: one cycle on 8xyE writes to register 15 the highest bit of Vx
    (Vx / 128), then to register x the double modulo 256 of register x as
    it is after that write; Vy is not read.  The program counter moves on
    by 2 and nothing else changes. *)
Theorem SHL_double_and_high_bit rnd c opcode x :
  wf c →
  opcode_at c = Some opcode → Z.land opcode 0xF00F = 0x800E →
  index (V c) (Xreg opcode) = Some x →
  let flag := x / 128 in
  let x' := if decide (Xreg opcode = VFRegister) then flag else x in
  EmulateCycle rnd c =
    Some (tt, with_V (<[Z.to_nat (Xreg opcode) := (2 * x') mod 256]>
                        (<[Z.to_nat VFRegister := flag]> (V c)))
                (with_PC (PC c + 2) c)).
Proof.
  intros HWF%wf_WF Hop Hpat Hx flag x'. operands HWF Hop.
  pose proof (V_byte _ _ _ HWF Hx) as Hb.
  apply (cycle_eq _ _ opcode); [done..|].
  rewrite (execute_SHL _ _ Hpat).
  apply (op_SHL_spec (with_PC (PC c + 2) c)); (done || lia).
Qed.

Lemma SHL_double_and_high_bit_witness :
  ∃ c, started [0x6F; 0xC1; 0x8F; 0x0E] 1 = Some c ∧
       let flag := 0xC1 / 128 in
       let x' := if decide (Xreg 0x8F0E = VFRegister) then flag else 0xC1 in
       wf c ∧ opcode_at c = Some 0x8F0E ∧ Z.land 0x8F0E 0xF00F = 0x800E ∧
       index (V c) (Xreg 0x8F0E) = Some 0xC1 ∧
       EmulateCycle 0 c =
         Some (tt, with_V (<[Z.to_nat (Xreg 0x8F0E) := (2 * x') mod 256]>
                             (<[Z.to_nat VFRegister := flag]> (V c)))
                     (with_PC (PC c + 2) c)).
Proof.
  eexists. split; [boot|]. intros flag x'.
  split_and!; [by vm_compute|reflexivity..|].
  apply (SHL_double_and_high_bit 0 _ 0x8F0E 0xC1); [by vm_compute|reflexivity..].
Defined.

Lemma u8_low_byte opcode : u8 (Z.land opcode ByteMask) = Z.land opcode 0xFF.
Proof. apply u8_small, low_byte_range. Qed.

(** X5: one cycle on 7xkk leaves [(Vx + kk) mod 256] in register x and
    writes no flag: register 15 keeps its value (unless it is the
    destination).  The program counter moves on by 2 and nothing else
    changes. *)
Theorem ADD_byte_wraps_without_flag rnd c opcode x :
  wf c →
  opcode_at c = Some opcode → Z.land opcode 0xF000 = 0x7000 →
  index (V c) (Xreg opcode) = Some x →
  EmulateCycle rnd c =
    Some (tt, with_V (<[Z.to_nat (Xreg opcode) := (x + Z.land opcode 0xFF) mod 256]> (V c))
                (with_PC (PC c + 2) c)).
Proof.
  intros HWF%wf_WF Hop Hpat Hx. operands HWF Hop.
  apply (cycle_eq _ _ opcode); [done..|].
  rewrite (execute_ADD_byte _ _ Hpat). unfold op_ADD_byte. cbv zeta.
  rewrite u8_low_byte. exec. reflexivity.
Qed.

Lemma ADD_byte_wraps_without_flag_witness :
  ∃ c, started [0x6F; 0x01; 0x62; 0xFF; 0x72; 0x02] 2 = Some c ∧
       wf c ∧ opcode_at c = Some 0x7202 ∧ Z.land 0x7202 0xF000 = 0x7000 ∧
       index (V c) (Xreg 0x7202) = Some 0xFF ∧
       EmulateCycle 0 c =
         Some (tt, with_V (<[Z.to_nat (Xreg 0x7202)
                             := (0xFF + Z.land 0x7202 0xFF) mod 256]> (V c))
                     (with_PC (PC c + 2) c)).
Proof.
  eexists. split; [boot|].
  split_and!; [by vm_compute|reflexivity..|].
  apply (ADD_byte_wraps_without_flag 0 _ 0x7202 0xFF); [by vm_compute|reflexivity..].
Defined.

(** X6: one cycle on 8xy1, 8xy2 or 8xy3 leaves in register x the bitwise
    or, and, or exclusive or of Vx and Vy; register 15 is not written
    (unless it is the destination).  The program counter moves on by 2 and
    nothing else changes. *)
Theorem OR_AND_XOR_bitwise rnd c opcode x y :
  wf c →
  opcode_at c = Some opcode →
  index (V c) (Xreg opcode) = Some x →
  index (V c) (Yreg opcode) = Some y →
  ∀ op, (Z.land opcode 0xF00F = 0x8001 ∧ op = Z.lor) ∨
        (Z.land opcode 0xF00F = 0x8002 ∧ op = Z.land) ∨
        (Z.land opcode 0xF00F = 0x8003 ∧ op = Z.lxor) →
  EmulateCycle rnd c =
    Some (tt, with_V (<[Z.to_nat (Xreg opcode) := op x y]> (V c))
                (with_PC (PC c + 2) c)).
Proof.
  intros HWF%wf_WF Hop Hx Hy op Hpat. operands HWF Hop.
  apply (cycle_eq _ _ opcode); [done..|].
  destruct Hpat as [[Hpat ->]|[[Hpat ->]|[Hpat ->]]].
  - rewrite (execute_OR _ _ Hpat). unfold op_OR. exec. reflexivity.
  - rewrite (execute_AND _ _ Hpat). unfold op_AND. exec. reflexivity.
  - rewrite (execute_XOR _ _ Hpat). unfold op_XOR. exec. reflexivity.
Qed.

Lemma OR_AND_XOR_bitwise_witness :
  ∃ c, started [0x61; 0x0C; 0x62; 0x0A; 0x81; 0x23] 2 = Some c ∧
       wf c ∧ opcode_at c = Some 0x8123 ∧
       index (V c) (Xreg 0x8123) = Some 0x0C ∧
       index (V c) (Yreg 0x8123) = Some 0x0A ∧
       ((Z.land 0x8123 0xF00F = 0x8001 ∧ Z.lxor = Z.lor) ∨
        (Z.land 0x8123 0xF00F = 0x8002 ∧ Z.lxor = Z.land) ∨
        (Z.land 0x8123 0xF00F = 0x8003 ∧ Z.lxor = Z.lxor)) ∧
       EmulateCycle 0 c =
         Some (tt, with_V (<[Z.to_nat (Xreg 0x8123) := Z.lxor 0x0C 0x0A]> (V c))
                     (with_PC (PC c + 2) c)).
Proof.
  eexists. split; [boot|].
  assert ((Z.land 0x8123 0xF00F = 0x8001 ∧ Z.lxor = Z.lor) ∨
          (Z.land 0x8123 0xF00F = 0x8002 ∧ Z.lxor = Z.land) ∨
          (Z.land 0x8123 0xF00F = 0x8003 ∧ Z.lxor = Z.lxor)) as Hpat.
  { right. right. split; reflexivity. }
  split_and!; [by vm_compute|reflexivity..|exact Hpat|].
  apply (OR_AND_XOR_bitwise 0 _ 0x8123 0x0C 0x0A);
    [by vm_compute|reflexivity..|exact Hpat].
Defined.

Lemma skip_spec c (b : bool) :
  0 ≤ PC c ≤ 4094 →
  ensures (if b then skip else mret tt) (with_PC (PC c + 2) c)
    (λ _ c', c' = with_PC (PC c + (if b then 4 else 2)) c).
Proof.
  intros HPC. destruct b; [|by apply ensures_ret].
  unfold skip, InstructionSize. exec. simpl.
  rewrite u16_small by lia. by replace (PC c + 2 + 2) with (PC c + 4) by lia.
Qed.

Lemma if_negb {A} (b : bool) (u v : A) : (if negb b then u else v) = if b then v else u.
Proof. by destruct b. Qed.

(** X7: one cycle on 3xkk moves the program counter on by 4 when Vx equals
    kk and by 2 when it does not; one cycle on 4xkk moves it on by 2 when
    Vx equals kk and by 4 when it does not.  Nothing else changes. *)
Theorem SE_SNE_byte_skip rnd c opcode x :
  wf c →
  opcode_at c = Some opcode →
  index (V c) (Xreg opcode) = Some x →
  (Z.land opcode 0xF000 = 0x3000 →
   EmulateCycle rnd c =
     Some (tt, with_PC (PC c + (if x =? Z.land opcode 0xFF then 4 else 2)) c)) ∧
  (Z.land opcode 0xF000 = 0x4000 →
   EmulateCycle rnd c =
     Some (tt, with_PC (PC c + (if x =? Z.land opcode 0xFF then 2 else 4)) c)).
Proof.
  intros HWF%wf_WF Hop Hx. operands HWF Hop.
  split; intros Hpat; apply (cycle_eq _ _ opcode); try done.
  - rewrite (execute_SE_byte _ _ Hpat). unfold op_SE_byte. cbv zeta.
    rewrite u8_low_byte. exec. by apply skip_spec.
  - rewrite (execute_SNE_byte _ _ Hpat). unfold op_SNE_byte. cbv zeta.
    rewrite u8_low_byte. exec. rewrite <- (if_negb (x =? _)). by apply skip_spec.
Qed.

Lemma SE_SNE_byte_skip_witness :
  ∃ c c2, started [0x63; 0x07; 0x33; 0x07; 0x00; 0x00; 0x43; 0x07] 1 = Some c ∧
          started [0x63; 0x07; 0x33; 0x07; 0x00; 0x00; 0x43; 0x07] 2 = Some c2 ∧
    (wf c ∧ opcode_at c = Some 0x3307 ∧ index (V c) (Xreg 0x3307) = Some 7 ∧
     Z.land 0x3307 0xF000 = 0x3000 ∧
     EmulateCycle 0 c =
       Some (tt, with_PC (PC c + (if 7 =? Z.land 0x3307 0xFF then 4 else 2)) c)) ∧
    (wf c2 ∧ opcode_at c2 = Some 0x4307 ∧ index (V c2) (Xreg 0x4307) = Some 7 ∧
     Z.land 0x4307 0xF000 = 0x4000 ∧
     EmulateCycle 0 c2 =
       Some (tt, with_PC (PC c2 + (if 7 =? Z.land 0x4307 0xFF then 2 else 4)) c2)).
Proof.
  eexists. eexists. split; [boot|]. split; [boot|]. split.
  - split_and!; [by vm_compute|reflexivity..|].
    apply (SE_SNE_byte_skip 0 _ 0x3307 7); [by vm_compute|reflexivity..].
  - split_and!; [by vm_compute|reflexivity..|].
    apply (SE_SNE_byte_skip 0 _ 0x4307 7); [by vm_compute|reflexivity..].
Defined.

(** X8: one cycle on an opcode of class 5 moves the program counter on by
    4 when Vx equals Vy and by 2 when it does not, whatever its lowest
    nibble is; one cycle on an opcode of class 9 moves it on by 2 when Vx
    equals Vy and by 4 when it does not.  Nothing else changes. *)
Theorem SE_SNE_reg_skip rnd c opcode x y :
  wf c →
  opcode_at c = Some opcode →
  index (V c) (Xreg opcode) = Some x →
  index (V c) (Yreg opcode) = Some y →
  (Z.land opcode 0xF000 = 0x5000 →
   EmulateCycle rnd c = Some (tt, with_PC (PC c + (if x =? y then 4 else 2)) c)) ∧
  (Z.land opcode 0xF000 = 0x9000 →
   EmulateCycle rnd c = Some (tt, with_PC (PC c + (if x =? y then 2 else 4)) c)).
Proof.
  intros HWF%wf_WF Hop Hx Hy. operands HWF Hop.
  split; intros Hpat; apply (cycle_eq _ _ opcode); try done.
  - rewrite (execute_SE_reg _ _ Hpat). unfold op_SE_reg. cbv zeta.
    exec. by apply skip_spec.
  - rewrite (execute_SNE_reg _ _ Hpat). unfold op_SNE_reg. cbv zeta.
    exec. rewrite <- (if_negb (x =? _)). by apply skip_spec.
Qed.

Lemma SE_SNE_reg_skip_witness :
  ∃ c c2, started [0x63; 0x07; 0x53; 0x4F; 0x93; 0x40] 1 = Some c ∧
          started [0x63; 0x07; 0x53; 0x4F; 0x93; 0x40] 2 = Some c2 ∧
    (wf c ∧ opcode_at c = Some 0x534F ∧
     index (V c) (Xreg 0x534F) = Some 7 ∧ index (V c) (Yreg 0x534F) = Some 0 ∧
     Z.land 0x534F 0xF000 = 0x5000 ∧
     EmulateCycle 0 c = Some (tt, with_PC (PC c + (if 7 =? 0 then 4 else 2)) c)) ∧
    (wf c2 ∧ opcode_at c2 = Some 0x9340 ∧
     index (V c2) (Xreg 0x9340) = Some 7 ∧ index (V c2) (Yreg 0x9340) = Some 0 ∧
     Z.land 0x9340 0xF000 = 0x9000 ∧
     EmulateCycle 0 c2 = Some (tt, with_PC (PC c2 + (if 7 =? 0 then 2 else 4)) c2)).
Proof.
  eexists. eexists. split; [boot|]. split; [boot|]. split.
  - split_and!; [by vm_compute|reflexivity..|].
    apply (SE_SNE_reg_skip 0 _ 0x534F 7 0); [by vm_compute|reflexivity..].
  - split_and!; [by vm_compute|reflexivity..|].
    apply (SE_SNE_reg_skip 0 _ 0x9340 7 0); [by vm_compute|reflexivity..].
Defined.

(** X9: with a key number k of at most 15 in register x, one cycle on Ex9E
    moves the program counter on by 4 when key k is down and by 2 when it
    is up; one cycle on ExA1 moves it on by 2 when key k is down and by 4
    when it is up.  Nothing else changes. *)
Theorem SKP_SKNP_skip rnd c opcode k (down : bool) :
  wf c →
  opcode_at c = Some opcode →
  index (V c) (Xreg opcode) = Some k →
  index (Keys c) k = Some down →
  (Z.land opcode 0xF0FF = 0xE09E →
   EmulateCycle rnd c = Some (tt, with_PC (PC c + (if down then 4 else 2)) c)) ∧
  (Z.land opcode 0xF0FF = 0xE0A1 →
   EmulateCycle rnd c = Some (tt, with_PC (PC c + (if down then 2 else 4)) c)).
Proof.
  intros HWF%wf_WF Hop Hk Hdown. operands HWF Hop.
  split; intros Hpat; apply (cycle_eq _ _ opcode); try done.
  - rewrite (execute_SKP _ _ Hpat). unfold op_SKP. exec.
    apply (ensures_readKey _ _ down); [done|]. by apply skip_spec.
  - rewrite (execute_SKNP _ _ Hpat). unfold op_SKNP. exec.
    apply (ensures_readKey _ _ down); [done|].
    rewrite <- (if_negb down). by apply skip_spec.
Qed.

Lemma SKP_SKNP_skip_witness :
  ∃ c0, started [0x63; 0x07; 0xE3; 0x9E; 0xE3; 0xA1] 1 = Some c0 ∧
    let c := with_Keys (<[7%nat := true]> (Keys c0)) c0 in
    let c2 := with_PC (PC c0 + 2) c0 in
    (wf c ∧ opcode_at c = Some 0xE39E ∧
     index (V c) (Xreg 0xE39E) = Some 7 ∧ index (Keys c) 7 = Some true ∧
     Z.land 0xE39E 0xF0FF = 0xE09E ∧
     EmulateCycle 0 c = Some (tt, with_PC (PC c + (if true then 4 else 2)) c)) ∧
    (wf c2 ∧ opcode_at c2 = Some 0xE3A1 ∧
     index (V c2) (Xreg 0xE3A1) = Some 7 ∧ index (Keys c2) 7 = Some false ∧
     Z.land 0xE3A1 0xF0FF = 0xE0A1 ∧
     EmulateCycle 0 c2 = Some (tt, with_PC (PC c2 + (if false then 2 else 4)) c2)).
Proof.
  eexists. split; [boot|]. intros c c2. split.
  - split_and!; [by vm_compute|reflexivity..|].
    apply (SKP_SKNP_skip 0 c 0xE39E 7 true); [by vm_compute|reflexivity..].
  - split_and!; [by vm_compute|reflexivity..|].
    apply (SKP_SKNP_skip 0 c2 0xE3A1 7 false); [by vm_compute|reflexivity..].
Defined.

(** A fetch at 4095 or beyond reads outside the memory. *)
Lemma EmulateCycle_beyond rnd c : WF c → 4095 ≤ PC c → EmulateCycle rnd c = None.
Proof.
  intros HWF HPC. destruct (EmulateCycle rnd c) as [r|] eqn:E; [|done].
  destruct (EmulateCycle_ran_in_bounds _ _ _ HWF E) as [? _]. lia.
Qed.

(** X10: one cycle on Bnnn sets the program counter to nnn + V0, not
    reduced to 12 bits: the sum can be as large as 4350.  When it is 4095
    or more, the program counter is outside the memory and the following
    cycle aborts.  Nothing but the program counter changes. *)
Theorem JP_V0_unmasked rnd c opcode v0 :
  wf c →
  opcode_at c = Some opcode → Z.land opcode 0xF000 = 0xB000 →
  index (V c) 0 = Some v0 →
  let target := Z.land opcode 0xFFF + v0 in
  EmulateCycle rnd c = Some (tt, with_PC target c) ∧
  (4095 ≤ target → ∀ rnd', EmulateCycle rnd' (with_PC target c) = None).
Proof.
  intros HWF%wf_WF Hop Hpat Hv0 target. operands HWF Hop.
  pose proof (V_byte _ _ _ HWF Hv0) as Hb.
  pose proof (address_range opcode) as Hnnn. unfold AddressMask in Hnnn.
  split.
  - apply (cycle_eq _ _ opcode); [done..|].
    rewrite (execute_JP_V0 _ _ Hpat). unfold op_JP_V0, AddressMask. exec.
    simpl. by rewrite u16_small by lia.
  - intros Hout rnd'. apply EmulateCycle_beyond; [|done].
    apply WF_with_PC; [done|]. unfold target. lia.
Qed.

Lemma JP_V0_unmasked_witness :
  ∃ c, started [0x60; 0x02; 0xBF; 0xFE] 1 = Some c ∧
       let target := Z.land 0xBFFE 0xFFF + 2 in
       wf c ∧ opcode_at c = Some 0xBFFE ∧ Z.land 0xBFFE 0xF000 = 0xB000 ∧
       index (V c) 0 = Some 2 ∧
       EmulateCycle 0 c = Some (tt, with_PC target c) ∧
       (4095 ≤ target → ∀ rnd', EmulateCycle rnd' (with_PC target c) = None).
Proof.
  eexists. split; [boot|]. intros target.
  split; [by vm_compute|]. split; [reflexivity|].
  split; [reflexivity|]. split; [reflexivity|].
  apply (JP_V0_unmasked 0 _ 0xBFFE 2); [by vm_compute|reflexivity..].
Defined.

Lemma op_ADD_I_spec c X x :
  len (V c) = 16 → 0 ≤ X < 16 →
  index (V c) X = Some x →
  let flag := if 4095 <? (I c + x) mod 65536 then 1 else 0 in
  let x' := if decide (X = VFRegister) then flag else x in
  ensures (op_ADD_I X) c (λ _ c',
    c' = with_I ((I c + x') mod 65536)
           (with_V (<[Z.to_nat VFRegister := flag]> (V c)) c)).
Proof.
  intros HV HX Hx flag x'. unfold op_ADD_I, VFRegister, AddressMax in *.
  exec. reflexivity.
Qed.

(** X11: one cycle on Fx1E writes to register 15 the flag 1 when the 16-bit
    sum of the index register and Vx is above 4095 and 0 otherwise, then
    adds to the index register, modulo 65536, register x as it is after
    that write: for x = 15 the flag is added, not the old value.  The
    program counter moves on by 2 and nothing else changes. *)
Theorem ADD_I_sum_and_flag rnd c opcode x :
  wf c →
  opcode_at c = Some opcode → Z.land opcode 0xF0FF = 0xF01E →
  index (V c) (Xreg opcode) = Some x →
  let flag := if 4095 <? (I c + x) mod 65536 then 1 else 0 in
  let x' := if decide (Xreg opcode = VFRegister) then flag else x in
  EmulateCycle rnd c =
    Some (tt, with_I ((I c + x') mod 65536)
                (with_V (<[Z.to_nat VFRegister := flag]> (V c))
                   (with_PC (PC c + 2) c))).
Proof.
  intros HWF%wf_WF Hop Hpat Hx flag x'. operands HWF Hop.
  apply (cycle_eq _ _ opcode); [done..|].
  rewrite (execute_ADD_I _ _ Hpat).
  by apply (op_ADD_I_spec (with_PC (PC c + 2) c)).
Qed.

Lemma ADD_I_sum_and_flag_witness :
  ∃ c, started [0xAF; 0xFF; 0x6F; 0x09; 0xFF; 0x1E] 2 = Some c ∧
       let flag := if 4095 <? (I c + 9) mod 65536 then 1 else 0 in
       let x' := if decide (Xreg 0xFF1E = VFRegister) then flag else 9 in
       wf c ∧ opcode_at c = Some 0xFF1E ∧ Z.land 0xFF1E 0xF0FF = 0xF01E ∧
       index (V c) (Xreg 0xFF1E) = Some 9 ∧
       EmulateCycle 0 c =
         Some (tt, with_I ((I c + x') mod 65536)
                     (with_V (<[Z.to_nat VFRegister := flag]> (V c))
                        (with_PC (PC c + 2) c))).
Proof.
  eexists. split; [boot|]. intros flag x'.
  split_and!; [by vm_compute|reflexivity..|].
  apply (ADD_I_sum_and_flag 0 _ 0xFF1E 9); [by vm_compute|reflexivity..].
Defined.

(** ** The timers *)

Lemma with_DT_id c : with_DT (DT c) c = c.
Proof. by destruct c. Qed.

Lemma with_ST_id c : with_ST (ST c) c = c.
Proof. by destruct c. Qed.

Lemma UpdateTimers_spec c :
  0 ≤ DT c < 256 → 0 ≤ ST c < 256 →
  UpdateTimers c =
    Some (tt, with_ST (Z.max 0 (ST c - 1)) (with_DT (Z.max 0 (DT c - 1)) c)).
Proof.
  intros HDT HST.
  assert (with_DT (Z.max 0 (DT c - 1)) c
          = if 0 <? DT c then with_DT (u8 (DT c - 1)) c else c) as ->.
  { destruct (Z.ltb_spec 0 (DT c)).
    - by rewrite u8_small, Z.max_r by lia.
    - rewrite Z.max_l by lia. replace 0 with (DT c) by lia. apply with_DT_id. }
  assert (∀ c1 : Chip8, ST c1 = ST c →
            with_ST (Z.max 0 (ST c - 1)) c1
            = if 0 <? ST c then with_ST (u8 (ST c - 1)) c1 else c1) as HS.
  { intros c1 E. destruct (Z.ltb_spec 0 (ST c)).
    - by rewrite u8_small, Z.max_r by lia.
    - rewrite Z.max_l by lia. replace 0 with (ST c1) by lia. apply with_ST_id. }
  rewrite HS by (by destruct (0 <? DT c)).
  unfold UpdateTimers, getDT, getST, setDT, setST, mbind, M_bind, mret, M_ret.
  destruct (0 <? DT c); simpl; by destruct (0 <? ST c).
Qed.

Lemma UpdateTimers_loop (k : nat) i c :
  0 ≤ DT c < 256 → 0 ≤ ST c < 256 →
  loop k i (λ _, UpdateTimers ;; next) c =
    Some (tt, with_ST (Z.max 0 (ST c - Z.of_nat k))
                (with_DT (Z.max 0 (DT c - Z.of_nat k)) c)).
Proof.
  revert i c. induction k as [|k IH]; intros i c HDT HST.
  - simpl. rewrite !Z.sub_0_r, !Z.max_r by lia. by destruct c.
  - cbn [loop].
    assert ((UpdateTimers ;; next) c
            = Some (true, with_ST (Z.max 0 (ST c - 1)) (with_DT (Z.max 0 (DT c - 1)) c)))
      as Hbody.
    { unfold next. by rewrite (bind_Some _ _ _ _ _ (UpdateTimers_spec c HDT HST)). }
    rewrite (bind_Some _ _ _ _ _ Hbody). rewrite IH by (simpl; lia).
    do 2 f_equal. apply Chip8_ext; simpl; (done || lia).
Qed.

Lemma UpdateTimers_for_range n c :
  WF c → 0 ≤ n →
  for_range 0 n (λ _, UpdateTimers ;; next) c =
    Some (tt, with_ST (Z.max 0 (ST c - n)) (with_DT (Z.max 0 (DT c - n)) c)).
Proof.
  intros HWF Hn. unfold for_range.
  rewrite UpdateTimers_loop by apply HWF.
  by rewrite Z.sub_0_r, Z2Nat.id by done.
Qed.

(** X12: [UpdateTimers] called n times in a row never aborts and leaves
    each timer at its value less n, or at 0 when it was n or less: a timer
    stops at 0 and does not wrap around to 255.  Nothing but the two timers
    changes. *)
Theorem UpdateTimers_counts_down_to_zero n c :
  wf c → 0 ≤ n →
  for_range 0 n (λ _, UpdateTimers ;; next) c =
    Some (tt, with_ST (Z.max 0 (ST c - n)) (with_DT (Z.max 0 (DT c - n)) c)).
Proof. intros HWF%wf_WF Hn. by apply UpdateTimers_for_range. Qed.

Lemma UpdateTimers_counts_down_to_zero_witness :
  ∃ c, started [0x63; 0x05; 0xF3; 0x15; 0x64; 0x02; 0xF4; 0x18] 4 = Some c ∧
       wf c ∧ 0 ≤ 3 ∧ DT c = 5 ∧ ST c = 2 ∧
       for_range 0 3 (λ _, UpdateTimers ;; next) c =
         Some (tt, with_ST (Z.max 0 (ST c - 3)) (with_DT (Z.max 0 (DT c - 3)) c)).
Proof.
  eexists. split; [boot|].
  split_and!; [by vm_compute|lia|reflexivity..|].
  apply (UpdateTimers_counts_down_to_zero 3); [by vm_compute|lia].
Defined.

(** X13: the delay timer set from a register holding v (Fx15), then
    [UpdateTimers] called n times, then read into a register (Fy07): the
    register holds v - n, or 0 when n is v or more. *)
Theorem delay_timer_set_tick_read rnd rnd' c set get v n :
  wf c → 0 ≤ n →
  opcode_at c = Some set → Z.land set 0xF0FF = 0xF015 →
  index (V c) (Xreg set) = Some v →
  opcode_at (with_PC (PC c + 2) c) = Some get → Z.land get 0xF0FF = 0xF007 →
  ∃ c1 c2 c3,
    EmulateCycle rnd c = Some (tt, c1) ∧
    for_range 0 n (λ _, UpdateTimers ;; next) c1 = Some (tt, c2) ∧
    EmulateCycle rnd' c2 = Some (tt, c3) ∧
    index (V c3) (Xreg get) = Some (Z.max 0 (v - n)) ∧
    DT c3 = Z.max 0 (v - n).
Proof.
  intros HWF%wf_WF Hn Hset Hpat Hv Hget Hpat'. operands HWF Hset.
  pose proof (V_byte _ _ _ HWF Hv) as Hb.
  assert (WF (with_PC (PC c + 2) c)) as HWF0 by solve_WF.
  set (c1 := with_DT v (with_PC (PC c + 2) c)).
  assert (WF c1) as HWF1 by (unfold c1; solve_WF).
  set (c2 := with_ST (Z.max 0 (ST c1 - n)) (with_DT (Z.max 0 (DT c1 - n)) c1)).
  assert (WF c2) as HWF2.
  { pose proof (WF_ST _ HWF1). pose proof (WF_DT _ HWF1). unfold c2. solve_WF. }
  assert (opcode_at c2 = Some get) as Hget2.
  { rewrite <- Hget. by apply opcode_at_ext. }
  exists c1, c2. eexists. split_and!.
  - apply (cycle_eq _ _ set); [done..|].
    rewrite (execute_LD_DT_Vx _ _ Hpat). unfold op_LD_DT_Vx. exec. reflexivity.
  - by apply UpdateTimers_for_range.
  - apply (cycle_eq _ _ get); [done..|].
    pose proof (Xreg_range get) as HX'.
    rewrite (execute_LD_Vx_DT _ _ Hpat'). unfold op_LD_Vx_DT. exec.
    reflexivity.
  - simpl. apply index_insert_eq. rewrite HV. apply Xreg_range.
  - reflexivity.
Qed.

Lemma delay_timer_set_tick_read_witness :
  ∃ c, started [0x63; 0x05; 0xF3; 0x15; 0xF4; 0x07] 1 = Some c ∧
       wf c ∧ 0 ≤ 3 ∧
       opcode_at c = Some 0xF315 ∧ Z.land 0xF315 0xF0FF = 0xF015 ∧
       index (V c) (Xreg 0xF315) = Some 5 ∧
       opcode_at (with_PC (PC c + 2) c) = Some 0xF407 ∧
       Z.land 0xF407 0xF0FF = 0xF007 ∧
       ∃ c1 c2 c3,
         EmulateCycle 0 c = Some (tt, c1) ∧
         for_range 0 3 (λ _, UpdateTimers ;; next) c1 = Some (tt, c2) ∧
         EmulateCycle 0 c2 = Some (tt, c3) ∧
         index (V c3) (Xreg 0xF407) = Some (Z.max 0 (5 - 3)) ∧
         DT c3 = Z.max 0 (5 - 3).
Proof.
  eexists. split; [boot|].
  split_and!; [by vm_compute|lia|reflexivity..|].
  apply (delay_timer_set_tick_read 0 0 _ 0xF315 0xF407 5 3);
    [by vm_compute|lia|reflexivity..].
Defined.

(** ** Font sprites, decimal digits, registers in memory *)

(** X14: one cycle on Fx29 sets the index register to [(Vx * 5) mod 256],
    which is Vx * 5 exactly when Vx is at most 51.  For a digit Vx of at
    most 15, on a machine whose font table is as [New] made it, the five
    bytes at the index register are then the glyph of that digit.  The
    program counter moves on by 2 and nothing else changes. *)
Theorem LD_F_points_at_glyph rnd c opcode v :
  wf c →
  opcode_at c = Some opcode → Z.land opcode 0xF0FF = 0xF029 →
  index (V c) (Xreg opcode) = Some v →
  let c' := with_I ((v * 5) mod 256) (with_PC (PC c + 2) c) in
  EmulateCycle rnd c = Some (tt, c') ∧
  (I c' = v * 5 ↔ v ≤ 51) ∧
  (v ≤ 15 →
   (∀ a, 0 ≤ a < 80 → index (Memory c) a = index fontSet a) →
   ∀ k, 0 ≤ k < 5 → index (Memory c') (I c' + k) = index fontSet (5 * v + k)).
Proof.
  intros HWF%wf_WF Hop Hpat Hv c'. operands HWF Hop.
  pose proof (V_byte _ _ _ HWF Hv) as Hb.
  split_and!.
  - apply (cycle_eq _ _ opcode); [done..|].
    rewrite (execute_LD_F _ _ Hpat). unfold op_LD_F, FontSpriteHeight. exec.
    reflexivity.
  - change (I c') with ((v * 5) mod 256). split.
    + intros E. pose proof (Z.mod_pos_bound (v * 5) 256). lia.
    + intros Hle. apply Z.mod_small. lia.
  - intros Hdigit Hfont k Hk.
    change (I c') with ((v * 5) mod 256). change (Memory c') with (Memory c).
    rewrite Z.mod_small by lia. rewrite Hfont by lia. f_equal. lia.
Qed.

Lemma LD_F_points_at_glyph_witness :
  ∃ c, started [0x60; 0x0A; 0xF0; 0x29] 1 = Some c ∧
       let c' := with_I ((10 * 5) mod 256) (with_PC (PC c + 2) c) in
       wf c ∧ opcode_at c = Some 0xF029 ∧ Z.land 0xF029 0xF0FF = 0xF029 ∧
       index (V c) (Xreg 0xF029) = Some 10 ∧
       EmulateCycle 0 c = Some (tt, c') ∧
       (I c' = 10 * 5 ↔ 10 ≤ 51) ∧
       (10 ≤ 15 →
        (∀ a, 0 ≤ a < 80 → index (Memory c) a = index fontSet a) →
        ∀ k, 0 ≤ k < 5 → index (Memory c') (I c' + k) = index fontSet (5 * 10 + k)).
Proof.
  eexists. split; [boot|]. intros c'.
  split; [by vm_compute|]. split; [reflexivity|].
  split; [reflexivity|]. split; [reflexivity|].
  apply (LD_F_points_at_glyph 0 _ 0xF029 10); [by vm_compute|reflexivity..].
Defined.

Lemma Display_cleared c :
  WF c →
  (∀ y x, 0 ≤ y < 32 → 0 ≤ x < 64 → pixel c y x = Some false) →
  Display c = replicate 32%nat (replicate 64%nat false).
Proof.
  intros HWF Hdisp.
  apply index_ext; [by rewrite (WF_Disp _ HWF)|].
  intros y Hy. rewrite (WF_Disp _ HWF) in Hy.
  destruct (Display_row c y HWF Hy) as (row & Hrow & Hlen).
  rewrite Hrow, index_replicate by lia. f_equal.
  apply index_ext; [by rewrite Hlen|].
  intros x Hx. rewrite Hlen in Hx. rewrite index_replicate by lia.
  specialize (Hdisp y x Hy Hx). unfold pixel in Hdisp. by rewrite Hrow in Hdisp.
Qed.

Lemma op_CLS_spec c :
  WF c →
  ensures op_CLS c (λ _ c',
    c' = with_DrawFlag true (with_Display (replicate 32%nat (replicate 64%nat false)) c)).
Proof.
  intros HWF. unfold op_CLS. apply ensures_bind.
  eapply ensures_mono; [by apply clear_display_spec|].
  intros _ c1 (HWF1 & Heq & Hdisp). exec.
  rewrite Heq. simpl. by rewrite (Display_cleared c1).
Qed.

(** X15: one cycle on 00E0 unsets every cell of the display and sets the
    draw flag.  The program counter moves on by 2 and nothing else
    changes. *)
Theorem CLS_clears_display rnd c opcode :
  wf c →
  opcode_at c = Some opcode → Z.land opcode 0xF0FF = 0x00E0 →
  EmulateCycle rnd c =
    Some (tt, with_DrawFlag true
                (with_Display (replicate (Z.to_nat DisplayHeight)
                                 (replicate (Z.to_nat DisplayWidth) false))
                   (with_PC (PC c + 2) c))).
Proof.
  intros HWF%wf_WF Hop Hpat. operands HWF Hop.
  apply (cycle_eq _ _ opcode); [done..|].
  rewrite (execute_CLS _ _ Hpat).
  apply (op_CLS_spec (with_PC (PC c + 2) c)). solve_WF.
Qed.

Lemma CLS_clears_display_witness :
  ∃ c, started [0xD0; 0x05; 0x00; 0xE0] 1 = Some c ∧
       wf c ∧ opcode_at c = Some 0x00E0 ∧ Z.land 0x00E0 0xF0FF = 0x00E0 ∧
       pixel c 0 0 = Some true ∧
       EmulateCycle 0 c =
         Some (tt, with_DrawFlag true
                     (with_Display (replicate (Z.to_nat DisplayHeight)
                                      (replicate (Z.to_nat DisplayWidth) false))
                        (with_PC (PC c + 2) c))).
Proof.
  eexists. split; [boot|].
  split_and!; [by vm_compute|reflexivity..|].
  apply (CLS_clears_display 0 _ 0x00E0); [by vm_compute|reflexivity..].
Defined.

Lemma op_LD_B_spec c X v :
  WF c → index (V c) X = Some v → I c ≤ 4093 →
  ensures (op_LD_B X) c (λ _ c',
    c' = with_Memory (<[Z.to_nat (I c + 2) := v mod 10]>
                        (<[Z.to_nat (I c + 1) := v / 10 mod 10]>
                           (<[Z.to_nat (I c) := v / 100]> (Memory c)))) c).
Proof.
  intros HWF Hv HI. pose proof (WF_I _ HWF) as HI0. pose proof (WF_Mem _ HWF) as HM.
  unfold op_LD_B, Hundreds, Tens. exec.
  apply ensures_writeMem; [lia|]. exec.
  rewrite u16_small by (simpl; lia).
  apply ensures_writeMem; [simpl; rewrite len_insert; lia|]. exec.
  rewrite u16_small by (simpl; lia).
  apply ensures_writeMem; [simpl; rewrite !len_insert; lia|]. reflexivity.
Qed.

(** X16: with the index register at most 4093, one cycle on Fx33 writes
    the three decimal digits of Vx to memory at the index register,
    hundreds first: each is from 0 to 9 and together they give Vx back.
    The index register is not moved, the program counter moves on by 2
    and no other byte of memory changes. *)
Theorem LD_B_decimal_digits rnd c opcode v :
  wf c →
  opcode_at c = Some opcode → Z.land opcode 0xF0FF = 0xF033 →
  index (V c) (Xreg opcode) = Some v →
  I c ≤ 4093 →
  let h := v / 100 in
  let t := v / 10 mod 10 in
  let o := v mod 10 in
  EmulateCycle rnd c =
    Some (tt, with_Memory (<[Z.to_nat (I c + 2) := o]>
                             (<[Z.to_nat (I c + 1) := t]>
                                (<[Z.to_nat (I c) := h]> (Memory c))))
                (with_PC (PC c + 2) c)) ∧
  0 ≤ h ≤ 9 ∧ 0 ≤ t ≤ 9 ∧ 0 ≤ o ≤ 9 ∧ 100 * h + 10 * t + o = v.
Proof.
  intros HWF%wf_WF Hop Hpat Hv HI h t o. operands HWF Hop.
  pose proof (V_byte _ _ _ HWF Hv) as Hb.
  split.
  - apply (cycle_eq _ _ opcode); [done..|].
    rewrite (execute_LD_B _ _ Hpat).
    apply (op_LD_B_spec (with_PC (PC c + 2) c)); [solve_WF|done..].
  - unfold h, t, o.
    pose proof (Z.mod_pos_bound (v / 10) 10). pose proof (Z.mod_pos_bound v 10).
    pose proof (Z.div_mod v 10). pose proof (Z.div_mod (v / 10) 10).
    assert (v / 10 / 10 = v / 100) as E by (by rewrite Z.div_div by lia).
    assert (0 ≤ v / 100 < 3).
    { split; [apply Z.div_pos; lia|]. apply Z.div_lt_upper_bound; lia. }
    lia.
Qed.

Lemma LD_B_decimal_digits_witness :
  ∃ c, started [0x60; 0xEA; 0xA3; 0x00; 0xF0; 0x33] 2 = Some c ∧
       let h := 234 / 100 in
       let t := 234 / 10 mod 10 in
       let o := 234 mod 10 in
       wf c ∧ opcode_at c = Some 0xF033 ∧ Z.land 0xF033 0xF0FF = 0xF033 ∧
       index (V c) (Xreg 0xF033) = Some 234 ∧
       I c ≤ 4093 ∧
       EmulateCycle 0 c =
         Some (tt, with_Memory (<[Z.to_nat (I c + 2) := o]>
                                  (<[Z.to_nat (I c + 1) := t]>
                                     (<[Z.to_nat (I c) := h]> (Memory c))))
                     (with_PC (PC c + 2) c)) ∧
       0 ≤ h ≤ 9 ∧ 0 ≤ t ≤ 9 ∧ 0 ≤ o ≤ 9 ∧ 100 * h + 10 * t + o = 234.
Proof.
  eexists. split; [boot|]. intros h t o.
  split; [by vm_compute|]. split; [reflexivity|]. split; [reflexivity|].
  split; [reflexivity|]. split; [by vm_compute|].
  apply (LD_B_decimal_digits 0 _ 0xF033 234); [by vm_compute|reflexivity..|by vm_compute].
Defined.

Lemma op_LD_mem_Vx_spec c X :
  WF c → 0 ≤ X < 16 → I c + X ≤ 4095 →
  ensures (op_LD_mem_Vx X) c (λ _ c',
    WF c' ∧ c' = with_Memory (Memory c') c ∧
    (∀ i, 0 ≤ i ≤ X → index (Memory c') (I c + i) = index (V c) i) ∧
    (∀ a, a < I c ∨ I c + X < a → index (Memory c') a = index (Memory c) a)).
Proof.
  intros HWF HX HI. pose proof (WF_I _ HWF) as HI0. unfold op_LD_mem_Vx.
  apply (ensures_for_range
           (λ j c0, WF c0 ∧ c0 = with_Memory (Memory c0) c ∧
                    (∀ i, 0 ≤ i < j → index (Memory c0) (I c + i) = index (V c) i) ∧
                    (∀ a, a < I c ∨ I c + j ≤ a →
                          index (Memory c0) a = index (Memory c) a))).
  - lia.
  - split_and!; [done|apply with_Memory_id|lia|done].
  - intros j c0 Hj (HWF0 & Heq & Hin & Hout).
    assert (I c0 = I c) as EI by (by rewrite Heq).
    assert (V c0 = V c) as EV by (by rewrite Heq).
    destruct (index_is_Some (V c) j) as [v Hv]; [rewrite (WF_V _ HWF); lia|].
    pose proof (V_byte _ _ _ HWF Hv) as Hb.
    exec. apply (ensures_readV _ _ v); [by rewrite EV|]. exec.
    rewrite EI, u16_small by lia.
    apply ensures_writeMem; [rewrite (WF_Mem _ HWF0); lia|]. apply ensures_next.
    split_and!.
    + by apply WF_with_Memory.
    + simpl. by rewrite Heq.
    + intros i Hi. simpl. destruct (Z.eq_dec i j) as [->|Hne].
      * rewrite Hv. apply index_insert_eq. rewrite (WF_Mem _ HWF0). lia.
      * rewrite index_insert_ne by lia. apply Hin. lia.
    + intros a Ha. simpl. rewrite index_insert_ne by lia. apply Hout. lia.
  - intros c0 (? & ? & Hin & Hout). split_and!; [done..| |].
    + intros i Hi. apply Hin. lia.
    + intros a Ha. apply Hout. lia.
Qed.

Lemma op_LD_Vx_mem_spec c X :
  WF c → 0 ≤ X < 16 → I c + X ≤ 4095 →
  ensures (op_LD_Vx_mem X) c (λ _ c',
    WF c' ∧ c' = with_V (V c') c ∧
    (∀ i, 0 ≤ i ≤ X → index (V c') i = index (Memory c) (I c + i)) ∧
    (∀ i, X < i → index (V c') i = index (V c) i)).
Proof.
  intros HWF HX HI. pose proof (WF_I _ HWF) as HI0. unfold op_LD_Vx_mem.
  apply (ensures_for_range
           (λ j c0, WF c0 ∧ c0 = with_V (V c0) c ∧
                    (∀ i, 0 ≤ i < j → index (V c0) i = index (Memory c) (I c + i)) ∧
                    (∀ i, j ≤ i → index (V c0) i = index (V c) i))).
  - lia.
  - split_and!; [done|apply with_V_id|lia|done].
  - intros j c0 Hj (HWF0 & Heq & Hin & Hout).
    assert (I c0 = I c) as EI by (by rewrite Heq).
    assert (Memory c0 = Memory c) as EM by (by rewrite Heq).
    destruct (index_is_Some (Memory c) (I c + j)) as [v Hv];
      [rewrite (WF_Mem _ HWF); lia|].
    pose proof (Memory_byte _ _ _ HWF Hv) as Hb.
    exec. rewrite EI, u16_small by lia.
    apply (ensures_readMem _ _ v); [by rewrite EM|].
    apply ensures_bind, ensures_writeV; [rewrite (WF_V _ HWF0); lia|].
    apply ensures_next. split_and!.
    + by apply WF_with_V.
    + simpl. by rewrite Heq.
    + intros i Hi. simpl. destruct (Z.eq_dec i j) as [->|Hne].
      * rewrite Hv. apply index_insert_eq. rewrite (WF_V _ HWF0). lia.
      * rewrite index_insert_ne by lia. apply Hin. lia.
    + intros i Hi. simpl. rewrite index_insert_ne by lia. apply Hout. lia.
  - intros c0 (? & ? & Hin & Hout). split_and!; [done..| |].
    + intros i Hi. apply Hin. lia.
    + intros i Hi. apply Hout. lia.
Qed.

Lemma LD_mem_Vx_cycle rnd c opcode :
  WF c →
  opcode_at c = Some opcode → Z.land opcode 0xF0FF = 0xF055 →
  I c + Xreg opcode ≤ 4095 →
  ∃ c', EmulateCycle rnd c = Some (tt, c') ∧ WF c' ∧
        c' = with_Memory (Memory c') (with_PC (PC c + 2) c) ∧
        (∀ i, 0 ≤ i ≤ Xreg opcode → index (Memory c') (I c + i) = index (V c) i) ∧
        (∀ a, a < I c ∨ I c + Xreg opcode < a →
              index (Memory c') a = index (Memory c) a).
Proof.
  intros HWF Hop Hpat HI. operands HWF Hop.
  rewrite (EmulateCycle_execute _ _ _ HWF Hop), (execute_LD_mem_Vx _ _ Hpat).
  destruct (op_LD_mem_Vx_spec (with_PC (PC c + 2) c) (Xreg opcode))
    as ([] & c' & Hrun & H); [solve_WF|done..|].
  by exists c'.
Qed.

Lemma LD_Vx_mem_cycle rnd c opcode :
  WF c →
  opcode_at c = Some opcode → Z.land opcode 0xF0FF = 0xF065 →
  I c + Xreg opcode ≤ 4095 →
  ∃ c', EmulateCycle rnd c = Some (tt, c') ∧ WF c' ∧
        c' = with_V (V c') (with_PC (PC c + 2) c) ∧
        (∀ i, 0 ≤ i ≤ Xreg opcode → index (V c') i = index (Memory c) (I c + i)) ∧
        (∀ i, Xreg opcode < i → index (V c') i = index (V c) i).
Proof.
  intros HWF Hop Hpat HI. operands HWF Hop.
  rewrite (EmulateCycle_execute _ _ _ HWF Hop), (execute_LD_Vx_mem _ _ Hpat).
  destruct (op_LD_Vx_mem_spec (with_PC (PC c + 2) c) (Xreg opcode))
    as ([] & c' & Hrun & H); [solve_WF|done..|].
  by exists c'.
Qed.

(** X17: with the bytes from the index register I to I + x inside the
    memory, one cycle on Fx55 copies registers 0 to x to memory at I, in
    order; it leaves the index register where it was and changes no other
    byte of memory.  The program counter moves on by 2 and nothing else
    changes. *)
Theorem LD_mem_Vx_stores_registers rnd c opcode :
  wf c →
  opcode_at c = Some opcode → Z.land opcode 0xF0FF = 0xF055 →
  I c + Xreg opcode ≤ 4095 →
  ∃ c', EmulateCycle rnd c = Some (tt, c') ∧
        c' = with_Memory (Memory c') (with_PC (PC c + 2) c) ∧
        (∀ i, 0 ≤ i ≤ Xreg opcode → index (Memory c') (I c + i) = index (V c) i) ∧
        (∀ a, a < I c ∨ I c + Xreg opcode < a →
              index (Memory c') a = index (Memory c) a).
Proof.
  intros HWF%wf_WF Hop Hpat HI.
  destruct (LD_mem_Vx_cycle rnd c opcode HWF Hop Hpat HI) as (c' & ? & _ & ?).
  by exists c'.
Qed.

Lemma LD_mem_Vx_stores_registers_witness :
  ∃ c, started [0x60; 0x11; 0x61; 0x22; 0xA3; 0x00; 0xF1; 0x55] 3 = Some c ∧
       wf c ∧ opcode_at c = Some 0xF155 ∧ Z.land 0xF155 0xF0FF = 0xF055 ∧
       I c + Xreg 0xF155 ≤ 4095 ∧
       ∃ c', EmulateCycle 0 c = Some (tt, c') ∧
             c' = with_Memory (Memory c') (with_PC (PC c + 2) c) ∧
             (∀ i, 0 ≤ i ≤ Xreg 0xF155 →
                   index (Memory c') (I c + i) = index (V c) i) ∧
             (∀ a, a < I c ∨ I c + Xreg 0xF155 < a →
                   index (Memory c') a = index (Memory c) a).
Proof.
  eexists. split; [boot|].
  split_and!; [by vm_compute|reflexivity|reflexivity|by vm_compute|].
  apply (LD_mem_Vx_stores_registers 0 _ 0xF155);
    [by vm_compute|reflexivity|reflexivity|by vm_compute].
Defined.

(** X18: with the bytes from the index register I to I + x inside the
    memory, one cycle on Fx65 copies the bytes of memory at I to
    registers 0 to x, in order; it leaves the index register where it was
    and the registers above x as they were.  The program counter moves on
    by 2 and nothing else changes. *)
Theorem LD_Vx_mem_loads_registers rnd c opcode :
  wf c →
  opcode_at c = Some opcode → Z.land opcode 0xF0FF = 0xF065 →
  I c + Xreg opcode ≤ 4095 →
  ∃ c', EmulateCycle rnd c = Some (tt, c') ∧
        c' = with_V (V c') (with_PC (PC c + 2) c) ∧
        (∀ i, 0 ≤ i ≤ Xreg opcode → index (V c') i = index (Memory c) (I c + i)) ∧
        (∀ i, Xreg opcode < i → index (V c') i = index (V c) i).
Proof.
  intros HWF%wf_WF Hop Hpat HI.
  destruct (LD_Vx_mem_cycle rnd c opcode HWF Hop Hpat HI) as (c' & ? & _ & ?).
  by exists c'.
Qed.

Lemma LD_Vx_mem_loads_registers_witness :
  ∃ c, started [0x62; 0x77; 0xA0; 0x05; 0xF1; 0x65] 2 = Some c ∧
       wf c ∧ opcode_at c = Some 0xF165 ∧ Z.land 0xF165 0xF0FF = 0xF065 ∧
       I c + Xreg 0xF165 ≤ 4095 ∧
       ∃ c', EmulateCycle 0 c = Some (tt, c') ∧
             c' = with_V (V c') (with_PC (PC c + 2) c) ∧
             (∀ i, 0 ≤ i ≤ Xreg 0xF165 →
                   index (V c') i = index (Memory c) (I c + i)) ∧
             (∀ i, Xreg 0xF165 < i → index (V c') i = index (V c) i).
Proof.
  eexists. split; [boot|].
  split_and!; [by vm_compute|reflexivity|reflexivity|by vm_compute|].
  apply (LD_Vx_mem_loads_registers 0 _ 0xF165);
    [by vm_compute|reflexivity|reflexivity|by vm_compute].
Defined.

(** X19: registers 0 to x stored by Fx55 are given back by Fx65: after the
    store, in any state that has the memory and the index register the
    store left (whatever the registers have become), one cycle on Fx65
    with the same x puts in registers 0 to x the values they had before
    the store. *)
Theorem store_load_round_trip rnd rnd' c store load :
  wf c →
  opcode_at c = Some store → Z.land store 0xF0FF = 0xF055 →
  I c + Xreg store ≤ 4095 →
  Z.land load 0xF0FF = 0xF065 → Xreg load = Xreg store →
  ∃ c1, EmulateCycle rnd c = Some (tt, c1) ∧
        ∀ c2, wf c2 → Memory c2 = Memory c1 → I c2 = I c1 →
              opcode_at c2 = Some load →
              ∃ c3, EmulateCycle rnd' c2 = Some (tt, c3) ∧
                    ∀ i, 0 ≤ i ≤ Xreg store → index (V c3) i = index (V c) i.
Proof.
  intros HWF%wf_WF Hop Hpat HI Hpat' HX'.
  destruct (LD_mem_Vx_cycle rnd c store HWF Hop Hpat HI)
    as (c1 & Hrun1 & HWF1 & Heq1 & Hin1 & _).
  exists c1. split; [done|].
  intros c2 HWF2%wf_WF HM HI2 Hop2.
  assert (I c1 = I c) as EI by (by rewrite Heq1).
  destruct (LD_Vx_mem_cycle rnd' c2 load HWF2 Hop2 Hpat')
    as (c3 & Hrun3 & _ & _ & Hin3 & _); [lia|].
  exists c3. split; [done|].
  intros i Hi. rewrite Hin3 by lia. rewrite HM, HI2, EI. by apply Hin1.
Qed.

Lemma store_load_round_trip_witness :
  ∃ c, started [0x60; 0x11; 0x61; 0x22; 0xA3; 0x00; 0xF1; 0x55;
                0x60; 0x00; 0x61; 0x00; 0xF1; 0x65] 3 = Some c ∧
       wf c ∧ opcode_at c = Some 0xF155 ∧ Z.land 0xF155 0xF0FF = 0xF055 ∧
       I c + Xreg 0xF155 ≤ 4095 ∧
       Z.land 0xF165 0xF0FF = 0xF065 ∧ Xreg 0xF165 = Xreg 0xF155 ∧
       ∃ c1, EmulateCycle 0 c = Some (tt, c1) ∧
             ∀ c2, wf c2 → Memory c2 = Memory c1 → I c2 = I c1 →
                   opcode_at c2 = Some 0xF165 →
                   ∃ c3, EmulateCycle 0 c2 = Some (tt, c3) ∧
                         ∀ i, 0 ≤ i ≤ Xreg 0xF155 → index (V c3) i = index (V c) i.
Proof.
  eexists. split; [boot|].
  split_and!; [by vm_compute|reflexivity|reflexivity|by vm_compute|reflexivity..|].
  apply (store_load_round_trip 0 0 _ 0xF155 0xF165);
    [by vm_compute|reflexivity|reflexivity|by vm_compute|reflexivity..].
Defined.

(** ** More on the draw instruction *)

Lemma Display_ext c c' :
  WF c → WF c' →
  (∀ y x, 0 ≤ y < 32 → 0 ≤ x < 64 → pixel c' y x = pixel c y x) →
  Display c' = Display c.
Proof.
  intros HWF HWF' Hpix.
  apply index_ext; [by rewrite (WF_Disp _ HWF), (WF_Disp _ HWF')|].
  intros y Hy. rewrite (WF_Disp _ HWF') in Hy.
  destruct (Display_row c y HWF Hy) as (row & Hrow & Hlen).
  destruct (Display_row c' y HWF' Hy) as (row' & Hrow' & Hlen').
  rewrite Hrow, Hrow'. f_equal.
  apply index_ext; [by rewrite Hlen, Hlen'|].
  intros x Hx. rewrite Hlen' in Hx.
  specialize (Hpix y x Hy Hx). unfold pixel in Hpix.
  by rewrite Hrow, Hrow' in Hpix.
Qed.

Lemma collision_0 c x0 y0 : collision c x0 y0 0 = false.
Proof.
  apply bool_ext. rewrite collision_spec. split; [|done].
  intros (y & x & _ & _ & Hs & _). by rewrite sprite_at_0 in Hs.
Qed.

(** X20: one cycle on Dxy0, a draw of height 0, reads no sprite byte and
    changes no display cell; it still writes 0 to register 15 and sets the
    draw flag.  The program counter moves on by 2 and nothing else
    changes. *)
Theorem DRW_height_0 rnd c opcode :
  wf c →
  opcode_at c = Some opcode → Z.land opcode 0xF00F = 0xD000 →
  EmulateCycle rnd c =
    Some (tt, with_DrawFlag true
                (with_V (<[Z.to_nat VFRegister := 0]> (V c)) (with_PC (PC c + 2) c))).
Proof.
  intros HWF%wf_WF Hop Hpat. operands HWF Hop.
  pose proof (land_submask _ _ _ OpcodeMask Hpat eq_refl) as Hclass.
  pose proof (land_submask _ _ _ NibbleMask Hpat eq_refl) as Hheight.
  change (Z.land 0xD000 OpcodeMask) with 0xD000 in Hclass.
  change (Z.land 0xD000 NibbleMask) with 0 in Hheight.
  destruct (index_is_Some (V c) (Xreg opcode)) as [vx Hvx]; [lia|].
  destruct (index_is_Some (V c) (Yreg opcode)) as [vy Hvy]; [lia|].
  destruct (DRW_cycle rnd c opcode vx vy HWF Hop Hclass Hvx Hvy)
    as (c' & Hrun & HWF' & Hframe & HV' & Hpix).
  { intros row Hrow. rewrite Hheight in Hrow. lia. }
  rewrite Hrun. do 2 f_equal. rewrite Hframe, HV', Hheight, collision_0.
  f_equal. f_equal. rewrite (Display_ext c c'); [by destruct c|done..|].
  intros y x Hy Hx. rewrite Hpix, Hheight, sprite_at_0, xorb_false_r by done.
  unfold lit. by destruct (pixel_is_Some c y x HWF Hy Hx) as [p ->].
Qed.

Lemma DRW_height_0_witness :
  ∃ c, started [0xD0; 0x05; 0xD0; 0x00] 1 = Some c ∧
       wf c ∧ opcode_at c = Some 0xD000 ∧ Z.land 0xD000 0xF00F = 0xD000 ∧
       EmulateCycle 0 c =
         Some (tt, with_DrawFlag true
                     (with_V (<[Z.to_nat VFRegister := 0]> (V c))
                        (with_PC (PC c + 2) c))).
Proof.
  eexists. split; [boot|].
  split_and!; [by vm_compute|reflexivity..|].
  apply (DRW_height_0 0 _ 0xD000); [by vm_compute|reflexivity..].
Defined.

(** X21: the same draw instruction executed twice in a row, with operand
    registers other than register 15 and its unclipped sprite rows inside
    the memory, leaves the display exactly as it was before the first
    draw, whatever the display held and whatever the height.  If the
    sprite has a set pixel inside the display, at least one of the two
    draws leaves 1 in register 15; if it has none, both leave 0. *)
Theorem DRW_twice_is_identity rnd rnd' c opcode vx vy :
  wf c →
  opcode_at c = Some opcode →
  opcode_at (with_PC (PC c + 2) c) = Some opcode →
  Z.land opcode 0xF000 = 0xD000 →
  index (V c) (Xreg opcode) = Some vx →
  index (V c) (Yreg opcode) = Some vy →
  Xreg opcode ≠ VFRegister → Yreg opcode ≠ VFRegister →
  let x0 := vx mod 64 in
  let y0 := vy mod 32 in
  let height := Z.land opcode NibbleMask in
  (∀ row, 0 ≤ row < height → y0 + row < 32 → u16 (I c + row) < 4096) →
  ∃ c1 c2,
    EmulateCycle rnd c = Some (tt, c1) ∧
    EmulateCycle rnd' c1 = Some (tt, c2) ∧
    Display c2 = Display c ∧
    if visible c x0 y0 height
    then index (V c1) VFRegister = Some 1 ∨ index (V c2) VFRegister = Some 1
    else index (V c1) VFRegister = Some 0 ∧ index (V c2) VFRegister = Some 0.
Proof.
  intros HWF%wf_WF Hop Hop2 Hpat Hvx Hvy HXF HYF x0 y0 height Hmem.
  operands HWF Hop. unfold VFRegister in *.
  destruct (DRW_cycle rnd c opcode vx vy HWF Hop Hpat Hvx Hvy Hmem)
    as (c1 & Hrun1 & HWF1 & Hframe1 & HV1 & Hpix1).
  assert (Memory c1 = Memory c) as HM1 by (by rewrite Hframe1).
  assert (I c1 = I c) as HI1 by (by rewrite Hframe1).
  assert (opcode_at c1 = Some opcode) as Hop1.
  { rewrite <- Hop2. apply opcode_at_ext; by rewrite Hframe1. }
  assert (index (V c1) (Xreg opcode) = Some vx) as Hvx1.
  { rewrite HV1. by rewrite (index_insert_ne (V c) 15) by lia. }
  assert (index (V c1) (Yreg opcode) = Some vy) as Hvy1.
  { rewrite HV1. by rewrite (index_insert_ne (V c) 15) by lia. }
  destruct (DRW_cycle rnd' c1 opcode vx vy HWF1 Hop1 Hpat Hvx1 Hvy1)
    as (c2 & Hrun2 & HWF2 & Hframe2 & HV2 & Hpix2).
  { intros row Hrow Hfit. rewrite HI1. by apply Hmem. }
  fold x0 y0 height in HV1, Hpix1, HV2, Hpix2.
  assert (∀ y x, 0 ≤ y < 32 → 0 ≤ x < 64 →
                 lit c1 y x = xorb (lit c y x) (sprite_at c x0 y0 height y x)) as Hlit1.
  { intros y x Hy Hx. unfold lit at 1. by rewrite Hpix1. }
  exists c1, c2. split; [done|]. split; [done|]. split.
  - apply Display_ext; [done..|]. intros y x Hy Hx.
    rewrite Hpix2, (sprite_at_ext c c1), Hlit1 by done.
    rewrite xorb_assoc, xorb_nilpotent, xorb_false_r.
    unfold lit. by destruct (pixel_is_Some c y x HWF Hy Hx) as [p ->].
  - rewrite HV1, HV2.
    rewrite (index_insert_eq (V c) 15) by lia.
    rewrite (index_insert_eq (V c1) 15) by (rewrite (WF_V _ HWF1); lia).
    destruct (visible c x0 y0 height) eqn:Hvis.
    + apply Is_true_true, visible_spec in Hvis as (y & x & Hy & Hx & Hs).
      destruct (lit c y x) eqn:Hl.
      * left. assert (collision c x0 y0 height = true) as ->; [|done].
        apply Is_true_true, collision_spec. exists y, x. by rewrite Hl.
      * right. assert (collision c1 x0 y0 height = true) as ->; [|done].
        apply Is_true_true, collision_spec. exists y, x.
        rewrite (sprite_at_ext c c1), Hlit1, Hl by done.
        do 3 (split; [done|]). by destruct (sprite_at c x0 y0 height y x).
    + apply Is_true_false in Hvis. rewrite visible_spec in Hvis. split.
      * destruct (collision c x0 y0 height) eqn:Hc; [|done].
        apply Is_true_true, collision_spec in Hc as (y & x & ? & ? & ? & _).
        destruct Hvis. by exists y, x.
      * destruct (collision c1 x0 y0 height) eqn:Hc; [|done].
        apply Is_true_true, collision_spec in Hc as (y & x & ? & ? & Hs & _).
        destruct Hvis. exists y, x. by rewrite <- (sprite_at_ext c c1).
Qed.

Lemma DRW_twice_is_identity_witness :
  ∃ c, started [0x60; 0x3C; 0x61; 0x1E; 0xA0; 0x05; 0xD0; 0x15; 0xD0; 0x15;
                0xD0; 0x15] 4 = Some c ∧
       let x0 := 60 mod 64 in
       let y0 := 30 mod 32 in
       let height := Z.land 0xD015 NibbleMask in
       wf c ∧
       opcode_at c = Some 0xD015 ∧
       opcode_at (with_PC (PC c + 2) c) = Some 0xD015 ∧
       Z.land 0xD015 0xF000 = 0xD000 ∧
       index (V c) (Xreg 0xD015) = Some 60 ∧
       index (V c) (Yreg 0xD015) = Some 30 ∧
       Xreg 0xD015 ≠ VFRegister ∧ Yreg 0xD015 ≠ VFRegister ∧
       (∀ row, 0 ≤ row < height → y0 + row < 32 → u16 (I c + row) < 4096) ∧
       ∃ c1 c2,
         EmulateCycle 0 c = Some (tt, c1) ∧
         EmulateCycle 0 c1 = Some (tt, c2) ∧
         Display c2 = Display c ∧
         if visible c x0 y0 height
         then index (V c1) VFRegister = Some 1 ∨ index (V c2) VFRegister = Some 1
         else index (V c1) VFRegister = Some 0 ∧ index (V c2) VFRegister = Some 0.
Proof.
  eexists. split; [boot|].
  set (c := mkChip8 _ _ _ _ _ _ _ _ _ _ _). intros x0 y0 height.
  assert (∀ row, 0 ≤ row < height → y0 + row < 32 → u16 (I c + row) < 4096) as Hmem.
  { intros row Hrow _. change height with 5 in Hrow. change (I c) with 5.
    rewrite u16_small; lia. }
  split; [by vm_compute|]. split; [reflexivity|]. split; [reflexivity|].
  split; [reflexivity|]. split; [reflexivity|]. split; [reflexivity|].
  split; [done|]. split; [done|]. split; [exact Hmem|].
  apply (DRW_twice_is_identity 0 0 c 0xD015 60 30);
    [by vm_compute|reflexivity..|done|done|exact Hmem].
Defined.

(** ** When a cycle aborts *)

(** X22: on a well-formed state, a cycle runs to its end exactly when the
    program counter is at most 4094 and the instruction it fetches has
    its indices in bounds ([in_bounds]: the stack pointer of a return
    from 1 to 16 and of a call at most 15, the key number of a key skip
    at most 15, the sprite rows a draw reads, the three bytes of a BCD
    store and the bytes of a register store or load inside the memory).
    In every other case an array is indexed outside its bounds and the
    cycle aborts. *)
Theorem EmulateCycle_runs_iff_in_bounds rnd c :
  wf c →
  is_Some (EmulateCycle rnd c) ↔
  PC c ≤ 4094 ∧ ∀ opcode, opcode_at c = Some opcode → in_bounds opcode c.
Proof.
  intros HWF%wf_WF. split.
  - intros [r Hrun].
    destruct (EmulateCycle_ran_in_bounds rnd c r HWF Hrun) as (HPC & opcode & Hop & Hin).
    split; [done|]. intros opcode' Hop'. rewrite Hop in Hop'. by injection Hop' as <-.
  - intros [HPC Hin].
    destruct (fetch_total c HWF HPC) as [opcode Hop].
    rewrite (EmulateCycle_execute _ _ _ HWF Hop).
    pose proof (WF_PC _ HWF) as HPC0.
    destruct (execute_safe rnd opcode (with_PC (PC c + 2) c)) as (u & c' & Hrun & _);
      [solve_WF|by apply Hin|].
    rewrite Hrun. by eexists.
Qed.

Lemma EmulateCycle_runs_iff_in_bounds_witness :
  ∃ c, started [0x60; 0x10; 0xE0; 0x9E] 1 = Some c ∧
       wf c ∧
       (is_Some (EmulateCycle 0 c) ↔
        PC c ≤ 4094 ∧ ∀ opcode, opcode_at c = Some opcode → in_bounds opcode c) ∧
       EmulateCycle 0 c = None.
Proof.
  eexists. split; [boot|].
  split; [by vm_compute|]. split; [|vm_compute; reflexivity].
  apply (EmulateCycle_runs_iff_in_bounds 0). by vm_compute.
Defined.

(** ** More on loading a ROM *)

Lemma index_cleared_memory (m : list Z) a :
  len m = 4096 → 0 ≤ a < 4096 →
  index (take 80 m ++ replicate 4016%nat 0) a
  = if a <? 80 then index m a else Some 0.
Proof.
  intros Hm Ha.
  assert (len (take 80 m) = 80) as Htake.
  { unfold len in *. rewrite length_take. lia. }
  destruct (Z.ltb_spec a 80).
  - rewrite index_app_l by lia. apply index_take. lia.
  - rewrite index_app_r by lia. apply index_replicate. lia.
Qed.

Lemma index_loaded_memory (m rom : list Z) a :
  len m = 4096 → len rom ≤ 3584 → 0 ≤ a < 4096 →
  index (take 80 m ++ replicate 432%nat 0 ++ rom
         ++ replicate (Z.to_nat (3584 - len rom)) 0) a
  = if a <? 80 then index m a
    else if (512 <=? a) && (a <? 512 + len rom) then index rom (a - 512)
    else Some 0.
Proof.
  intros Hm Hfit Ha. pose proof (len_nonneg rom) as H0.
  assert (len (take 80 m) = 80) as Htake.
  { unfold len in *. rewrite length_take. lia. }
  assert (len (replicate 432%nat 0) = 432) as Hrep.
  { unfold len. by rewrite length_replicate. }
  destruct (Z.ltb_spec a 80).
  - rewrite index_app_l by lia. apply index_take. lia.
  - rewrite index_app_r, Htake by lia.
    destruct (Z.leb_spec 512 a); cbn [andb].
    + rewrite index_app_r, Hrep by lia.
      destruct (Z.ltb_spec a (512 + len rom)).
      * rewrite index_app_l by lia. f_equal. lia.
      * rewrite index_app_r by lia. apply index_replicate. lia.
    + rewrite index_app_l by lia. apply index_replicate. lia.
Qed.

Lemma rom_bytes rom : forallb byte rom → Forall (λ z, 0 ≤ z < 256) rom.
Proof.
  intros Hrom%forallb_True. eapply Forall_impl; [exact Hrom|].
  intros z. apply byte_spec.
Qed.

(** The state a successful load leaves, in closed form. *)
Lemma load_fits_eq rom c :
  WF c → Forall (λ z, 0 ≤ z < 256) rom → len rom ≤ 3584 →
  LoadROMFromBytes rom c =
    Some (None,
          {| V := replicate 16 0; I := 0; PC := 512; SP := 0; DT := 0; ST := 0;
             Memory := take 80 (Memory c) ++ replicate 432 0 ++ rom
                       ++ replicate (Z.to_nat (3584 - len rom)) 0;
             Stack := Stack c;
             Display := replicate 32 (replicate 64 false);
             Keys := Keys c;
             DrawFlag := true |}).
Proof.
  intros HWF Hrom Hfit. pose proof (len_nonneg rom) as Hlen0.
  destruct (load_fits_spec rom c HWF Hrom Hfit)
    as (r & c' & Hrun & -> & HWF' & HPC & HI & HSP & HDT & HST & HDF & HStack
        & HKeys & HV & Hdisp & Hfont & Hzero & Hprog).
  rewrite Hrun. clear Hrun. do 2 f_equal.
  apply Chip8_ext; cbn [V I PC SP DT ST Memory Stack Display Keys DrawFlag]; try done.
  - apply index_ext; [by rewrite (WF_V _ HWF')|].
    intros i Hi. rewrite (WF_V _ HWF') in Hi. rewrite HV by done.
    symmetry. apply (index_replicate 16). lia.
  - pose proof (WF_Mem _ HWF) as HM.
    assert (len (take 80 (Memory c) ++ replicate 432%nat 0 ++ rom
                 ++ replicate (Z.to_nat (3584 - len rom)) 0) = 4096) as Hlen.
    { unfold len in *. rewrite !length_app, length_take, !length_replicate. lia. }
    apply index_ext; [by rewrite (WF_Mem _ HWF'), Hlen|].
    intros a Ha. rewrite (WF_Mem _ HWF') in Ha.
    rewrite index_loaded_memory by done.
    destruct (Z.ltb_spec a 80); [apply Hfont; lia|].
    destruct (Z.leb_spec 512 a); cbn [andb]; [|apply Hzero; lia].
    destruct (Z.ltb_spec a (512 + len rom)); [|apply Hzero; lia].
    rewrite <- (Hprog (a - 512)) by lia. f_equal. lia.
  - by apply Display_cleared.
Qed.

(** The state a refused load leaves, in closed form. *)
Lemma load_too_large_eq rom c :
  WF c → 3584 < len rom →
  LoadROMFromBytes rom c =
    Some (Some (ErrROMSize 3584),
          with_Memory (take 80 (Memory c) ++ replicate 4016 0) c).
Proof.
  intros HWF Hbig.
  destruct (load_too_large_spec rom c HWF Hbig)
    as (r & c' & Hrun & -> & HWF' & Heq & Hfont & Hzero).
  rewrite Hrun. clear Hrun. do 2 f_equal. rewrite Heq. f_equal.
  pose proof (WF_Mem _ HWF) as HM.
  assert (len (take 80 (Memory c) ++ replicate 4016%nat 0) = 4096) as Hlen.
  { unfold len in *. rewrite !length_app, length_take, !length_replicate. lia. }
  apply index_ext; [by rewrite (WF_Mem _ HWF'), Hlen|].
  intros a Ha. rewrite (WF_Mem _ HWF') in Ha.
  rewrite index_cleared_memory by done.
  destruct (Z.ltb_spec a 80); [apply Hfont; lia|apply Hzero; lia].
Qed.

(** X23: a load that succeeds leaves a state fixed by the ROM and three
    things it keeps from the state before: the first 80 bytes of memory
    (the font table), the stack entries and the key states.  Registers,
    index register, stack pointer and timers are 0, the program counter is
    512, the display is clear, the draw flag is set, and the memory from
    80 on is the ROM at 512 and 0 elsewhere. *)
Theorem LoadROMFromBytes_closed_form rom c :
  wf c → forallb byte rom → len rom ≤ 3584 →
  LoadROMFromBytes rom c =
    Some (None,
          {| V := replicate (Z.to_nat RegisterCount) 0;
             I := 0; PC := ProgramStartAddr; SP := 0; DT := 0; ST := 0;
             Memory := take 80 (Memory c) ++ replicate 432 0 ++ rom
                       ++ replicate (Z.to_nat (3584 - len rom)) 0;
             Stack := Stack c;
             Display := replicate (Z.to_nat DisplayHeight)
                          (replicate (Z.to_nat DisplayWidth) false);
             Keys := Keys c;
             DrawFlag := true |}).
Proof.
  intros HWF%wf_WF Hrom%rom_bytes Hfit. by apply load_fits_eq.
Qed.

Lemma LoadROMFromBytes_closed_form_witness :
  ∃ c, started [0x22; 0x04; 0x00; 0x00; 0x6A; 0x07; 0xD0; 0x05] 3 = Some c ∧
       let rom := [0x12; 0x00] in
       wf c ∧ forallb byte rom ∧ len rom ≤ 3584 ∧
       index (Stack c) 0 = Some 0x202 ∧
       LoadROMFromBytes rom c =
         Some (None,
               {| V := replicate (Z.to_nat RegisterCount) 0;
                  I := 0; PC := ProgramStartAddr; SP := 0; DT := 0; ST := 0;
                  Memory := take 80 (Memory c) ++ replicate 432 0 ++ rom
                            ++ replicate (Z.to_nat (3584 - len rom)) 0;
                  Stack := Stack c;
                  Display := replicate (Z.to_nat DisplayHeight)
                               (replicate (Z.to_nat DisplayWidth) false);
                  Keys := Keys c;
                  DrawFlag := true |}).
Proof.
  eexists. split; [boot|]. intros rom.
  split_and!; [by vm_compute|by vm_compute|by vm_compute|reflexivity|].
  apply (LoadROMFromBytes_closed_form rom); by vm_compute.
Defined.

(** X24: loading is idempotent: the same ROM loaded a second time, right
    after the first, gives the same answer and changes nothing, whether
    the ROM fits or is refused. *)
Theorem LoadROMFromBytes_idempotent rom c r c' :
  wf c → forallb byte rom →
  LoadROMFromBytes rom c = Some (r, c') →
  LoadROMFromBytes rom c' = Some (r, c').
Proof.
  intros HWF%wf_WF Hrom Hrun.
  pose proof (WF_LoadROMFromBytes _ _ _ _ HWF Hrom Hrun) as HWF'.
  apply rom_bytes in Hrom. pose proof (WF_Mem _ HWF) as HM.
  assert (take 80 (take 80 (Memory c)) = take 80 (Memory c)) as Htt
    by (by rewrite take_take).
  assert (length (take 80 (Memory c)) = 80%nat) as Hlt
    by (rewrite length_take; unfold len in HM; lia).
  destruct (Z.le_gt_cases (len rom) 3584) as [Hfit|Hbig].
  - rewrite load_fits_eq in Hrun by done. injection Hrun as <- <-.
    rewrite load_fits_eq by done.
    cbn [V I PC SP DT ST Memory Stack Display Keys DrawFlag].
    by rewrite take_app_le, Htt by lia.
  - rewrite load_too_large_eq in Hrun by (done || lia). injection Hrun as <- <-.
    rewrite load_too_large_eq by (done || lia).
    unfold with_Memory. cbn [V I PC SP DT ST Memory Stack Display Keys DrawFlag].
    by rewrite take_app_le, Htt by lia.
Qed.

Lemma LoadROMFromBytes_idempotent_witness :
  ∃ c, started [0x6A; 0x07; 0xD0; 0x05] 2 = Some c ∧
       let rom := [0x12; 0x00] in
       wf c ∧ forallb byte rom ∧
       ∃ r c', LoadROMFromBytes rom c = Some (r, c') ∧
               LoadROMFromBytes rom c' = Some (r, c').
Proof.
  eexists. split; [boot|].
  set (c := mkChip8 _ _ _ _ _ _ _ _ _ _ _). intros rom.
  assert (wf c) as HWF by (by vm_compute).
  assert (forallb byte rom) as Hrom by (by vm_compute).
  split; [exact HWF|]. split; [exact Hrom|].
  eexists. eexists. split.
  - apply load_fits_eq; [by apply wf_WF|by apply rom_bytes|by vm_compute].
  - apply (LoadROMFromBytes_idempotent rom c); [exact HWF|exact Hrom|].
    apply load_fits_eq; [by apply wf_WF|by apply rom_bytes|by vm_compute].
Defined.

(** ** What an instruction leaves alone *)

Lemma unchanged_ret {A B} (f : Chip8 → B) (a : A) : unchanged f (mret a).
Proof. by intros c a' c' [= <- <-]. Qed.

Lemma unchanged_bind {A A' B} (f : Chip8 → B) (m : M A) (k : A → M A') :
  unchanged f m → (∀ a, unchanged f (k a)) → unchanged f (m ≫= k).
Proof.
  intros Hm Hk c b c' (a & c1 & H1 & H2)%bind_inv.
  rewrite (Hk a c1 b c' H2). by eapply Hm.
Qed.

Lemma unchanged_get {A B} (f : Chip8 → B) (g : Chip8 → option A) :
  unchanged f (get g).
Proof. intros c a c'. unfold get. destruct (g c); [|done]. by intros [= <- <-]. Qed.

Lemma unchanged_put {B} (f : Chip8 → B) (g : Chip8 → option Chip8) :
  (∀ c c', g c = Some c' → f c' = f c) → unchanged f (put g).
Proof.
  intros Hg c a c'. unfold put. destruct (g c) as [c1|] eqn:E; [|done].
  intros [= <- <-]. by apply Hg.
Qed.

Lemma unchanged_writeV {B} (f : Chip8 → B) x v :
  (∀ l c, f (with_V l c) = f c) → unchanged f (writeV x v).
Proof.
  intros Hf. apply unchanged_put. intros c c'.
  destruct (assign (V c) x v); [|done]. simpl. by intros [= <-].
Qed.

Lemma unchanged_writeMem {B} (f : Chip8 → B) a v :
  (∀ l c, f (with_Memory l c) = f c) → unchanged f (writeMem a v).
Proof.
  intros Hf. apply unchanged_put. intros c c'.
  destruct (assign (Memory c) a v); [|done]. simpl. by intros [= <-].
Qed.

Lemma unchanged_writeStack {B} (f : Chip8 → B) i v :
  (∀ l c, f (with_Stack l c) = f c) → unchanged f (writeStack i v).
Proof.
  intros Hf. apply unchanged_put. intros c c'.
  destruct (assign (Stack c) i v); [|done]. simpl. by intros [= <-].
Qed.

Lemma unchanged_writePixel {B} (f : Chip8 → B) y x b :
  (∀ l c, f (with_Display l c) = f c) → unchanged f (writePixel y x b).
Proof.
  intros Hf. apply unchanged_put. intros c c'.
  destruct (index (Display c) y) as [row|]; [|done]. simpl.
  destruct (assign row x b) as [row'|]; [|done]. simpl.
  destruct (assign (Display c) y row'); [|done]. simpl. by intros [= <-].
Qed.

Lemma unchanged_state {A B} (f : Chip8 → B) (m : M A) :
  (∀ c, ∃ a, m c = Some (a, c)) → unchanged f m.
Proof.
  intros Hm c a c' Hrun. destruct (Hm c) as [a' E].
  rewrite E in Hrun. by injection Hrun as _ <-.
Qed.

Lemma unchanged_set {B} (f : Chip8 → B) (m : M unit) (upd : Chip8 → Chip8) :
  (∀ c, m c = Some (tt, upd c)) → (∀ c, f (upd c) = f c) → unchanged f m.
Proof.
  intros Hm Hf c a c' Hrun. rewrite Hm in Hrun. injection Hrun as _ <-. apply Hf.
Qed.

Lemma unchanged_loop {B} (f : Chip8 → B) n i body :
  (∀ j, unchanged f (body j)) → unchanged f (loop n i body).
Proof.
  intros Hbody. revert i. induction n as [|n IH]; intros i; [apply unchanged_ret|].
  simpl. apply unchanged_bind; [done|]. intros []; [apply IH|apply unchanged_ret].
Qed.

Lemma unchanged_for_range {B} (f : Chip8 → B) lo hi body :
  (∀ j, unchanged f (body j)) → unchanged f (for_range lo hi body).
Proof. apply unchanged_loop. Qed.

(** [frame] walks through a method and checks that none of its writes
    goes to the part in question. *)
Ltac frame :=
  lazymatch goal with
  | |- unchanged _ (if ?b then _ else _) => destruct b; frame
  | |- unchanged _ (mbind _ _) => apply unchanged_bind; [frame | intros; frame]
  | |- unchanged _ (mret _) => apply unchanged_ret
  | |- unchanged _ next => apply unchanged_ret
  | |- unchanged _ break => apply unchanged_ret
  | |- unchanged _ (readV _) => apply unchanged_get
  | |- unchanged _ (readMem _) => apply unchanged_get
  | |- unchanged _ (readStack _) => apply unchanged_get
  | |- unchanged _ (readKey _) => apply unchanged_get
  | |- unchanged _ (readPixel _ _) => apply unchanged_get
  | |- unchanged _ (writeV _ _) => apply unchanged_writeV; reflexivity
  | |- unchanged _ (writeMem _ _) => apply unchanged_writeMem; reflexivity
  | |- unchanged _ (writeStack _ _) => apply unchanged_writeStack; reflexivity
  | |- unchanged _ (writePixel _ _ _) => apply unchanged_writePixel; reflexivity
  | |- unchanged _ getI => apply unchanged_state; by eexists
  | |- unchanged _ getPC => apply unchanged_state; by eexists
  | |- unchanged _ getSP => apply unchanged_state; by eexists
  | |- unchanged _ getDT => apply unchanged_state; by eexists
  | |- unchanged _ getST => apply unchanged_state; by eexists
  | |- unchanged _ (setI ?v) => apply (unchanged_set _ _ (with_I v)); reflexivity
  | |- unchanged _ (setPC ?v) => apply (unchanged_set _ _ (with_PC v)); reflexivity
  | |- unchanged _ (setSP ?v) => apply (unchanged_set _ _ (with_SP v)); reflexivity
  | |- unchanged _ (setDT ?v) => apply (unchanged_set _ _ (with_DT v)); reflexivity
  | |- unchanged _ (setST ?v) => apply (unchanged_set _ _ (with_ST v)); reflexivity
  | |- unchanged _ (setDrawFlag ?v) =>
      apply (unchanged_set _ _ (with_DrawFlag v)); reflexivity
  | |- unchanged _ (for_range _ _ _) => apply unchanged_for_range; intros; frame
  | |- unchanged _ skip => unfold skip; frame
  end.

Lemma unchanged_scan_keys {B} (f : Chip8 → B) n i x :
  (∀ l c, f (with_V l c) = f c) → unchanged f (scan_keys n i x).
Proof.
  intros Hf. revert i. induction n as [|n IH]; intros i; simpl; [apply unchanged_ret|].
  apply unchanged_bind; [apply unchanged_get|]. intros []; [|apply IH].
  apply unchanged_bind; [by apply unchanged_writeV|]. intros. apply unchanged_ret.
Qed.

(** The cases of the [switch], each with the patterns that selected it;
    [framed] settles a case: the instruction does not write the part, or
    it is one of those excepted. *)
Ltac cases_of_switch :=
  unfold execute;
  repeat lazymatch goal with
  | |- context [Z.land ?op ?m =? ?v] => destruct (Z.eqb_spec (Z.land op m) v)
  end.

Ltac excepted :=
  exfalso;
  match goal with
  | Hn : Z.land _ _ ≠ _ |- _ => apply Hn; selected_pattern
  end.

Ltac framed :=
  unfold op_CLS, op_RET, op_JP, op_CALL, op_SE_byte, op_SNE_byte,
    op_SE_reg, op_LD_byte, op_ADD_byte, op_LD_reg, op_OR, op_AND, op_XOR,
    op_ADD_reg, op_SUB, op_SHR, op_SUBN, op_SHL, op_SNE_reg, op_LD_I,
    op_JP_V0, op_RND, op_DRW, op_SKP, op_SKNP, op_LD_Vx_DT, op_LD_DT_Vx,
    op_LD_ST_Vx, op_ADD_I, op_LD_F, op_LD_B, op_LD_mem_Vx, op_LD_Vx_mem;
  cbv zeta;
  first
    [ frame
    | unfold op_LD_Vx_K;
      apply unchanged_bind; [apply unchanged_scan_keys; reflexivity|intros; frame]
    | excepted ].

Lemma execute_Keys rnd opcode : unchanged Keys (execute rnd opcode).
Proof. cases_of_switch; framed. Qed.

Lemma execute_Memory rnd opcode :
  Z.land opcode 0xF0FF ≠ 0xF033 → Z.land opcode 0xF0FF ≠ 0xF055 →
  unchanged Memory (execute rnd opcode).
Proof. intros ? ?. cases_of_switch; framed. Qed.

Lemma execute_Stack rnd opcode :
  Z.land opcode 0xF000 ≠ 0x2000 → unchanged Stack (execute rnd opcode).
Proof. intros ?. cases_of_switch; framed. Qed.

Lemma execute_SP rnd opcode :
  Z.land opcode 0xF000 ≠ 0x2000 → Z.land opcode 0xF0FF ≠ 0x00EE →
  unchanged SP (execute rnd opcode).
Proof. intros ? ?. cases_of_switch; framed. Qed.

Lemma execute_DT rnd opcode :
  Z.land opcode 0xF0FF ≠ 0xF015 → unchanged DT (execute rnd opcode).
Proof. intros ?. cases_of_switch; framed. Qed.

Lemma execute_ST rnd opcode :
  Z.land opcode 0xF0FF ≠ 0xF018 → unchanged ST (execute rnd opcode).
Proof. intros ?. cases_of_switch; framed. Qed.

Lemma execute_I rnd opcode :
  Z.land opcode 0xF000 ≠ 0xA000 → Z.land opcode 0xF0FF ≠ 0xF01E →
  Z.land opcode 0xF0FF ≠ 0xF029 →
  unchanged I (execute rnd opcode).
Proof. intros ? ? ?. cases_of_switch; framed. Qed.

Lemma execute_Display rnd opcode :
  Z.land opcode 0xF0FF ≠ 0x00E0 → Z.land opcode 0xF000 ≠ 0xD000 →
  unchanged (λ c, (Display c, DrawFlag c)) (execute rnd opcode).
Proof. intros ? ?. cases_of_switch; framed. Qed.

(** A cycle that ran is the instruction run after the fetch. *)
Lemma EmulateCycle_ran rnd c c' opcode :
  opcode_at c = Some opcode → EmulateCycle rnd c = Some (tt, c') →
  execute rnd opcode (with_PC (u16 (PC c + 2)) c) = Some (tt, c').
Proof.
  intros Hop%opcode_at_fetch Hrun. unfold EmulateCycle in Hrun.
  by rewrite (bind_Some _ _ _ _ _ Hop) in Hrun.
Qed.

Lemma CLS_sets_flag c r : op_CLS c = Some r → DrawFlag r.2 = true.
Proof.
  unfold op_CLS. intros (u & c1 & _ & Hset)%bind_inv. by injection Hset as <-.
Qed.

Lemma DRW_sets_flag opcode c r : op_DRW opcode c = Some r → DrawFlag r.2 = true.
Proof.
  unfold op_DRW. cbv zeta.
  intros (vx & c1 & _ & H)%bind_inv.
  apply bind_inv in H as (vy & c2 & _ & H).
  apply bind_inv in H as (u & c3 & _ & H).
  apply bind_inv in H as (u' & c4 & _ & Hset). by injection Hset as <-.
Qed.

(** X25: which instruction writes what.  A cycle that runs to its end
    never writes the key states; it leaves the memory as it was unless
    the instruction is Fx33 or Fx55, the stack unless it is a call, the
    stack pointer unless it is a call or a return, the delay timer unless
    it is Fx15, the sound timer unless it is Fx18, and the index register
    unless it is Annn, Fx1E or Fx29. *)
Theorem EmulateCycle_writes_only rnd c c' opcode :
  opcode_at c = Some opcode →
  EmulateCycle rnd c = Some (tt, c') →
  Keys c' = Keys c ∧
  (Z.land opcode 0xF0FF ≠ 0xF033 → Z.land opcode 0xF0FF ≠ 0xF055 →
   Memory c' = Memory c) ∧
  (Z.land opcode 0xF000 ≠ 0x2000 → Stack c' = Stack c) ∧
  (Z.land opcode 0xF000 ≠ 0x2000 → Z.land opcode 0xF0FF ≠ 0x00EE →
   SP c' = SP c) ∧
  (Z.land opcode 0xF0FF ≠ 0xF015 → DT c' = DT c) ∧
  (Z.land opcode 0xF0FF ≠ 0xF018 → ST c' = ST c) ∧
  (Z.land opcode 0xF000 ≠ 0xA000 → Z.land opcode 0xF0FF ≠ 0xF01E →
   Z.land opcode 0xF0FF ≠ 0xF029 → I c' = I c).
Proof.
  intros Hop Hrun. pose proof (EmulateCycle_ran _ _ _ _ Hop Hrun) as Hexec.
  split_and!.
  - apply (execute_Keys _ _ _ _ _ Hexec).
  - intros ? ?. by apply (execute_Memory rnd opcode) in Hexec.
  - intros ?. by apply (execute_Stack rnd opcode) in Hexec.
  - intros ? ?. by apply (execute_SP rnd opcode) in Hexec.
  - intros ?. by apply (execute_DT rnd opcode) in Hexec.
  - intros ?. by apply (execute_ST rnd opcode) in Hexec.
  - intros ? ? ?. by apply (execute_I rnd opcode) in Hexec.
Qed.

Lemma EmulateCycle_writes_only_witness :
  ∃ c c', started [0x6A; 0x07; 0xFA; 0x15] 1 = Some c ∧
          opcode_at c = Some 0xFA15 ∧
          EmulateCycle 0 c = Some (tt, c') ∧
          DT c = 0 ∧ DT c' = 7 ∧
          (Keys c' = Keys c ∧
           (Z.land 0xFA15 0xF0FF ≠ 0xF033 → Z.land 0xFA15 0xF0FF ≠ 0xF055 →
            Memory c' = Memory c) ∧
           (Z.land 0xFA15 0xF000 ≠ 0x2000 → Stack c' = Stack c) ∧
           (Z.land 0xFA15 0xF000 ≠ 0x2000 → Z.land 0xFA15 0xF0FF ≠ 0x00EE →
            SP c' = SP c) ∧
           (Z.land 0xFA15 0xF0FF ≠ 0xF015 → DT c' = DT c) ∧
           (Z.land 0xFA15 0xF0FF ≠ 0xF018 → ST c' = ST c) ∧
           (Z.land 0xFA15 0xF000 ≠ 0xA000 → Z.land 0xFA15 0xF0FF ≠ 0xF01E →
            Z.land 0xFA15 0xF0FF ≠ 0xF029 → I c' = I c)).
Proof.
  eexists. eexists. split; [boot|].
  split; [reflexivity|]. split; [vm_compute; reflexivity|].
  split; [reflexivity|]. split; [reflexivity|].
  apply (EmulateCycle_writes_only 0 _ _ 0xFA15); [reflexivity|vm_compute; reflexivity].
Defined.

(** X26: the display and the draw flag.  A cycle that runs to its end
    leaves the display and the draw flag as they were unless the
    instruction is 00E0 or a draw, and these two set the draw flag: the
    display is never changed without the flag being set, and no
    instruction clears the flag. *)
Theorem EmulateCycle_display_sets_flag rnd c c' opcode :
  opcode_at c = Some opcode →
  EmulateCycle rnd c = Some (tt, c') →
  (Z.land opcode 0xF0FF ≠ 0x00E0 → Z.land opcode 0xF000 ≠ 0xD000 →
   Display c' = Display c ∧ DrawFlag c' = DrawFlag c) ∧
  (Z.land opcode 0xF0FF = 0x00E0 ∨ Z.land opcode 0xF000 = 0xD000 →
   DrawFlag c' = true).
Proof.
  intros Hop Hrun. pose proof (EmulateCycle_ran _ _ _ _ Hop Hrun) as Hexec.
  split.
  - intros H1 H2. apply (execute_Display rnd opcode H1 H2) in Hexec.
    by injection Hexec as -> ->.
  - intros [Hpat|Hpat].
    + rewrite (execute_CLS _ _ Hpat) in Hexec. by apply CLS_sets_flag in Hexec.
    + rewrite (execute_DRW _ _ Hpat) in Hexec. by apply DRW_sets_flag in Hexec.
Qed.

Lemma EmulateCycle_display_sets_flag_witness :
  ∃ c0, started [0xD0; 0x05] 0 = Some c0 ∧
    let c := with_DrawFlag false c0 in
    ∃ c', opcode_at c = Some 0xD005 ∧
          EmulateCycle 0 c = Some (tt, c') ∧
          DrawFlag c = false ∧ Display c' ≠ Display c ∧
          (Z.land 0xD005 0xF0FF ≠ 0x00E0 → Z.land 0xD005 0xF000 ≠ 0xD000 →
           Display c' = Display c ∧ DrawFlag c' = DrawFlag c) ∧
          (Z.land 0xD005 0xF0FF = 0x00E0 ∨ Z.land 0xD005 0xF000 = 0xD000 →
           DrawFlag c' = true).
Proof.
  eexists. split; [boot|]. intros c. eexists.
  split; [reflexivity|]. split; [vm_compute; reflexivity|].
  split; [reflexivity|]. split; [done|].
  apply (EmulateCycle_display_sets_flag 0 c _ 0xD005);
    [reflexivity|vm_compute; reflexivity].
Defined.

(** ** The renderer: loops *)

Section iterate.
Context {S : Type}.
Implicit Types (body : Z → S → option S) (s : S).

(** A loop that does not panic: [P j] holds before iteration [j]. *)
Lemma iterate_spec (P : Z → S → Prop) n i body s :
  P i s →
  (∀ j s0, i ≤ j < i + Z.of_nat n → P j s0 →
           ∃ s1, body j s0 = Some s1 ∧ P (j + 1) s1) →
  ∃ s', renderer.iterate n i body s = Some s' ∧ P (i + Z.of_nat n) s'.
Proof.
  revert i s. induction n as [|n IH]; intros i s HP Hbody.
  - exists s. split; [done|]. by replace (i + Z.of_nat 0) with i by lia.
  - destruct (Hbody i s ltac:(lia) HP) as (s1 & Hrun & HP1).
    destruct (IH (i + 1) s1 HP1) as (s' & Hrest & HP').
    { intros j s0 Hj. apply Hbody. lia. }
    exists s'. simpl. rewrite Hrun. simpl. split; [done|].
    by replace (i + Z.of_nat (Datatypes.S n)) with (i + 1 + Z.of_nat n) by lia.
Qed.

Lemma for_upto_spec (P : Z → S → Prop) lo hi body s :
  lo ≤ hi → P lo s →
  (∀ j s0, lo ≤ j < hi → P j s0 → ∃ s1, body j s0 = Some s1 ∧ P (j + 1) s1) →
  ∃ s', renderer.for_upto lo hi body s = Some s' ∧ P hi s'.
Proof.
  intros Hle HP Hbody. unfold renderer.for_upto.
  destruct (iterate_spec P (Z.to_nat (hi - lo)) lo body s HP) as (s' & Hrun & HP').
  { intros j s0 Hj. apply Hbody. lia. }
  exists s'. split; [done|]. by replace hi with (lo + Z.of_nat (Z.to_nat (hi - lo))) by lia.
Qed.

(** A loop that ran kept what each of its iterations keeps. *)
Lemma iterate_inv (P : S → Prop) n i body s s' :
  P s → (∀ j s0 s1, P s0 → body j s0 = Some s1 → P s1) →
  renderer.iterate n i body s = Some s' → P s'.
Proof.
  intros HP Hbody. revert i s HP. induction n as [|n IH]; intros i s HP; simpl.
  - by intros [= <-].
  - destruct (body i s) as [s1|] eqn:E; [|done]. simpl.
    apply IH. by eapply Hbody.
Qed.

Lemma for_upto_inv (P : S → Prop) lo hi body s s' :
  P s → (∀ j s0 s1, P s0 → body j s0 = Some s1 → P s1) →
  renderer.for_upto lo hi body s = Some s' → P s'.
Proof. apply iterate_inv. Qed.

Lemma for_entries_inv (P : S → Prop) entries
    (body : renderer.Key → Z → S → option S) s s' :
  P s → (∀ key value s0 s1, P s0 → body key value s0 = Some s1 → P s1) →
  renderer.for_entries entries body s = Some s' → P s'.
Proof.
  intros HP Hbody. revert s HP. induction entries as [|[key value] rest IH];
    intros s HP; simpl.
  - by intros [= <-].
  - destruct (body key value s) as [s1|] eqn:E; [|done]. simpl.
    apply IH. by eapply Hbody.
Qed.
End iterate.

(** ** The renderer: the pixel buffer *)

Lemma buffer_cell_Some g y x r green b a :
  let pixelPos := (y * 64 + x) * 4 in
  index (renderer.PixelBuffer g) pixelPos = Some r →
  index (renderer.PixelBuffer g) (pixelPos + 1) = Some green →
  index (renderer.PixelBuffer g) (pixelPos + 2) = Some b →
  index (renderer.PixelBuffer g) (pixelPos + 3) = Some a →
  renderer.buffer_cell g y x = Some (r, green, b, a).
Proof.
  intros p Hr Hg Hb Ha. unfold renderer.buffer_cell. cbv zeta.
  change ((y * DisplayWidth + x) * renderer.BytesPerPixel) with p.
  unfold renderer.ColourR, renderer.ColourG, renderer.ColourB, renderer.ColourA.
  rewrite Z.add_0_r, Hr, Hg, Hb, Ha. done.
Qed.

Lemma buffer_cell_ext g g' y x :
  0 ≤ y → 0 ≤ x →
  (∀ k, 0 ≤ k < 4 →
        index (renderer.PixelBuffer g') ((y * 64 + x) * 4 + k)
        = index (renderer.PixelBuffer g) ((y * 64 + x) * 4 + k)) →
  renderer.buffer_cell g' y x = renderer.buffer_cell g y x.
Proof.
  intros Hy Hx Hk. unfold renderer.buffer_cell. cbv zeta.
  change ((y * DisplayWidth + x) * renderer.BytesPerPixel) with ((y * 64 + x) * 4).
  unfold renderer.ColourR, renderer.ColourG, renderer.ColourB, renderer.ColourA.
  by rewrite !Hk by lia.
Qed.

(** The state one pass of the inner loop body leaves. *)
Lemma paint_cell g y x cell :
  0 ≤ y < 32 → 0 ≤ x < 64 →
  len (renderer.PixelBuffer g) = 8192 →
  pixel (renderer.Chip8 g) y x = Some cell →
  ∃ buf,
    (let pixelPos := (y * DisplayWidth + x) * renderer.BytesPerPixel in
     let colourVal := if cell : bool then renderer.ColourOn else renderer.ColourOff in
     let colour := u8 colourVal in
     b ← assign (renderer.PixelBuffer g) (pixelPos + renderer.ColourR) colour;
     b ← assign b (pixelPos + renderer.ColourG) colour;
     b ← assign b (pixelPos + renderer.ColourB) colour;
     b ← assign b (pixelPos + renderer.ColourA) 0xFF;
     Some (renderer.with_PixelBuffer b g))
    = Some (renderer.with_PixelBuffer buf g) ∧
    len buf = 8192 ∧
    renderer.buffer_cell (renderer.with_PixelBuffer buf g) y x
    = Some (renderer.cell_colour cell) ∧
    (∀ i, i < (y * 64 + x) * 4 ∨ (y * 64 + x) * 4 + 4 ≤ i →
          index buf i = index (renderer.PixelBuffer g) i).
Proof.
  intros Hy Hx Hlen Hcell. cbv zeta.
  change ((y * DisplayWidth + x) * renderer.BytesPerPixel) with ((y * 64 + x) * 4).
  unfold renderer.ColourR, renderer.ColourG, renderer.ColourB, renderer.ColourA.
  set (p := (y * 64 + x) * 4). assert (0 ≤ p ≤ 8188) as Hp by (unfold p; lia).
  set (colour := u8 (if cell then renderer.ColourOn else renderer.ColourOff)).
  rewrite Z.add_0_r.
  rewrite assign_Some by lia. simpl.
  rewrite assign_Some by (rewrite len_insert; lia). simpl.
  rewrite assign_Some by (rewrite !len_insert; lia). simpl.
  rewrite assign_Some by (rewrite !len_insert; lia). simpl.
  eexists. split; [reflexivity|]. split; [by rewrite !len_insert|]. split.
  - replace (renderer.cell_colour cell) with (colour, colour, colour, 255)
      by (by destruct cell).
    apply buffer_cell_Some; fold p; cbn [renderer.PixelBuffer renderer.with_PixelBuffer].
    + rewrite !index_insert_ne by lia. apply index_insert_eq. lia.
    + rewrite !index_insert_ne by lia. apply index_insert_eq. rewrite !len_insert. lia.
    + rewrite !index_insert_ne by lia. apply index_insert_eq. rewrite !len_insert. lia.
    + apply index_insert_eq. rewrite !len_insert. lia.
  - intros i Hi. rewrite !index_insert_ne by lia. done.
Qed.

Lemma updatePixelBuffer_spec g :
  WF (renderer.Chip8 g) → len (renderer.PixelBuffer g) = 8192 →
  ∃ g', renderer.updatePixelBuffer g = Some g' ∧ renderer.painted g (32 * 64) g'.
Proof.
  intros HWF Hlen. unfold renderer.updatePixelBuffer.
  destruct (for_upto_spec (λ y g0, renderer.painted g (y * 64) g0) 0 DisplayHeight
              (λ y, renderer.for_upto 0 DisplayWidth (λ x g0,
                 let pixelPos := (y * DisplayWidth + x) * renderer.BytesPerPixel in
                 cell ← pixel (renderer.Chip8 g0) y x;
                 let colourVal := if cell : bool then renderer.ColourOn
                                  else renderer.ColourOff in
                 let colour := u8 colourVal in
                 b ← assign (renderer.PixelBuffer g0) (pixelPos + renderer.ColourR) colour;
                 b ← assign b (pixelPos + renderer.ColourG) colour;
                 b ← assign b (pixelPos + renderer.ColourB) colour;
                 b ← assign b (pixelPos + renderer.ColourA) 0xFF;
                 Some (renderer.with_PixelBuffer b g0))) g)
    as (g' & Hrun & HP); [done| | |by exists g'].
  { split_and!; [done..|]. unfold DisplayHeight, DisplayWidth. intros y x Hy Hx Hn. lia. }
  intros y g0 Hy HP. unfold DisplayHeight in Hy.
  destruct (for_upto_spec (λ x g1, renderer.painted g (y * 64 + x) g1) 0 DisplayWidth
              (λ x g0,
                 let pixelPos := (y * DisplayWidth + x) * renderer.BytesPerPixel in
                 cell ← pixel (renderer.Chip8 g0) y x;
                 let colourVal := if cell : bool then renderer.ColourOn
                                  else renderer.ColourOff in
                 let colour := u8 colourVal in
                 b ← assign (renderer.PixelBuffer g0) (pixelPos + renderer.ColourR) colour;
                 b ← assign b (pixelPos + renderer.ColourG) colour;
                 b ← assign b (pixelPos + renderer.ColourB) colour;
                 b ← assign b (pixelPos + renderer.ColourA) 0xFF;
                 Some (renderer.with_PixelBuffer b g0)) g0)
    as (g1 & Hrun1 & HP1); [done| | |].
  { by rewrite Z.add_0_r. }
  - intros x g1 Hx (Hc & Hk & Hl & Hcells). unfold DisplayWidth in Hx.
    destruct (pixel_is_Some (renderer.Chip8 g) y x HWF Hy Hx) as [cell Hcell].
    assert (pixel (renderer.Chip8 g1) y x = Some cell) as Hcell1 by (by rewrite Hc).
    destruct (paint_cell g1 y x cell Hy Hx Hl Hcell1)
      as (buf & Hbody & Hlbuf & Hthis & Hother).
    cbv zeta in Hbody. cbv zeta. rewrite Hcell1. simpl. rewrite Hbody.
    eexists. split; [reflexivity|]. split_and!; [done..|].
    unfold DisplayHeight, DisplayWidth. intros y' x' Hy' Hx' Hn.
    destruct (Z.eq_dec (y' * 64 + x') (y * 64 + x)) as [E|Hne].
    + assert (y' = y ∧ x' = x) as [-> ->] by lia.
      rewrite Hthis. unfold lit. by rewrite Hcell.
    + rewrite <- (Hcells y' x') by (unfold DisplayHeight, DisplayWidth; lia).
      apply buffer_cell_ext; [lia..|]. intros k Hk4. apply Hother. lia.
  - exists g1. split; [done|].
    replace ((y + 1) * 64) with (y * 64 + DisplayWidth) by (unfold DisplayWidth; lia).
    done.
Qed.

Lemma painted_renders g g' :
  renderer.painted g (32 * 64) g' → renderer.renders g'.
Proof.
  intros (Hc & _ & _ & Hcells) y x Hy Hx. rewrite Hc. apply Hcells; [done..|].
  unfold DisplayHeight, DisplayWidth in *. lia.
Qed.

(** X27: on a pixel buffer of 64 * 32 * 4 bytes, [updatePixelBuffer] does
    not abort; it changes nothing but the buffer, keeps its length, and
    leaves in it, for every display cell, the four bytes of the cell at
    [(y * 64 + x) * 4]: 255, 255, 255, 255 where the cell is set and
    0, 0, 0, 255 where it is not, whatever the buffer held before. *)
Theorem updatePixelBuffer_renders_display g :
  wf (renderer.Chip8 g) → len (renderer.PixelBuffer g) = 8192 →
  ∃ buf, renderer.updatePixelBuffer g = Some (renderer.with_PixelBuffer buf g) ∧
         len buf = 8192 ∧
         ∀ y x, 0 ≤ y < 32 → 0 ≤ x < 64 →
           renderer.buffer_cell (renderer.with_PixelBuffer buf g) y x
           = Some (if lit (renderer.Chip8 g) y x
                   then (255, 255, 255, 255) else (0, 0, 0, 255)).
Proof.
  intros HWF%wf_WF Hlen.
  destruct (updatePixelBuffer_spec g HWF Hlen) as (g' & Hrun & Hc & Hk & Hl & Hcells).
  exists (renderer.PixelBuffer g'). split_and!.
  - rewrite Hrun. f_equal. destruct g, g'. simpl in *. by subst.
  - done.
  - intros y x Hy Hx.
    replace (renderer.with_PixelBuffer (renderer.PixelBuffer g') g) with g'
      by (destruct g, g'; simpl in *; by subst).
    rewrite Hcells by (unfold DisplayHeight, DisplayWidth; lia).
    by destruct (lit (renderer.Chip8 g) y x).
Qed.

Lemma updatePixelBuffer_renders_display_witness :
  ∃ c, started [0xD0; 0x05] 1 = Some c ∧
       let g := renderer.New c in
       wf (renderer.Chip8 g) ∧ len (renderer.PixelBuffer g) = 8192 ∧
       ∃ buf, renderer.updatePixelBuffer g = Some (renderer.with_PixelBuffer buf g) ∧
              len buf = 8192 ∧
              ∀ y x, 0 ≤ y < 32 → 0 ≤ x < 64 →
                renderer.buffer_cell (renderer.with_PixelBuffer buf g) y x
                = Some (if lit (renderer.Chip8 g) y x
                        then (255, 255, 255, 255) else (0, 0, 0, 255)).
Proof.
  eexists. split; [boot|]. intros g.
  split; [by vm_compute|]. split; [by vm_compute|].
  apply (updatePixelBuffer_renders_display g); by vm_compute.
Defined.

(** ** The renderer: the screen *)

(** Case analysis on the tests of [Image_Set] and of the invariants. *)
Ltac pixel_cases :=
  unfold renderer.Image_Set;
  repeat case_decide; try done; try (exfalso; lia).

Lemma fill_block x y colour screen :
  ∃ screen',
    renderer.for_upto 0 renderer.Scale (λ dy,
      renderer.for_upto 0 renderer.Scale (λ dx s,
        Some (renderer.Image_Set (x * renderer.Scale + dx) (y * renderer.Scale + dy)
                                 colour s))) screen
    = Some screen' ∧
    ∀ px py, screen' px py =
             if decide (x * 10 ≤ px < x * 10 + 10 ∧ y * 10 ≤ py < y * 10 + 10)
             then colour else screen px py.
Proof.
  unfold renderer.Scale.
  destruct (for_upto_spec
              (λ dy s, ∀ px py, s px py =
                 if decide (x * 10 ≤ px < x * 10 + 10 ∧ y * 10 ≤ py < y * 10 + dy)
                 then colour else screen px py) 0 10
              (λ dy, renderer.for_upto 0 10 (λ dx s,
                 Some (renderer.Image_Set (x * 10 + dx) (y * 10 + dy) colour s))) screen)
    as (s' & Hrun & HP); [done| | |by exists s'].
  { intros px py. pixel_cases. }
  intros dy s Hdy HP.
  destruct (for_upto_spec
              (λ dx s1, ∀ px py, s1 px py =
                 if decide ((x * 10 ≤ px < x * 10 + 10 ∧ y * 10 ≤ py < y * 10 + dy)
                            ∨ (py = y * 10 + dy ∧ x * 10 ≤ px < x * 10 + dx))
                 then colour else screen px py) 0 10
              (λ dx s, Some (renderer.Image_Set (x * 10 + dx) (y * 10 + dy) colour s)) s)
    as (s1 & Hrun1 & HP1); [done| | |].
  - intros px py. rewrite HP. pixel_cases.
  - intros dx s1 Hdx HP1. eexists. split; [reflexivity|].
    intros px py. unfold renderer.Image_Set at 1. rewrite HP1. pixel_cases.
  - exists s1. split; [done|]. intros px py. rewrite HP1. pixel_cases.
Qed.

Lemma buffer_cell_is_Some g y x :
  len (renderer.PixelBuffer g) = 8192 → 0 ≤ y < 32 → 0 ≤ x < 64 →
  ∃ r green b a,
    index (renderer.PixelBuffer g) ((y * 64 + x) * 4 + 0) = Some r ∧
    index (renderer.PixelBuffer g) ((y * 64 + x) * 4 + 1) = Some green ∧
    index (renderer.PixelBuffer g) ((y * 64 + x) * 4 + 2) = Some b ∧
    index (renderer.PixelBuffer g) ((y * 64 + x) * 4 + 3) = Some a ∧
    renderer.buffer_cell g y x = Some (r, green, b, a).
Proof.
  intros Hlen Hy Hx.
  destruct (index_is_Some (renderer.PixelBuffer g) ((y * 64 + x) * 4 + 0)) as [r Hr]; [lia|].
  destruct (index_is_Some (renderer.PixelBuffer g) ((y * 64 + x) * 4 + 1)) as [gr Hg]; [lia|].
  destruct (index_is_Some (renderer.PixelBuffer g) ((y * 64 + x) * 4 + 2)) as [b Hb]; [lia|].
  destruct (index_is_Some (renderer.PixelBuffer g) ((y * 64 + x) * 4 + 3)) as [a Ha]; [lia|].
  exists r, gr, b, a. split_and!; [done..|].
  apply buffer_cell_Some; [|done..]. by rewrite Z.add_0_r in Hr.
Qed.

Lemma block_div p x : x * 10 ≤ p < x * 10 + 10 ↔ p / 10 = x.
Proof.
  pose proof (Z.div_mod p 10 ltac:(lia)). pose proof (Z.mod_pos_bound p 10 ltac:(lia)).
  lia.
Qed.

(** The loops of [Draw]: every pixel of the 640 by 320 screen gets the
    colour the pixel buffer holds for the cell it falls in. *)
Lemma fill_screen g screen :
  len (renderer.PixelBuffer g) = 8192 →
  ∃ screen',
    renderer.for_upto 0 DisplayHeight (λ y,
      renderer.for_upto 0 DisplayWidth (λ x screen,
        let pixelPos := (y * DisplayWidth + x) * renderer.BytesPerPixel in
        r ← index (renderer.PixelBuffer g) (pixelPos + renderer.ColourR);
        green ← index (renderer.PixelBuffer g) (pixelPos + renderer.ColourG);
        b ← index (renderer.PixelBuffer g) (pixelPos + renderer.ColourB);
        a ← index (renderer.PixelBuffer g) (pixelPos + renderer.ColourA);
        let screen :=
          renderer.Image_Set (x * renderer.Scale + renderer.Scale / 2)
                             (y * renderer.Scale + renderer.Scale / 2)
                             (r, green, b, a) screen in
        renderer.for_upto 0 renderer.Scale (λ dy,
          renderer.for_upto 0 renderer.Scale (λ dx screen,
            Some (renderer.Image_Set (x * renderer.Scale + dx)
                                     (y * renderer.Scale + dy)
                                     (r, green, b, a) screen))) screen)) screen
    = Some screen' ∧
    renderer.filled g screen (32 * 64) screen'.
Proof.
  intros Hlen.
  apply (for_upto_spec (λ y s, renderer.filled g screen (y * 64) s)); [done| |].
  { intros px py. unfold DisplayWidth, DisplayHeight, renderer.Scale.
    rewrite decide_False; [done|]. intros (Hpx & Hpy & Hn).
    assert (0 ≤ px / 10) by (apply Z.div_pos; lia).
    assert (0 ≤ py / 10) by (apply Z.div_pos; lia). lia. }
  intros y s Hy HP. unfold DisplayHeight in Hy.
  destruct (for_upto_spec (λ x s1, renderer.filled g screen (y * 64 + x) s1)
              0 DisplayWidth
              (λ x screen,
                 let pixelPos := (y * DisplayWidth + x) * renderer.BytesPerPixel in
                 r ← index (renderer.PixelBuffer g) (pixelPos + renderer.ColourR);
                 green ← index (renderer.PixelBuffer g) (pixelPos + renderer.ColourG);
                 b ← index (renderer.PixelBuffer g) (pixelPos + renderer.ColourB);
                 a ← index (renderer.PixelBuffer g) (pixelPos + renderer.ColourA);
                 let screen :=
                   renderer.Image_Set (x * renderer.Scale + renderer.Scale / 2)
                                      (y * renderer.Scale + renderer.Scale / 2)
                                      (r, green, b, a) screen in
                 renderer.for_upto 0 renderer.Scale (λ dy,
                   renderer.for_upto 0 renderer.Scale (λ dx screen,
                     Some (renderer.Image_Set (x * renderer.Scale + dx)
                                              (y * renderer.Scale + dy)
                                              (r, green, b, a) screen))) screen) s)
    as (s1 & Hrun1 & HP1); [done| | |].
  - by rewrite Z.add_0_r.
  - intros x s0 Hx HP0. unfold DisplayWidth in Hx.
    destruct (buffer_cell_is_Some g y x Hlen Hy Hx)
      as (r & green & b & a & Hr & Hg & Hb & Ha & Hcell).
    cbv zeta.
    change ((y * DisplayWidth + x) * renderer.BytesPerPixel) with ((y * 64 + x) * 4).
    unfold renderer.ColourR, renderer.ColourG, renderer.ColourB, renderer.ColourA.
    rewrite Hr, Hg, Hb, Ha. simpl.
    destruct (fill_block x y (r, green, b, a)
                (renderer.Image_Set (x * renderer.Scale + renderer.Scale / 2)
                                    (y * renderer.Scale + renderer.Scale / 2)
                                    (r, green, b, a) s0))
      as (s1 & Hrun1 & HP1).
    exists s1. split; [done|].
    intros px py. rewrite HP1. unfold renderer.Image_Set. rewrite HP0.
    unfold DisplayWidth, DisplayHeight, renderer.Scale.
    change (10 / 2) with 5.
    destruct (decide (x * 10 ≤ px < x * 10 + 10 ∧ y * 10 ≤ py < y * 10 + 10))
      as [[Hpx Hpy]|Hout].
    + apply block_div in Hpx, Hpy. rewrite Hpx, Hpy, Hcell.
      case_decide; [done|]. apply block_div in Hpx, Hpy. pixel_cases.
    + assert (¬ (px / 10 = x ∧ py / 10 = y)) as Hne.
      { intros [Ex%block_div Ey%block_div]. by apply Hout. }
      assert (0 ≤ px < 640 → 0 ≤ px / 10 < 64) as Hdx.
      { intros ?. split; [apply Z.div_pos; lia|apply Z.div_lt_upper_bound; lia]. }
      rewrite decide_False by lia.
      repeat case_decide; try done; exfalso; lia.
  - exists s1. split; [done|].
    replace ((y + 1) * 64) with (y * 64 + DisplayWidth) by (unfold DisplayWidth; lia).
    done.
Qed.

Lemma option_bind_Some {A B} (f : A → option B) (a : A) : (Some a ≫= f) = f a.
Proof. done. Qed.

Lemma with_DrawFlag_id c : with_DrawFlag (DrawFlag c) c = c.
Proof. by destruct c. Qed.

Lemma renders_ext g g' :
  renderer.PixelBuffer g' = renderer.PixelBuffer g →
  Display (renderer.Chip8 g') = Display (renderer.Chip8 g) →
  renderer.renders g → renderer.renders g'.
Proof.
  intros Hb Hd Hr y x Hy Hx. specialize (Hr y x Hy Hx).
  unfold renderer.buffer_cell, lit, pixel in *. by rewrite Hb, Hd.
Qed.

(** [Draw] on a game whose buffer is fresh. *)
Lemma Draw_spec screen g :
  WF (renderer.Chip8 g) → len (renderer.PixelBuffer g) = 8192 →
  renderer.fresh g →
  ∃ screen' g',
    renderer.Draw screen g = Some (screen', g') ∧
    renderer.Chip8 g' = with_DrawFlag false (renderer.Chip8 g) ∧
    renderer.KeyMap g' = renderer.KeyMap g ∧
    len (renderer.PixelBuffer g') = 8192 ∧
    renderer.renders g' ∧
    (∀ px py, 0 ≤ px < 640 → 0 ≤ py < 320 →
              screen' px py
              = renderer.cell_colour (lit (renderer.Chip8 g) (py / 10) (px / 10))) ∧
    (∀ px py, ¬ (0 ≤ px < 640 ∧ 0 ≤ py < 320) → screen' px py = screen px py).
Proof.
  intros HWF Hlen Hfresh.
  assert (∃ g1,
            (if DrawFlag (renderer.Chip8 g) then
               g0 ← renderer.updatePixelBuffer g;
               Some (renderer.with_Chip8
                       (with_DrawFlag false (renderer.Chip8 g0)) g0)
             else Some g) = Some g1 ∧
            renderer.Chip8 g1 = with_DrawFlag false (renderer.Chip8 g) ∧
            renderer.KeyMap g1 = renderer.KeyMap g ∧
            len (renderer.PixelBuffer g1) = 8192 ∧
            renderer.renders g1) as (g1 & Hfirst & Hc1 & Hk1 & Hl1 & Hr1).
  { destruct (DrawFlag (renderer.Chip8 g)) eqn:Hflag.
    - destruct (updatePixelBuffer_spec g HWF Hlen) as (g0 & Hrun & HP).
      pose proof (painted_renders _ _ HP) as Hr.
      destruct HP as (Hc & Hk & Hl & _).
      rewrite Hrun. eexists. split; [reflexivity|]. simpl.
      split_and!; [by rewrite Hc|done..|].
      by apply (renders_ext g0).
    - exists g. split; [done|]. split_and!; [|done..|].
      + by rewrite <- Hflag, with_DrawFlag_id.
      + destruct Hfresh as [Hf|Hr]; [congruence|done]. }
  destruct (fill_screen g1 screen Hl1) as (screen' & Hfill & HP).
  exists screen', g1. split.
  { cbv zeta in Hfill. unfold renderer.Draw.
    rewrite Hfirst, option_bind_Some. cbv beta zeta. by rewrite Hfill. }
  split_and!; [done..| |].
  - intros px py Hpx Hpy. rewrite HP.
    assert (0 ≤ px / 10 < 64) as Hx.
    { split; [apply Z.div_pos; lia|apply Z.div_lt_upper_bound; lia]. }
    assert (0 ≤ py / 10 < 32) as Hy.
    { split; [apply Z.div_pos; lia|apply Z.div_lt_upper_bound; lia]. }
    unfold DisplayWidth, DisplayHeight, renderer.Scale.
    rewrite decide_True by lia.
    rewrite (Hr1 (py / 10) (px / 10)) by done. simpl. by rewrite Hc1.
  - intros px py Hout. rewrite HP.
    unfold DisplayWidth, DisplayHeight, renderer.Scale.
    by rewrite decide_False by (intros (? & ? & _); apply Hout; lia).
Qed.

(** X28: [Draw], on a game whose pixel buffer is fresh (the draw flag is
    set, or the buffer holds the display), does not abort; it gives every
    pixel of the screen inside the size [Layout] answers, 640 by 320, the
    colour of the display cell it falls in, cell (row py / 10, column
    px / 10): white where the cell is set, black where it is not; it
    touches no pixel outside, and leaves the draw flag clear and the
    buffer holding the display. *)
Theorem Draw_shows_display screen g :
  wf (renderer.Chip8 g) → len (renderer.PixelBuffer g) = 8192 →
  renderer.fresh g →
  ∃ screen' g',
    renderer.Draw screen g = Some (screen', g') ∧
    renderer.Chip8 g' = with_DrawFlag false (renderer.Chip8 g) ∧
    renderer.renders g' ∧
    ∀ w h px py,
      (if decide (0 ≤ px < (renderer.Layout w h).1 ∧ 0 ≤ py < (renderer.Layout w h).2)
       then screen' px py
            = renderer.cell_colour (lit (renderer.Chip8 g) (py / 10) (px / 10))
       else screen' px py = screen px py).
Proof.
  intros HWF%wf_WF Hlen Hfresh.
  destruct (Draw_spec screen g HWF Hlen Hfresh)
    as (screen' & g' & Hrun & Hc & _ & _ & Hr & Hin & Hout).
  exists screen', g'. split_and!; [done..|].
  intros w h px py. change (renderer.Layout w h) with (640, 320). cbn [fst snd].
  case_decide as Hd; [destruct Hd; by apply Hin|by apply Hout].
Qed.

Lemma Draw_shows_display_witness :
  ∃ c, started [0xD0; 0x05] 1 = Some c ∧
       let g := renderer.New c in
       let screen : renderer.Image := λ _ _, (0, 0, 0, 0) in
       wf (renderer.Chip8 g) ∧ len (renderer.PixelBuffer g) = 8192 ∧
       renderer.fresh g ∧
       ∃ screen' g',
         renderer.Draw screen g = Some (screen', g') ∧
         renderer.Chip8 g' = with_DrawFlag false (renderer.Chip8 g) ∧
         renderer.renders g' ∧
         ∀ w h px py,
           (if decide (0 ≤ px < (renderer.Layout w h).1
                       ∧ 0 ≤ py < (renderer.Layout w h).2)
            then screen' px py
                 = renderer.cell_colour (lit (renderer.Chip8 g) (py / 10) (px / 10))
            else screen' px py = screen px py).
Proof.
  eexists. split; [boot|]. intros g screen.
  assert (renderer.fresh g) as Hfresh by (by left).
  split; [by vm_compute|]. split; [by vm_compute|]. split; [exact Hfresh|].
  apply (Draw_shows_display screen g); [by vm_compute|by vm_compute|exact Hfresh].
Defined.

(** ** The renderer: a frame *)

(** The display is as it was and so is the draw flag, or the draw flag is
    set. *)
Lemma load_display_flag rom c r c' :
  LoadROMFromBytes rom c = Some (r, c') →
  (Display c' = Display c ∧ DrawFlag c' = DrawFlag c) ∨ DrawFlag c' = true.
Proof.
  unfold LoadROMFromBytes. intros (u & c1 & Hclear & Hrest)%bind_inv.
  assert (unchanged (λ c, (Display c, DrawFlag c))
            (for_range FontEndAddr MemorySize (λ i, writeMem i 0 ;; next))) as Hfr
    by frame.
  apply Hfr in Hclear. injection Hclear as Hd Hf. cbv zeta in Hrest.
  destruct (MemorySize - ProgramStartAddr <? len rom).
  - injection Hrest as _ <-. by left.
  - right.
    apply bind_inv in Hrest as (u1 & c2 & _ & Hrest).
    do 5 apply bind_inv in Hrest as (? & ? & _ & Hrest).
    apply bind_inv in Hrest as (? & c3 & Hset & Hrest).
    injection Hset as _ <-.
    assert (unchanged DrawFlag
              (for_range 0 DisplayHeight (λ y,
                 for_range 0 DisplayWidth (λ x, writePixel y x false ;; next) ;;
                 next) ;;
               for_range 0 RegisterCount (λ i, writeV i 0 ;; next) ;;
               mret (None : option error))) as Hfr' by frame.
    by apply Hfr' in Hrest.
Qed.

Lemma load_Keys rom : unchanged Keys (LoadROMFromBytes rom).
Proof.
  unfold LoadROMFromBytes. cbv zeta.
  apply unchanged_bind; [frame|]. intros _.
  destruct (MemorySize - ProgramStartAddr <? len rom); [apply unchanged_ret|].
  apply unchanged_bind.
  { apply unchanged_for_range. intros j. apply unchanged_bind.
    - intros c a c'. unfold lift. destruct (index rom j); [|done]. by intros [= _ <-].
    - intros. frame. }
  intros. frame.
Qed.

Lemma fetch_state c r : fetch c = Some r → r.2 = c.
Proof. intros (hi & lo & _ & _ & ->)%fetch_inv. done. Qed.

Lemma cycle_display_flag rnd c c' :
  EmulateCycle rnd c = Some (tt, c') →
  (Display c' = Display c ∧ DrawFlag c' = DrawFlag c) ∨ DrawFlag c' = true.
Proof.
  intros Hrun. pose proof Hrun as Hrun0. unfold EmulateCycle in Hrun.
  apply bind_inv in Hrun as (opcode & c0 & Hfetch & _).
  pose proof (fetch_state _ _ Hfetch) as E. simpl in E. subst c0.
  assert (opcode_at c = Some opcode) as Hop by (unfold opcode_at; by rewrite Hfetch).
  pose proof (EmulateCycle_ran _ _ _ _ Hop Hrun0) as Hexec.
  destruct (decide (Z.land opcode 0xF0FF = 0x00E0)) as [Hcls|Hcls].
  { right. rewrite (execute_CLS _ _ Hcls) in Hexec. by apply CLS_sets_flag in Hexec. }
  destruct (decide (Z.land opcode 0xF000 = 0xD000)) as [Hdrw|Hdrw].
  { right. rewrite (execute_DRW _ _ Hdrw) in Hexec. by apply DRW_sets_flag in Hexec. }
  left. apply (execute_Display rnd opcode Hcls Hdrw) in Hexec.
  by injection Hexec as -> ->.
Qed.

Lemma cycle_Keys rnd : unchanged Keys (EmulateCycle rnd).
Proof.
  unfold EmulateCycle. apply unchanged_bind.
  { unfold fetch. frame. }
  intros opcode. apply unchanged_bind; [frame|]. intros _. apply execute_Keys.
Qed.

Lemma UpdateTimers_frame :
  unchanged (λ c, (Display c, DrawFlag c, Keys c)) UpdateTimers.
Proof. unfold UpdateTimers. frame. Qed.

Lemma fresh_kept g g' :
  renderer.PixelBuffer g' = renderer.PixelBuffer g →
  (Display (renderer.Chip8 g') = Display (renderer.Chip8 g)
   ∧ DrawFlag (renderer.Chip8 g') = DrawFlag (renderer.Chip8 g))
  ∨ DrawFlag (renderer.Chip8 g') = true →
  renderer.fresh g → renderer.fresh g'.
Proof.
  intros Hb [[Hd Hf]|Hset] Hfresh; [|by left].
  destruct Hfresh as [Hflag|Hr]; [left; congruence|right].
  by apply (renders_ext g).
Qed.

Lemma frame_inv_step e g g0 c :
  renderer.frame_inv e g g0 →
  (Display c = Display (renderer.Chip8 g0) ∧ DrawFlag c = DrawFlag (renderer.Chip8 g0))
  ∨ DrawFlag c = true →
  (WF (renderer.Chip8 g0) →
   (∀ file, renderer.DroppedFile e = Some file → forallb byte file) → WF c) →
  renderer.frame_inv e g (renderer.with_Chip8 c g0).
Proof.
  intros (Hb & Hk & Hf & Hw) Hkept HWF. split_and!; [done..| |].
  - intros Hfresh. by apply (fresh_kept g0); [|simpl|apply Hf].
  - intros HWFg Hfile. apply HWF; [by apply Hw|done].
Qed.

Lemma checkForDroppedFiles_inv e g g1 :
  renderer.checkForDroppedFiles e g = Some g1 →
  renderer.frame_inv e g g1 ∧
  (¬ is_Some (renderer.DroppedFile e) → g1 = g).
Proof.
  unfold renderer.checkForDroppedFiles.
  destruct (renderer.DroppedFile e) as [file|] eqn:Hfile.
  - destruct (LoadROMFromBytes file (renderer.Chip8 g)) as [[r c]|] eqn:Hload; [|done].
    simpl. intros [= <-]. split; [|by intros []].
    apply (frame_inv_step e g g).
    + split_and!; done.
    + by apply (load_display_flag file _ r).
    + intros HWF Hbytes. eapply WF_LoadROMFromBytes; [done| |done]. by apply Hbytes.
  - intros [= <-]. split; [|done]. split_and!; done.
Qed.

(** The loop over the key map, for a body that writes to key [value] the
    state of [key]. *)
Section key_loop.
Context (pressed : renderer.Key → bool).
Context (body : renderer.Key → Z → renderer.Game → option renderer.Game).
Hypothesis body_eq : ∀ key value g,
  body key value g =
    keys ← assign (Keys (renderer.Chip8 g)) value (pressed key);
    Some (renderer.with_Chip8 (with_Keys keys (renderer.Chip8 g)) g).

Lemma key_loop_step key value g g' :
  body key value g = Some g' →
  0 ≤ value < len (Keys (renderer.Chip8 g)) ∧
  g' = renderer.with_Chip8
         (with_Keys (<[Z.to_nat value := pressed key]> (Keys (renderer.Chip8 g)))
            (renderer.Chip8 g)) g.
Proof.
  rewrite body_eq.
  destruct (assign (Keys (renderer.Chip8 g)) value (pressed key)) as [keys|] eqn:E;
    [|done].
  simpl. intros [= <-]. split; [by eapply assign_Some_inv|].
  by rewrite (assign_inv _ _ _ _ E).
Qed.

Lemma key_loop_frame order g g' :
  renderer.for_entries order body g = Some g' →
  renderer.PixelBuffer g' = renderer.PixelBuffer g ∧
  renderer.KeyMap g' = renderer.KeyMap g ∧
  renderer.Chip8 g' = with_Keys (Keys (renderer.Chip8 g')) (renderer.Chip8 g) ∧
  len (Keys (renderer.Chip8 g')) = len (Keys (renderer.Chip8 g)).
Proof.
  revert g. induction order as [|[key value] rest IH]; intros g; simpl.
  - intros [= <-]. split_and!; try done. by destruct (renderer.Chip8 g).
  - destruct (body key value g) as [g1|] eqn:E; [|done]. simpl.
    apply key_loop_step in E as [Hv ->].
    intros (Hb & Hk & Hc & Hl)%IH. simpl in *.
    split_and!; [done..| |by rewrite Hl, len_insert].
    by rewrite Hc.
Qed.

Lemma key_loop_other order g g' v :
  renderer.for_entries order body g = Some g' →
  v ∉ order.*2 →
  index (Keys (renderer.Chip8 g')) v = index (Keys (renderer.Chip8 g)) v.
Proof.
  revert g. induction order as [|[key value] rest IH]; intros g; simpl.
  - by intros [= <-].
  - destruct (body key value g) as [g1|] eqn:E; [|done]. simpl.
    apply key_loop_step in E as [Hv ->].
    intros Hrun Hnotin. apply not_elem_of_cons in Hnotin as [Hne Hnotin].
    rewrite (IH _ Hrun Hnotin). simpl. apply index_insert_ne; [lia|done].
Qed.

Lemma key_loop_keys order g g' key value :
  renderer.for_entries order body g = Some g' →
  NoDup (order.*2) → (key, value) ∈ order →
  index (Keys (renderer.Chip8 g')) value = Some (pressed key).
Proof.
  revert g. induction order as [|[key0 value0] rest IH]; intros g; simpl.
  - intros _ _ Hin. by apply elem_of_nil in Hin.
  - destruct (body key0 value0 g) as [g1|] eqn:E; [|done]. simpl.
    apply key_loop_step in E as [Hv ->].
    intros Hrun [Hnotin Hnodup]%NoDup_cons [Heq|Hin]%elem_of_cons.
    + injection Heq as -> ->.
      rewrite (key_loop_other _ _ _ _ Hrun Hnotin). simpl.
      by apply index_insert_eq.
    + by apply (IH _ Hrun).
Qed.
End key_loop.

Lemma WF_set_Keys c keys :
  WF c → len keys = len (Keys c) → WF (with_Keys keys c).
Proof. intros [] Hlen. constructor; try done. simpl. by rewrite Hlen. Qed.

Lemma Update_inv order e g r g' :
  renderer.Update order e g = Some (r, g') →
  renderer.frame_inv e g g' ∧
  (NoDup (order.*2) →
   ∀ key value, (key, value) ∈ order →
     index (Keys (renderer.Chip8 g')) value = Some (renderer.IsKeyPressed e key)).
Proof.
  unfold renderer.Update.
  destruct (renderer.checkForDroppedFiles e g) as [g1|] eqn:Hdrop; [|done].
  rewrite option_bind_Some.
  apply checkForDroppedFiles_inv in Hdrop as [Hinv1 _].
  set (body := λ (key : renderer.Key) (value : Z) (g0 : renderer.Game), _).
  assert (∀ key value g0,
            body key value g0 =
              keys ← assign (Keys (renderer.Chip8 g0)) value
                            (renderer.IsKeyPressed e key);
              Some (renderer.with_Chip8 (with_Keys keys (renderer.Chip8 g0)) g0))
    as Hbody.
  { intros key value g0. unfold body. by destruct (renderer.IsKeyPressed e key). }
  destruct (renderer.for_entries order body g1) as [g2|] eqn:Hkeys; [|done].
  rewrite option_bind_Some.
  pose proof (key_loop_frame _ body Hbody _ _ _ Hkeys) as (Hb2 & Hk2 & Hc2 & Hl2).
  pose proof (λ key value, key_loop_keys _ body Hbody order g1 g2 key value Hkeys)
    as Hread.
  assert (renderer.frame_inv e g g2) as Hinv2.
  { replace g2 with (renderer.with_Chip8 (renderer.Chip8 g2) g1)
      by (destruct g1, g2; simpl in *; by subst).
    apply frame_inv_step; [done| |].
    - left. by rewrite Hc2.
    - intros HWF _. rewrite Hc2. by apply WF_set_Keys. }
  destruct (renderer.IsKeyJustPressed e renderer.KeyEscape).
  { intros [= <- <-]. split; [done|]. intros Hnd key value Hin. by eapply Hread. }
  match goal with
  | |- context [renderer.for_upto 0 renderer.CyclesPerUpdate ?f g2] =>
      destruct (renderer.for_upto 0 renderer.CyclesPerUpdate f g2) as [g3|] eqn:Hcycles;
        [|done]
  end.
  rewrite option_bind_Some. intros [= <- <-].
  assert (renderer.frame_inv e g g3 ∧
          Keys (renderer.Chip8 g3) = Keys (renderer.Chip8 g2)) as [Hinv3 Hkeys3];
    [|split; [done|]; intros Hnd key value Hin; rewrite Hkeys3; by eapply Hread].
  apply (for_upto_inv
           (λ g0, renderer.frame_inv e g g0 ∧
                  Keys (renderer.Chip8 g0) = Keys (renderer.Chip8 g2))
           _ _ _ _ _ (conj Hinv2 eq_refl)) in Hcycles; [done|].
  clear Hcycles.
  intros i g0 g4 [Hinv0 Hkeys0]. unfold run.
    destruct (EmulateCycle (renderer.Intn e i) (renderer.Chip8 g0)) as [[[] c1]|] eqn:Hcycle;
      [|done].
    simpl.
    destruct (UpdateTimers c1) as [[[] c2]|] eqn:Htimers; [|done].
    simpl. intros [= <-].
    pose proof (UpdateTimers_frame _ _ _ Htimers) as [= Hd2 Hf2 Hkk2].
    split.
    + change (renderer.with_Chip8 c2 g0)
        with (renderer.with_Chip8 c2 (renderer.with_Chip8 c1 g0)).
      apply frame_inv_step.
      * apply frame_inv_step; [done|by apply cycle_display_flag in Hcycle|].
        intros HWF _. by destruct (keeps_EmulateCycle _ _ _ _ HWF Hcycle).
      * left. done.
      * simpl. intros HWF _. by destruct (keeps_UpdateTimers _ _ _ HWF Htimers).
    + simpl. rewrite Hkk2, <- Hkeys0. by apply (cycle_Keys _ _ _ _ Hcycle).
Qed.

(** X29: a frame shows the display.  After an [Update] that ran, on a
    game whose pixel buffer was fresh, [Draw] does not abort and gives
    every pixel of the 640 by 320 screen the colour of the display cell it
    falls in, as that [Update] left the display: the screen is never
    behind the display, because no step of [Update] changes the display
    without the draw flag being set.  The machine is well-formed, and the
    buffer is of the same length and fresh, for the next frame. *)
Theorem Update_then_Draw_shows_display order e g r g1 screen :
  wf (renderer.Chip8 g) → len (renderer.PixelBuffer g) = 8192 →
  renderer.fresh g →
  (∀ file, renderer.DroppedFile e = Some file → forallb byte file) →
  renderer.Update order e g = Some (r, g1) →
  ∃ screen' g2,
    renderer.Draw screen g1 = Some (screen', g2) ∧
    (∀ px py, 0 ≤ px < 640 → 0 ≤ py < 320 →
       screen' px py
       = renderer.cell_colour (lit (renderer.Chip8 g1) (py / 10) (px / 10))) ∧
    wf (renderer.Chip8 g2) ∧ len (renderer.PixelBuffer g2) = 8192 ∧
    renderer.fresh g2.
Proof.
  intros HWF%wf_WF Hlen Hfresh Hfile Hrun.
  destruct (Update_inv _ _ _ _ _ Hrun) as [(Hb & Hk & Hf & Hw) _].
  assert (WF (renderer.Chip8 g1)) as HWF1 by (by apply Hw).
  destruct (Draw_spec screen g1 HWF1) as (screen' & g2 & Hdraw & Hc & _ & Hl & Hr & Hin & _);
    [by rewrite Hb|by apply Hf|].
  exists screen', g2. split_and!; [done..| |done|by right].
  apply wf_WF. rewrite Hc. by apply WF_with_DrawFlag.
Qed.

Lemma Update_then_Draw_shows_display_witness :
  ∃ c, started [0xD0; 0x05; 0x12; 0x02] 0 = Some c ∧
       let g := renderer.New c in
       let e := renderer.mkInput None (λ _, false) (λ _, false) (λ _, 0) in
       let order := renderer.KeyMap g in
       let screen : renderer.Image := λ _ _, (0, 0, 0, 0) in
       ∃ r g1,
         wf (renderer.Chip8 g) ∧ len (renderer.PixelBuffer g) = 8192 ∧
         renderer.fresh g ∧
         (∀ file, renderer.DroppedFile e = Some file → forallb byte file) ∧
         renderer.Update order e g = Some (r, g1) ∧
         pixel (renderer.Chip8 g1) 0 0 = Some true ∧
         ∃ screen' g2,
           renderer.Draw screen g1 = Some (screen', g2) ∧
           (∀ px py, 0 ≤ px < 640 → 0 ≤ py < 320 →
              screen' px py
              = renderer.cell_colour (lit (renderer.Chip8 g1) (py / 10) (px / 10))) ∧
           wf (renderer.Chip8 g2) ∧ len (renderer.PixelBuffer g2) = 8192 ∧
           renderer.fresh g2.
Proof.
  eexists. split; [boot|]. intros g e order screen.
  assert (renderer.fresh g) as Hfresh by (by left).
  assert (∀ file, renderer.DroppedFile e = Some file → forallb byte file) as Hfile
    by done.
  assert (∃ r g1, renderer.Update order e g = Some (r, g1)
                  ∧ pixel (renderer.Chip8 g1) 0 0 = Some true) as (r & g1 & Hrun & Hpix).
  { eexists. eexists. split; [vm_compute; reflexivity|reflexivity]. }
  exists r, g1.
  split; [by vm_compute|]. split; [by vm_compute|]. split; [exact Hfresh|].
  split; [exact Hfile|]. split; [exact Hrun|]. split; [exact Hpix|].
  apply (Update_then_Draw_shows_display order e g r g1 screen);
    [by vm_compute|by vm_compute|exact Hfresh|exact Hfile|exact Hrun].
Defined.

Lemma KeyMap_values c :
  NoDup ((renderer.KeyMap (renderer.New c)).*2) ∧
  ∀ value, 0 ≤ value < 16 →
           ∃ key, (key, value) ∈ renderer.KeyMap (renderer.New c).
Proof.
  split.
  - cbn [renderer.KeyMap renderer.New fmap list_fmap snd].
    repeat (apply NoDup_cons; split;
            [rewrite ?not_elem_of_cons; split_and?; (done || apply not_elem_of_nil)|]).
    apply NoDup_nil_2.
  - intros value Hv.
    assert (value = 0 ∨ value = 1 ∨ value = 2 ∨ value = 3 ∨ value = 4 ∨ value = 5 ∨
            value = 6 ∨ value = 7 ∨ value = 8 ∨ value = 9 ∨ value = 10 ∨
            value = 11 ∨ value = 12 ∨ value = 13 ∨ value = 14 ∨ value = 15)
      as Hcases by lia.
    cbn [renderer.KeyMap renderer.New].
    repeat (destruct Hcases as [->|Hcases]); try rewrite Hcases;
      eexists; repeat (apply elem_of_cons; first [left; reflexivity|right]).
Qed.

(** X30: [Update] reads the keyboard into the machine.  After an [Update]
    that ran, with the key map as [New] makes it, the state of each key
    of the machine is the state of the keyboard key mapped to it, in
    whatever order Go goes through the map; each of the 16 keys of the
    machine has such a keyboard key, so none keeps its state of the frame
    before; and the cycles of the frame do not change them. *)
Theorem Update_reads_keys order e g r g' :
  renderer.KeyMap g = renderer.KeyMap (renderer.New (renderer.Chip8 g)) →
  order ≡ₚ renderer.KeyMap g →
  renderer.Update order e g = Some (r, g') →
  (∀ key value, (key, value) ∈ renderer.KeyMap g →
     index (Keys (renderer.Chip8 g')) value = Some (renderer.IsKeyPressed e key)) ∧
  (∀ value, 0 ≤ value < 16 → ∃ key, (key, value) ∈ renderer.KeyMap g).
Proof.
  intros Hmap Hperm Hrun.
  destruct (KeyMap_values (renderer.Chip8 g)) as [Hnd Hall].
  rewrite <- Hmap in Hnd, Hall. split; [|done].
  destruct (Update_inv _ _ _ _ _ Hrun) as [_ Hkeys].
  intros key value Hin. apply Hkeys; by rewrite Hperm.
Qed.

Lemma Update_reads_keys_witness :
  ∃ c, started [0x12; 0x00] 0 = Some c ∧
       let g := renderer.New c in
       let e := renderer.mkInput None
                  (λ key, match key with renderer.KeyW => true | _ => false end)
                  (λ _, false) (λ _, 0) in
       let order := reverse (renderer.KeyMap g) in
       ∃ r g',
         renderer.KeyMap g = renderer.KeyMap (renderer.New (renderer.Chip8 g)) ∧
         order ≡ₚ renderer.KeyMap g ∧
         renderer.Update order e g = Some (r, g') ∧
         index (Keys (renderer.Chip8 g')) 5 = Some true ∧
         (∀ key value, (key, value) ∈ renderer.KeyMap g →
            index (Keys (renderer.Chip8 g')) value
            = Some (renderer.IsKeyPressed e key)) ∧
         (∀ value, 0 ≤ value < 16 → ∃ key, (key, value) ∈ renderer.KeyMap g).
Proof.
  eexists. split; [boot|]. intros g e order.
  assert (order ≡ₚ renderer.KeyMap g) as Hperm by apply reverse_Permutation.
  assert (∃ r g', renderer.Update order e g = Some (r, g')
                  ∧ index (Keys (renderer.Chip8 g')) 5 = Some true)
    as (r & g' & Hrun & Hkey).
  { eexists. eexists. split; [vm_compute; reflexivity|reflexivity]. }
  exists r, g'.
  split; [reflexivity|]. split; [exact Hperm|]. split; [exact Hrun|].
  split; [exact Hkey|].
  apply (Update_reads_keys order e g r g'); [reflexivity|exact Hperm|exact Hrun].
Defined.
